(** * Shift reconstruction engine of [src/services/timesheetService.ts]

    A shallow embedding of the normaliser ([parseRawData]), the meal-window
    resolver ([getLunchWindow]), the two segmentation loops
    ([processRecords], [calculateDailyWorkers]) and the break detector
    ([calculateSingleShift]), followed by the properties proved about them.

    Modelling conventions.
    - A JavaScript [Date] is its time value: an integer number of
      milliseconds since the epoch ([getTime]), of type [Z].  The Invalid
      Date, whose time value is [NaN], is represented where a sheet is read
      (module [AnyDate]); the stages after the reading are modelled on
      valid dates.
    - Local-time accessors ([getHours], [setHours], [getFullYear], ...)
      are taken in a time zone with a fixed offset [tz] (milliseconds to
      add to UTC); daylight-saving transitions are not modelled.
    - A JavaScript [number] that is not a time value (configuration fields,
      hours, minutes, the result of [Math.random]) is an exact rational
      [Q]; the rounding of IEEE doubles is not modelled there.  Where the
      arithmetic of the code leaves the whole numbers and its result is
      shown, in the net duration of the daily-worker mode and in the hours
      that [toFixed] rounds, the number is a binary64 [float] computed with
      the operations of the code.
    - Strings are [string]s of bytes.  [toLowerCase] and [trim], whose
      results depend on the Unicode tables of the platform, are methods of
      the class [StringMethods], about which nothing is assumed: every
      property holds whatever they return. *)

From Stdlib Require Import ZArith QArith Qround Qabs List Bool Lia Lqa.
From Stdlib Require Import String Ascii DecimalString Permutation Sorted.
From Stdlib Require Import OrderedTypeEx Floats.
Import ListNotations.

Local Open Scope Z_scope.

(** ** Time values *)

Definition Date := Z.

Definition msPerSecond : Z := 1000.
Definition msPerMinute : Z := 60000.
Definition msPerHour : Z := 3600000.
Definition msPerDay : Z := 86400000.

(** Days since 1970-01-01 to proleptic Gregorian (year, month, day), and
    back; the calendar behind [getFullYear], [getMonth] and [getDate]. *)
Definition civilFromDays (days : Z) : Z * Z * Z :=
  let z := days + 719468 in
  let era := z / 146097 in
  let doe := z - era * 146097 in
  let yoe := (doe - doe / 1460 + doe / 36524 - doe / 146096) / 365 in
  let y := yoe + era * 400 in
  let doy := doe - (365 * yoe + yoe / 4 - yoe / 100) in
  let mp := (5 * doy + 2) / 153 in
  let d := doy - (153 * mp + 2) / 5 + 1 in
  let m := if mp <? 10 then mp + 3 else mp - 9 in
  (if m <=? 2 then y + 1 else y, m, d).

Definition daysFromCivil (y m d : Z) : Z :=
  let y' := if m <=? 2 then y - 1 else y in
  let era := y' / 400 in
  let yoe := y' - era * 400 in
  let doy := (153 * (if m >? 2 then m - 3 else m + 9) + 2) / 5 + d - 1 in
  let doe := yoe * 365 + yoe / 4 - yoe / 100 + doy in
  era * 146097 + doe - 719468.

Section LocalTime.

(** Offset of local time from UTC, in milliseconds. *)
Variable tz : Z.

Definition localMs (d : Date) : Z := d + tz.
Definition localDay (d : Date) : Z := localMs d / msPerDay.
Definition msOfDay (d : Date) : Z := localMs d mod msPerDay.

Definition getHours (d : Date) : Z := msOfDay d / msPerHour.
Definition getMinutes (d : Date) : Z := (msOfDay d mod msPerHour) / msPerMinute.
Definition getSeconds (d : Date) : Z := (msOfDay d mod msPerMinute) / msPerSecond.
Definition getFullYear (d : Date) : Z := fst (fst (civilFromDays (localDay d))).
Definition getMonth (d : Date) : Z := snd (fst (civilFromDays (localDay d))) - 1.
Definition getDate (d : Date) : Z := snd (civilFromDays (localDay d)).

(** [new Date(y, m - 1, d, hh, mm, ss)] *)
Definition mkDate (y m d hh mm ss : Z) : Date :=
  daysFromCivil y m d * msPerDay + hh * msPerHour + mm * msPerMinute
  + ss * msPerSecond - tz.

(** [d.setHours(hours, minutes, 0, 0)] *)
Definition setHours (d : Date) (hours minutes : Z) : Date :=
  localDay d * msPerDay + hours * msPerHour + minutes * msPerMinute - tz.

(** [d.setDate(d.getDate() + n)] *)
Definition addDays (d : Date) (n : Z) : Date := d + n * msPerDay.

(** Helper for setting specific time on a date *)
Definition setDateTime (baseDate : Date) (hours minutes : Z) : Date :=
  let newDate := baseDate in
  setHours newDate hours minutes.

(** Helper to determine the target lunch window from the shift start *)
Definition getLunchWindow (shiftStart : Date) : Date * Date :=
  let startHour := getHours shiftStart in
  if (startHour >=? 5) && (startHour <? 13) then
    (setDateTime shiftStart 10 30, setDateTime shiftStart 14 30)
  else if (startHour >=? 13) && (startHour <? 18) then
    (setDateTime shiftStart 17 30, setDateTime shiftStart 20 0)
  else
    let refDate :=
      if startHour >=? 18 then addDays shiftStart 1 else shiftStart in
    (setDateTime refDate 0 30, setDateTime refDate 3 0).

End LocalTime.

(** ** Strings *)

Local Open Scope string_scope.

(** The methods of [String.prototype] that follow the Unicode tables of the
    platform: [s.toLowerCase()] and [s.trim()]. *)
Class StringMethods : Type := {
  toLowerCase : string -> string;
  trim : string -> string
}.

(** [s.includes(sub)] *)
Fixpoint includes (s sub : string) : bool :=
  if String.prefix sub s then true
  else match s with
       | EmptyString => false
       | String _ s' => includes s' sub
       end.

(** [keywords.some(kw => header.includes(kw))] *)
Definition includesAny (header : string) (keywords : list string) : bool :=
  existsb (includes header) keywords.

(** [n.toString()] for an integer *)
Definition toStringZ (n : Z) : string :=
  DecimalString.NilZero.string_of_int (Z.to_int n).

(** [n.toString().padStart(2, '0')] *)
Definition pad (n : Z) : string :=
  let s := toStringZ n in
  if (String.length s <? 2)%nat then "0" ++ s else s.

(** ** Sorting

    [Array.prototype.sort] is stable; with a comparator that is a total
    preorder its result is the stable insertion order computed here.  An
    element stays in front of another when the comparator is not
    positive. *)

Section Sort.
Context {A : Type} (compareFn : A -> A -> Q).

Fixpoint insertSorted (x : A) (l : list A) : list A :=
  match l with
  | [] => [x]
  | y :: l' =>
      if Qle_bool (compareFn x y) 0 then x :: l else y :: insertSorted x l'
  end.

Definition jsSort (l : list A) : list A := fold_right insertSorted [] l.
End Sort.

(** ** Formatting helpers *)

(** Helper to format Date to YYYY-MM-DD *)
Definition formatDateOnly (tz : Z) (date : Date) : string :=
  toStringZ (getFullYear tz date) ++ "-" ++ pad (getMonth tz date + 1)
  ++ "-" ++ pad (getDate tz date).

(** Helper to format Duration MS to HH:MM:SS *)
Definition formatDuration (ms : Q) : string :=
  let ms := if Qle_bool 0 ms then ms else 0%Q in
  let totalSeconds := Qfloor (ms / 1000) in
  let h := totalSeconds / 3600 in
  let m := (totalSeconds mod 3600) / 60 in
  let s := totalSeconds mod 60 in
  pad h ++ ":" ++ pad m ++ ":" ++ pad s.

(** A whole number below 2^53 in absolute value, as the double that holds
    it: a time value, or the difference of two. *)
Definition Number (z : Z) : float :=
  if (z <? 0)%Z then PrimFloat.opp (PrimFloat.of_uint63 (Uint63.of_Z (- z)%Z))
  else PrimFloat.of_uint63 (Uint63.of_Z z).

(** [Math.floor(x)] for a finite [x]. *)
Definition floor (x : float) : Z :=
  match Prim2SF x with
  | S754_finite sign mantissa exponent =>
      let n := if sign then Z.neg mantissa else Z.pos mantissa in
      (if 0 <=? exponent then n * 2 ^ exponent else n / 2 ^ (- exponent))%Z
  | _ => 0%Z
  end.

(** [formatDuration] on a number of milliseconds that need not be whole:
    the comparison and the division by 1000 are those of doubles. *)
Definition formatDurationNumber (ms : float) : string :=
  let ms := if PrimFloat.ltb ms 0%float then 0%float else ms in
  let totalSeconds := floor (PrimFloat.div ms 1000%float) in
  let h := (totalSeconds / 3600)%Z in
  let m := ((totalSeconds mod 3600) / 60)%Z in
  let s := (totalSeconds mod 60)%Z in
  pad h ++ ":" ++ pad m ++ ":" ++ pad s.

(** ** Data model *)

(** A cell of a decoded sheet. *)
Inductive cell : Type :=
| CDate (d : Date)
| CString (s : string)
| CNumber (q : Q)
| CBool (b : bool).

(** A decoded row: header/cell entries in [Object.keys] order.  The keys
    of an object are distinct, so [row[key]] is the cell of the entry. *)
Definition row : Type := list (string * cell).

Record RawRecord : Type := mkRawRecord {
  Pessoa : string;
  DataHora : Date;
  Grupo : string;
  OriginalRow : row
}.

Record ProcessingConfig : Type := mkConfig {
  shiftThresholdHours : Q;
  lunchMinDuration : Q;
  lunchMaxDuration : Q;
  defaultLunchDuration : Q
}.

Definition DEFAULT_CONFIG : ProcessingConfig :=
  {| shiftThresholdHours := 8;
     lunchMinDuration := 45;
     lunchMaxDuration := 75;
     defaultLunchDuration := 60 |}.

Inductive LunchType : Type := NONE | NORMAL | ARTIFICIAL | EXTENDED_CAPPED.

(** [workedMs] is the local of that name in [calculateSingleShift] (the
    span, on the early return): the value that [workedHours] and
    [workedTimeStr] are computed from. *)
Record ProcessedShift : Type := mkShift {
  id : string;
  person : string;
  date : string;
  startTime : Date;
  endTime : Date;
  lunchStart : option Date;
  lunchEnd : option Date;
  workedMs : Z;
  workedHours : Q;
  workedTimeStr : string;
  lunchType : LunchType;
  warnings : list string
}.

(** [durationMs] is the local of that name in [finalizeShift], after the
    break has been subtracted: the value that [horaTotal] formats. *)
Record DailyWorkerRecord : Type := mkDaily {
  dw_id : string;
  nome : string;
  cpf : string;
  data : string;
  chegada : Date;
  saida : Date;
  durationMs : float;
  horaTotal : string;
  categoria : string;
  grupo : string
}.

Record Gap : Type := mkGap {
  gstart : Date;
  gend : Date;
  durationMinutes : Q
}.

(** ** Step 1: normalisation *)

Section Normalizer.

Context {strings : StringMethods}.
Variable tz : Z.
(** [String(v)] on a cell that is not a string. *)
Variable showCell : cell -> string.
(** [new Date(s)]: [None] when the result is an invalid date. *)
Variable parseDate : string -> option Date.

Definition String_ (v : cell) : string :=
  match v with
  | CString s => s
  | _ => showCell v
  end.

Definition isPersonHeader (k : string) : bool :=
  let header := toLowerCase k in
  includes header "pessoa" || includes header "nome"
  || includes header "funcionario" || includes header "empregado".

Definition isGroupHeader (k : string) : bool :=
  includes (toLowerCase k) "grupo" || includes (toLowerCase k) "depto".

Definition isSummaryHeader (key : string) : bool :=
  let headerLower := toLowerCase key in
  includes headerLower "total" || includes headerLower "saldo"
  || includes headerLower "banco" || includes headerLower "horas"
  || includes headerLower "hrs" || includes headerLower "trab"
  || includes headerLower "obs".

(** The date read from a cell, if any. *)
Definition cellDate (val : cell) : option Date :=
  match val with
  | CDate d => Some d
  | CString s => if (8 <? String.length s)%nat then parseDate s else None
  | _ => None
  end.

Definition isMidnight (dateVal : Date) : bool :=
  ((getHours tz dateVal =? 0) && (getMinutes tz dateVal =? 0)
   && (getSeconds tz dateVal =? 0))%Z.

Definition isInvalidYear (dateVal : Date) : bool :=
  (getFullYear tz dateVal <? 2020)%Z.

(** The body of [keys.forEach] for one column of a row. *)
Definition scanCell (r : row) (personKey : string) (groupKey : option string)
    (personName group : string) (entry : string * cell) : list RawRecord :=
  let (key, val) := entry in
  if String.eqb key personKey
     || match groupKey with Some g => String.eqb key g | None => false end
  then []
  else if isSummaryHeader key then []
  else match cellDate val with
       | Some dateVal =>
           if negb (isMidnight dateVal) && negb (isInvalidYear dateVal)
           then [ {| Pessoa := personName; DataHora := dateVal;
                     Grupo := group; OriginalRow := r |} ]
           else []
       | None => []
       end.

(** The body of [jsonData.forEach] for one row. *)
Definition scanRow (r : row) : list RawRecord :=
  match find (fun e => isPersonHeader (fst e)) r with
  | None => []
  | Some (personKey, personCell) =>
      let personName := trim (String_ personCell) in
      if String.eqb personName EmptyString then []
      else
        let groupEntry := find (fun e => isGroupHeader (fst e)) r in
        let groupKey := option_map fst groupEntry in
        let group :=
          match groupEntry with
          | Some (_, g) => trim (String_ g)
          | None => "Default"
          end in
        flat_map (scanCell r personKey groupKey personName group) r
  end.

(** Person, then date and time. *)
Definition compareRecords (a b : RawRecord) : Q :=
  if String.ltb (Pessoa a) (Pessoa b) then (-1)%Q
  else if String.ltb (Pessoa b) (Pessoa a) then 1%Q
  else inject_Z (DataHora a - DataHora b).

Definition parseRawData (jsonData : list row) : list RawRecord :=
  let records := flat_map scanRow jsonData in
  jsSort compareRecords records.

End Normalizer.

(** ** Step 1 on any [Date] object

    [val instanceof Date] (line 402) holds of every [Date] object, also of
    the Invalid Date, whose time value is [NaN].  The definitions above
    read the sheets whose [Date] cells are valid; the ones of this module
    read any sheet, with the same statements.  A number that may be [NaN]
    is an [option], [None] for [NaN]. *)

Module AnyDate.

Inductive DateObject : Type :=
| ValidDate (t : Date)
| InvalidDate.

Inductive cell : Type :=
| CDate (d : DateObject)
| CString (s : string)
| CNumber (q : Q)
| CBool (b : bool).

Definition row : Type := list (string * cell).

Record RawRecord : Type := mkRawRecord {
  Pessoa : string;
  DataHora : DateObject;
  Grupo : string;
  OriginalRow : row
}.

(** A local-time accessor on a [Date] object: [NaN] on the Invalid Date. *)
Definition accessor (get : Date -> Z) (d : DateObject) : option Z :=
  match d with
  | ValidDate t => Some (get t)
  | InvalidDate => None
  end.

(** [x === n] and [x < n] for a whole number [n]: false when [x] is [NaN]. *)
Definition strictEquals (x : option Z) (n : Z) : bool :=
  match x with
  | Some v => (v =? n)%Z
  | None => false
  end.

Definition lessThan (x : option Z) (n : Z) : bool :=
  match x with
  | Some v => (v <? n)%Z
  | None => false
  end.

Section Normalizer.

Context {strings : StringMethods}.
Variable tz : Z.
(** [String(v)] on a cell that is not a string. *)
Variable showCell : cell -> string.
(** [new Date(s)]: [None] when the result is an invalid date. *)
Variable parseDate : string -> option Date.

Definition String_ (v : cell) : string :=
  match v with
  | CString s => s
  | _ => showCell v
  end.

(** The date read from a cell, if any: a [Date] object as it is, a string
    only when it parses to a valid date. *)
Definition cellDate (val : cell) : option DateObject :=
  match val with
  | CDate d => Some d
  | CString s =>
      if (8 <? String.length s)%nat
      then option_map ValidDate (parseDate s)
      else None
  | _ => None
  end.

Definition isMidnight (dateVal : DateObject) : bool :=
  strictEquals (accessor (getHours tz) dateVal) 0
  && strictEquals (accessor (getMinutes tz) dateVal) 0
  && strictEquals (accessor (getSeconds tz) dateVal) 0.

Definition isInvalidYear (dateVal : DateObject) : bool :=
  lessThan (accessor (getFullYear tz) dateVal) 2020.

(** The body of [keys.forEach] for one column of a row. *)
Definition scanCell (r : row) (personKey : string) (groupKey : option string)
    (personName group : string) (entry : string * cell) : list RawRecord :=
  let (key, val) := entry in
  if String.eqb key personKey
     || match groupKey with Some g => String.eqb key g | None => false end
  then []
  else if isSummaryHeader key then []
  else match cellDate val with
       | Some dateVal =>
           if negb (isMidnight dateVal) && negb (isInvalidYear dateVal)
           then [ {| Pessoa := personName; DataHora := dateVal;
                     Grupo := group; OriginalRow := r |} ]
           else []
       | None => []
       end.

(** The body of [jsonData.forEach] for one row. *)
Definition scanRow (r : row) : list RawRecord :=
  match find (fun e => isPersonHeader (fst e)) r with
  | None => []
  | Some (personKey, personCell) =>
      let personName := trim (String_ personCell) in
      if String.eqb personName EmptyString then []
      else
        let groupEntry := find (fun e => isGroupHeader (fst e)) r in
        let groupKey := option_map fst groupEntry in
        let group :=
          match groupEntry with
          | Some (_, g) => trim (String_ g)
          | None => "Default"
          end in
        flat_map (scanCell r personKey groupKey personName group) r
  end.

(** The array [records] of [parseRawData] when the rows have been read
    (lines 360 to 432), which the sort of lines 436 to 440 permutes. *)
Definition records (jsonData : list row) : list RawRecord :=
  flat_map scanRow jsonData.

End Normalizer.

End AnyDate.

(** A sheet whose [Date] cells are valid, as a sheet of any cells. *)
Definition anyCell (v : cell) : AnyDate.cell :=
  match v with
  | CDate d => AnyDate.CDate (AnyDate.ValidDate d)
  | CString s => AnyDate.CString s
  | CNumber q => AnyDate.CNumber q
  | CBool b => AnyDate.CBool b
  end.

Definition anyRow (r : row) : AnyDate.row :=
  map (fun e => (fst e, anyCell (snd e))) r.

Definition anyRecord (rec : RawRecord) : AnyDate.RawRecord :=
  {| AnyDate.Pessoa := Pessoa rec;
     AnyDate.DataHora := AnyDate.ValidDate (DataHora rec);
     AnyDate.Grupo := Grupo rec;
     AnyDate.OriginalRow := anyRow (OriginalRow rec) |}.

Local Close Scope string_scope.

(** ** Grouping by person

    The [Map] keeps its keys in insertion order. *)

Fixpoint pushGroup (r : RawRecord) (groups : list (string * list RawRecord))
  : list (string * list RawRecord) :=
  match groups with
  | [] => [(Pessoa r, [r])]
  | (k, l) :: rest =>
      if String.eqb k (Pessoa r) then (k, l ++ [r]) :: rest
      else (k, l) :: pushGroup r rest
  end.

Definition groupByPerson (records : list RawRecord)
  : list (string * list RawRecord) :=
  fold_left (fun groups r => pushGroup r groups) records [].

(** ** Gaps between consecutive punches *)

Definition hoursBetween (later earlier : Date) : Q :=
  (inject_Z (later - earlier) / inject_Z msPerHour)%Q.

Fixpoint findGaps (punches : list Date) : list Gap :=
  match punches with
  | gStart :: (gEnd :: _) as rest =>
      let diffMin := (inject_Z (gEnd - gStart) / 60000)%Q in
      {| gstart := gStart; gend := gEnd; durationMinutes := diffMin |}
        :: findGaps rest
  | _ => []
  end.

(** The field [durationMinutes] of a gap of [findGaps] as the double that
    the code stores in it: the difference of the two time values, divided
    by [1000 * 60]. *)
Definition minutesNumber (g : Gap) : float :=
  (Number (gend g - gstart g) / Number (1000 * 60))%float.

Definition durationWithin (lo hi : Q) (g : Gap) : bool :=
  Qle_bool lo (durationMinutes g) && Qle_bool (durationMinutes g) hi.

(** The rational that a finite double is. *)
Definition exactValue (x : float) : Q :=
  match Prim2SF x with
  | S754_finite sign mantissa exponent =>
      (inject_Z (if sign then Z.neg mantissa else Z.pos mantissa)
       * Qpower 2 exponent)%Q
  | _ => 0%Q
  end.

(** [parseFloat(x.toFixed(2))] for a finite [x] below [1e21]: the nearest
    multiple of a hundredth to the double [x], the larger one of two, after
    the sign has been set aside. *)
Definition toFixed2 (x : float) : Q :=
  let nearest (v : Q) := (inject_Z (Qfloor (v * 100 + (1 # 2))%Q) / 100)%Q in
  let v := exactValue x in
  if Qle_bool 0 v then nearest v else (- nearest (- v))%Q.

(** The test of both segmentation loops: the punch stays in the current
    shift when its distance to the last punch is within the threshold and
    its distance to the first punch is within the maximum duration. *)
Definition staysInShift (thresholdHours maxHours : Q)
    (firstPunchInShift lastPunch punch : Date) : bool :=
  let diffHours := hoursBetween punch lastPunch in
  let totalDurationHours := hoursBetween punch firstPunchInShift in
  Qle_bool diffHours thresholdHours && Qle_bool totalDurationHours maxHours.

(** [Math.max(g.start, windowStart) < Math.min(g.end, windowEnd)] *)
Definition overlapsWindow (windowStart windowEnd : Date) (g : Gap) : bool :=
  let overlapStart := Z.max (gstart g) windowStart in
  let overlapEnd := Z.min (gend g) windowEnd in
  overlapStart <? overlapEnd.

(** [g.start >= windowStart && g.end <= windowEnd] *)
Definition insideWindowB (windowStart windowEnd : Date) (g : Gap) : bool :=
  (gstart g >=? windowStart) && (gend g <=? windowEnd).

(** Comparator of the fallback: distance of the gap's middle to the middle
    of the window. *)
Definition compareMidpoints (windowStart windowEnd : Date) (a b : Gap) : Q :=
  let windowMid := ((inject_Z windowStart + inject_Z windowEnd) / 2)%Q in
  let midA := (inject_Z (gstart a) + durationMinutes a * 60 * 1000 / 2)%Q in
  let midB := (inject_Z (gstart b) + durationMinutes b * 60 * 1000 / 2)%Q in
  (Qabs (midA - windowMid) - Qabs (midB - windowMid))%Q.

(** The value of [standardLunch] after the analysis of the valid gaps. *)
Definition selectStandardLunch (windowStart windowEnd : Date)
    (validGaps : list Gap) : option Gap :=
  match validGaps with
  | [] => None
  | [g] => Some g
  | _ :: _ :: _ =>
      let insideWindow := filter (insideWindowB windowStart windowEnd) validGaps in
      match insideWindow with
      | g :: _ => Some g
      | [] => hd_error (jsSort (compareMidpoints windowStart windowEnd) validGaps)
      end
  end.

(** A result of [Math.random()]: a number that is at least 0 and less
    than 1. *)
Record Random01 : Type := mkRandom01 {
  rvalue : Q;
  rvalue_range : Qle_bool 0 rvalue && negb (Qle_bool 1 rvalue) = true
}.

(** ** Step 3: one shift, and step 2: the shifts of every person *)

Section Engine.

Context {strings : StringMethods}.
Variable tz : Z.
(** The successive results of [Math.random()]. *)
Variable random : nat -> Random01.
Variable showCell : cell -> string.

(** Computations that draw random numbers and may throw: the state is
    the number of draws made so far, [None] is an uncaught exception. *)
Definition M (A : Type) : Type := nat -> option (A * nat).

Definition ret {A} (a : A) : M A := fun i => Some (a, i).

Definition bind {A B} (c : M A) (k : A -> M B) : M B :=
  fun i => match c i with
           | Some (a, j) => k a j
           | None => None
           end.

Definition throwTypeError {A} : M A := fun _ => None.

Definition mathRandom : M Q := fun i => Some (rvalue (random i), S i).

Notation "x <- c ;; k" := (bind c (fun x => k))
  (at level 61, c at next level, right associativity).

Fixpoint forEachM {S X} (step : S -> X -> M S) (l : list X) (s : S) : M S :=
  match l with
  | [] => ret s
  | x :: l' => s' <- step s x ;; forEachM step l' s'
  end.

(** The early return of [calculateSingleShift]. *)
Definition incompleteShift (person : string) (start end_ : Date) : ProcessedShift :=
  let shiftDurationMs := end_ - start in
  {| id := (person ++ "-" ++ toStringZ start)%string;
     person := person;
     date := formatDateOnly tz start;
     startTime := start;
     endTime := end_;
     lunchStart := None;
     lunchEnd := None;
     workedMs := shiftDurationMs;
     workedHours := (inject_Z shiftDurationMs / (1000 * 60 * 60))%Q;
     workedTimeStr := formatDuration (inject_Z shiftDurationMs);
     lunchType := NONE;
     warnings := ["Turno com registro único ou muito curto"%string] |}.

(** The end of [calculateSingleShift]: worked time and the record. *)
Definition completeShift (person : string) (start end_ : Date)
    (lunchStart lunchEnd : option Date) (lunchType : LunchType) : ProcessedShift :=
  let workedMs :=
    match lunchStart, lunchEnd with
    | Some ls, Some le =>
        let firstPart := ls - start in
        let secondPart := end_ - le in
        firstPart + secondPart
    | _, _ => end_ - start
    end in
  let workedMs := if workedMs <? 0 then 0 else workedMs in
  {| id := (person ++ "-" ++ toStringZ start)%string;
     person := person;
     date := formatDateOnly tz start;
     startTime := start;
     endTime := end_;
     lunchStart := lunchStart;
     lunchEnd := lunchEnd;
     workedMs := workedMs;
     workedHours := toFixed2 (Number workedMs / Number (1000 * 60 * 60))%float;
     workedTimeStr := formatDuration (inject_Z workedMs);
     lunchType := lunchType;
     warnings := [] |}.

(** The artificial lunch: the bounds of the break, when it fits. *)
Definition artificialLunch (start end_ windowStart windowEnd : Date)
  : M (option (Date * Date)) :=
  r <- mathRandom ;;
  let artificialMin := 60 + Qfloor (r * 6)%Q in
  let artificialMs := artificialMin * 60 * 1000 in
  let safeShiftStart := start + 15 * 60000 in
  let safeShiftEnd := end_ - 15 * 60000 in
  let validPeriodStart := Z.max safeShiftStart windowStart in
  let validPeriodEnd := Z.min safeShiftEnd windowEnd in
  let availableTime := validPeriodEnd - validPeriodStart in
  if availableTime >=? artificialMs then
    r' <- mathRandom ;;
    let maxOffset := availableTime - artificialMs in
    let randomOffset := Qfloor (r' * inject_Z maxOffset)%Q in
    let lunchStart := validPeriodStart + randomOffset in
    let lunchEnd := lunchStart + artificialMs in
    ret (Some (lunchStart, lunchEnd))
  else ret None.

(** Step 3: Individual shift calculation (lunch logic).  On an empty
    array [punches[0]] is [undefined] and [start.getTime()] throws. *)
Definition calculateSingleShift (person : string) (punches : list Date)
    (config : ProcessingConfig) : M ProcessedShift :=
  match punches with
  | [] => throwTypeError
  | start :: _ =>
      let end_ := last punches start in
      let shiftDurationMs := end_ - start in
      if (List.length punches <? 2)%nat || (shiftDurationMs <? 1000 * 60 * 60) then
        ret (incompleteShift person start end_)
      else
        let gaps := findGaps punches in
        let (windowStart, windowEnd) := getLunchWindow tz start in
        let validGaps :=
          filter (durationWithin (lunchMinDuration config)
                                 (lunchMaxDuration config)) gaps in
        match selectStandardLunch windowStart windowEnd validGaps with
        | Some standardLunch =>
            ret (completeShift person start end_
                   (Some (gstart standardLunch)) (Some (gend standardLunch))
                   NORMAL)
        | None =>
            placed <- artificialLunch start end_ windowStart windowEnd ;;
            match placed with
            | Some (lunchStart, lunchEnd) =>
                ret (completeShift person start end_
                       (Some lunchStart) (Some lunchEnd) ARTIFICIAL)
            | None => ret (completeShift person start end_ None None NONE)
            end
        end
  end.

(** The [for] loop of [processRecords] over the records of one person;
    the state is [currentShiftPunches] and [shifts]. *)
Fixpoint shiftLoop (config : ProcessingConfig) (personName : string)
    (personRecords : list RawRecord) (currentShiftPunches : list Date)
    (shifts : list ProcessedShift) : M (list Date * list ProcessedShift) :=
  match personRecords with
  | [] => ret (currentShiftPunches, shifts)
  | record :: rest =>
      let punch := DataHora record in
      match currentShiftPunches with
      | [] => shiftLoop config personName rest [punch] shifts
      | firstPunchInShift :: _ =>
          let lastPunch := last currentShiftPunches firstPunchInShift in
          if staysInShift (shiftThresholdHours config) 18
               firstPunchInShift lastPunch punch
          then shiftLoop config personName rest
                 (currentShiftPunches ++ [punch]) shifts
          else
            shift <- calculateSingleShift personName currentShiftPunches config ;;
            shiftLoop config personName rest [punch] (shifts ++ [shift])
      end
  end.

Definition processPerson (config : ProcessingConfig)
    (shifts : list ProcessedShift) (entry : string * list RawRecord)
  : M (list ProcessedShift) :=
  let (personName, personRecords) := entry in
  if (List.length personRecords =? 0)%nat then ret shifts
  else
    st <- shiftLoop config personName personRecords [] shifts ;;
    let (currentShiftPunches, shifts) := st in
    if (0 <? List.length currentShiftPunches)%nat then
      shift <- calculateSingleShift personName currentShiftPunches config ;;
      ret (shifts ++ [shift])
    else ret shifts.

(** Person, then date. *)
Definition compareShifts (a b : ProcessedShift) : Q :=
  if String.ltb (person a) (person b) then (-1)%Q
  else if String.ltb (person b) (person a) then 1%Q
  else inject_Z (startTime a - startTime b).

(** Step 2: Group and calculate logic *)
Definition processRecords (records : list RawRecord)
    (config : ProcessingConfig) : M (list ProcessedShift) :=
  let groupedByPerson := groupByPerson records in
  shifts <- forEachM (processPerson config) groupedByPerson [] ;;
  ret (jsSort compareShifts shifts).

(** ** Daily worker analysis *)

Definition THRESHOLD_HOURS : Q := 12.
Definition MAX_SHIFT_DURATION_HOURS : Q := 16.

(** The value of [validGap] in [finalizeShift]. *)
Definition dailyValidGap (punches : list RawRecord) (start : Date) : option Gap :=
  let punchDates := map DataHora punches in
  let gaps := findGaps punchDates in
  let (windowStart, windowEnd) := getLunchWindow tz start in
  find (fun g =>
          let isDurationValid := durationWithin 45 75 g in
          if negb isDurationValid then false
          else overlapsWindow windowStart windowEnd g) gaps.

Definition findVal (originalRow : row) (keywords : list string) : string :=
  match find (fun e => includesAny (toLowerCase (fst e)) keywords) originalRow with
  | Some (_, v) => trim (String_ showCell v)
  | None => EmptyString
  end.

Definition finalizeShift (personName : string) (punches : list RawRecord)
    (output : list DailyWorkerRecord) : list DailyWorkerRecord :=
  match punches with
  | [] => output
  | firstRecord :: _ =>
      let lastRecord := last punches firstRecord in
      let start := DataHora firstRecord in
      let end_ := DataHora lastRecord in
      let durationMs := Number (end_ - start) in
      let durationMs :=
        match dailyValidGap punches start with
        | Some validGap =>
            let breakMs := (minutesNumber validGap * 60 * 1000)%float in
            (durationMs - breakMs)%float
        | None => durationMs
        end in
      let originalRow := OriginalRow firstRecord in
      let cpf := findVal originalRow ["cpf"; "documento"]%string in
      let categoria :=
        findVal originalRow ["categoria"; "função"; "funcao"; "cargo"]%string in
      let grupo :=
        if negb (String.eqb (Grupo firstRecord) EmptyString)
           && negb (String.eqb (Grupo firstRecord) "Default")
        then Grupo firstRecord
        else findVal originalRow
               ["grupo"; "depto"; "departamento"; "setor"]%string in
      output ++
      [ {| dw_id := (personName ++ "-" ++ toStringZ start)%string;
           nome := personName;
           cpf := cpf;
           data := formatDateOnly tz start;
           chegada := start;
           saida := end_;
           durationMs := durationMs;
           horaTotal := formatDurationNumber durationMs;
           categoria := categoria;
           grupo := grupo |} ]
  end.

(** The [for] loop of [calculateDailyWorkers] over one person. *)
Fixpoint dailyLoop (personName : string) (personRecords : list RawRecord)
    (currentShiftPunches : list RawRecord) (output : list DailyWorkerRecord)
  : list RawRecord * list DailyWorkerRecord :=
  match personRecords with
  | [] => (currentShiftPunches, output)
  | record :: rest =>
      match currentShiftPunches with
      | [] => dailyLoop personName rest [record] output
      | firstInShift :: _ =>
          let lastRecord := last currentShiftPunches firstInShift in
          if staysInShift THRESHOLD_HOURS MAX_SHIFT_DURATION_HOURS
               (DataHora firstInShift) (DataHora lastRecord) (DataHora record)
          then dailyLoop personName rest (currentShiftPunches ++ [record]) output
          else dailyLoop personName rest [record]
                 (finalizeShift personName currentShiftPunches output)
      end
  end.

Definition compareChronological (a b : RawRecord) : Q :=
  inject_Z (DataHora a - DataHora b).

Definition dailyPerson (output : list DailyWorkerRecord)
    (entry : string * list RawRecord) : list DailyWorkerRecord :=
  let (personName, personRecords) := entry in
  let personRecords := jsSort compareChronological personRecords in
  let (currentShiftPunches, output) :=
    dailyLoop personName personRecords [] output in
  finalizeShift personName currentShiftPunches output.

(** Name, then date. *)
Definition compareDaily (a b : DailyWorkerRecord) : Q :=
  if String.ltb (nome a) (nome b) then (-1)%Q
  else if String.ltb (nome b) (nome a) then 1%Q
  else inject_Z (chegada a - chegada b).

Definition calculateDailyWorkers (records : list RawRecord)
  : list DailyWorkerRecord :=
  let groupedByPerson := groupByPerson records in
  let output := fold_left dailyPerson groupedByPerson [] in
  jsSort compareDaily output.

End Engine.

Arguments ret {A} a _.
Arguments bind {A B} c k _.
Arguments throwTypeError {A} _.

(** The body of the [onload] handlers, after the sheet has been decoded. *)
Definition processTimesheet {strings : StringMethods} (tz : Z) (random : nat -> Random01)
    (showCell : cell -> string) (parseDate : string -> option Date)
    (jsonData : list row) (config : ProcessingConfig) : M (list ProcessedShift) :=
  let rawRecords := parseRawData tz showCell parseDate jsonData in
  processRecords tz random rawRecords config.

Definition processDailyWorkers {strings : StringMethods} (tz : Z)
    (showCell : cell -> string) (parseDate : string -> option Date)
    (jsonData : list row) : list DailyWorkerRecord :=
  let rawRecords := parseRawData tz showCell parseDate jsonData in
  calculateDailyWorkers tz showCell rawRecords.

(** ** Definitions used in the statements *)

(** The completed shifts of a scan, as lists of punches: what both
    segmentation loops hand over, in order, once the trailing shift has
    been finalised. *)
Section Segments.
Context {A : Type} (time : A -> Date) (thresholdHours maxHours : Q).

Fixpoint segments (items : list A) (current : list A) : list (list A) :=
  match items with
  | [] => match current with [] => [] | _ => [current] end
  | x :: rest =>
      match current with
      | [] => segments rest [x]
      | first :: _ =>
          if staysInShift thresholdHours maxHours
               (time first) (time (last current first)) (time x)
          then segments rest (current ++ [x])
          else current :: segments rest [x]
      end
  end.
End Segments.

(** The order that a comparator decides: [a] may stay in front of [b]. *)
Definition cmpLe {A : Type} (compareFn : A -> A -> Q) (a b : A) : Prop :=
  (compareFn a b <= 0)%Q.

(** Person, then time: the order of the punch stream. *)
Definition recordLe (a b : RawRecord) : Prop :=
  String.ltb (Pessoa a) (Pessoa b) = true \/
  (Pessoa a = Pessoa b /\ DataHora a <= DataHora b).

(** First-to-last span of a list of punches, in milliseconds. *)
Definition spanMs (punches : list Date) : Z :=
  match punches with
  | [] => 0
  | first :: _ => last punches first - first
  end.

Definition timeSorted (punches : list Date) : Prop :=
  StronglySorted Z.le punches.

(** A gap whose duration qualifies it as a break. *)
Definition qualifies (lo hi : Q) (g : Gap) : Prop :=
  (lo <= durationMinutes g /\ durationMinutes g <= hi)%Q.


Definition inside (w : Date * Date) (g : Gap) : Prop :=
  fst w <= gstart g /\ gend g <= snd w.

(** Steps 1 to 3 of the break search of [calculateSingleShift]: the bounds
    of the standard lunch, when the shift is long enough and one is found. *)
Definition isShortShift (punches : list Date) : bool :=
  (List.length punches <? 2)%nat || (spanMs punches <? 1000 * 60 * 60).

Definition standardLunchBounds (tz : Z) (config : ProcessingConfig)
    (punches : list Date) : option (Date * Date) :=
  match punches with
  | [] => None
  | start :: _ =>
      if isShortShift punches then None
      else
        let (windowStart, windowEnd) := getLunchWindow tz start in
        option_map (fun g => (gstart g, gend g))
          (selectStandardLunch windowStart windowEnd
             (filter (durationWithin (lunchMinDuration config)
                                     (lunchMaxDuration config))
                     (findGaps punches)))
  end.




(** A local wall-clock reading: calendar day number and time of day. *)
Definition atClock (tz : Z) (d : Date) (day hh mm : Z) : Prop :=
  localDay tz d = day /\ msOfDay tz d = hh * msPerHour + mm * msPerMinute.

(** What holds of the groups once the records of [seen] have been added. *)
Definition groupsOf (seen : list RawRecord)
    (groups : list (string * list RawRecord)) : Prop :=
  forall k l, In (k, l) groups ->
    l <> [] /\
    Forall (fun r => Pessoa r = k /\ In r seen) l /\
    StronglySorted (fun a b => DataHora a <= DataHora b) l.

(** The first-to-last distance of the shift is within the maximum. *)
Definition withinCap {A : Type} (time : A -> Date) (maxHours : Q) (l : list A)
  : Prop :=
  match l with
  | [] => True
  | first :: _ => (hoursBetween (time (last l first)) (time first) <= maxHours)%Q
  end.

(** One finalisation of the full-detail mode. *)
Definition pushShift (tz : Z) (random : nat -> Random01)
    (config : ProcessingConfig) (personName : string)
    (shifts : list ProcessedShift) (punches : list Date)
  : M (list ProcessedShift) :=
  bind (calculateSingleShift tz random personName punches config)
       (fun shift => ret (shifts ++ [shift])).

(** The shift is the result of the calculation on these punches. *)
Definition calculatedFrom (tz : Z) (random : nat -> Random01)
    (config : ProcessingConfig) (person : string) (punches : list Date)
    (shift : ProcessedShift) : Prop :=
  exists i j,
    calculateSingleShift tz random person punches config i = Some (shift, j).

(** The shift comes from one segment of the punches of one person. *)
Definition segmentOf (tz : Z) (random : nat -> Random01)
    (config : ProcessingConfig) (groups : list (string * list RawRecord))
    (shift : ProcessedShift) : Prop :=
  exists personName personRecords punches,
    In (personName, personRecords) groups /\
    In punches (segments (fun d => d) (shiftThresholdHours config) 18
                         (map DataHora personRecords) []) /\
    calculatedFrom tz random config personName punches shift.

(** Length of the artificial break for a draw, in milliseconds. *)
Definition artificialMsOf (r : Random01) : Z :=
  (60 + Qfloor (rvalue r * 6)) * 60 * 1000.

(** The interval invariant of a shift. *)
Definition intervalInvariant (shift : ProcessedShift) : Prop :=
  startTime shift <= endTime shift /\
  (lunchType shift <> NONE ->
   exists ls le,
     lunchStart shift = Some ls /\ lunchEnd shift = Some le /\
     startTime shift <= ls /\ ls < le /\ le <= endTime shift).

(** The record is the one that [finalizeShift] makes of these punches. *)
Definition recordOf {strings : StringMethods} (tz : Z) (showCell : cell -> string)
    (personName : string) (punches : list RawRecord)
    (record : DailyWorkerRecord) : Prop :=
  punches <> [] /\
  finalizeShift tz showCell personName punches [] = [record].

(** The record comes from one segment of the punches of one person. *)
Definition dailySegmentOf {strings : StringMethods} (tz : Z) (showCell : cell -> string)
    (groups : list (string * list RawRecord))
    (record : DailyWorkerRecord) : Prop :=
  exists personName personRecords punches,
    In (personName, personRecords) groups /\
    In punches (segments DataHora THRESHOLD_HOURS MAX_SHIFT_DURATION_HOURS
                         (jsSort compareChronological personRecords) []) /\
    recordOf tz showCell personName punches record.

(** ** Exports: short shifts to the bottom, one sheet per turn *)

(** Shifts with workedHours <= 1 are pushed to the bottom. *)
Definition isShortWorked (shift : ProcessedShift) : bool :=
  Qle_bool (workedHours shift) 1.

Definition sortShortShiftsToBottom (a b : ProcessedShift) : Q :=
  let isAShort := isShortWorked a in
  let isBShort := isShortWorked b in
  if isAShort && negb isBShort then 1%Q
  else if negb isAShort && isBShort then (-1)%Q
  else 0%Q.

(** The three arrays of [exportShiftsByCategory] and of
    [getCategorizedData]. *)
Record Turns : Type := mkTurns {
  morning : list ProcessedShift;
  afternoon : list ProcessedShift;
  night : list ProcessedShift
}.

(** The body of [data.forEach] in both functions. *)
Definition pushTurn (tz : Z) (turns : Turns) (shift : ProcessedShift) : Turns :=
  let startHour := getHours tz (startTime shift) in
  if (startHour >=? 5) && (startHour <? 13) then
    {| morning := morning turns ++ [shift]; afternoon := afternoon turns;
       night := night turns |}
  else if (startHour >=? 13) && (startHour <? 18) then
    {| morning := morning turns; afternoon := afternoon turns ++ [shift];
       night := night turns |}
  else
    {| morning := morning turns; afternoon := afternoon turns;
       night := night turns ++ [shift] |}.

(** [getCategorizedData] of the turn-separation view. *)
Definition getCategorizedData (tz : Z) (data : list ProcessedShift) : Turns :=
  fold_left (pushTurn tz) data {| morning := []; afternoon := []; night := [] |}.

(** The arrays of [exportShiftsByCategory] when the sheets are made:
    separated, then sorted with the short shifts at the bottom. *)
Definition exportShiftsByCategory (tz : Z) (data : list ProcessedShift) : Turns :=
  let turns :=
    fold_left (pushTurn tz) data
              {| morning := []; afternoon := []; night := [] |} in
  {| morning := jsSort sortShortShiftsToBottom (morning turns);
     afternoon := jsSort sortShortShiftsToBottom (afternoon turns);
     night := jsSort sortShortShiftsToBottom (night turns) |}.

(** The rows of [exportSingleSheet], in order. *)
Definition exportSingleSheet (data : list ProcessedShift) : list ProcessedShift :=
  let sortedData := jsSort sortShortShiftsToBottom data in
  sortedData.

(** ** Cross-check of two files *)

Section Intersection.

Context {strings : StringMethods}.
Variable showCell : cell -> string.










End Intersection.

(** ** Merge of several files *)

(** [mergeFiles], after the files are read: [None] is the error thrown when
    no row is found. *)
Definition mergeFiles (results : list (list row)) : option (list row * nat) :=
  let allRows :=
    fold_left (fun allRows rows =>
                 fold_left (fun allRows r => allRows ++ [r]) rows allRows)
              results [] in
  if (List.length allRows =? 0)%nat then None
  else Some (allRows, List.length allRows).

(** The list of selected files of the merge view: [handleFileSelect] keeps
    at most five, [removeFile] drops the one at an index. *)
Section FileList.
Context {File : Type}.

Definition handleFileSelect (prev newFiles : list File) : list File :=
  match newFiles with
  | [] => prev
  | _ =>
      let combined := prev ++ newFiles in
      if (5 <? List.length combined)%nat then firstn 5 combined else combined
  end.

Fixpoint removeAt (index : nat) (l : list File) : list File :=
  match l with
  | [] => []
  | x :: l' =>
      match index with
      | O => l'
      | S n => x :: removeAt n l'
      end
  end.

(** [prev.filter((_, i) => i !== index)] *)
Definition removeFile (index : nat) (prev : list File) : list File :=
  removeAt index prev.

(** [setFiles([mergedFile])] of [handleContinueMerging] *)
Definition handleContinueMerging (mergedFile : File) : list File := [mergedFile].

(** The events of the view that change the list: the four places where
    [setFiles] is called. *)
Inductive FileAction : Type :=
| Select (newFiles : list File)
| Remove (index : nat)
| ContinueMerging (mergedFile : File)
| StartOver.

Definition applyAction (files : list File) (a : FileAction) : list File :=
  match a with
  | Select newFiles => handleFileSelect files newFiles
  | Remove index => removeFile index files
  | ContinueMerging mergedFile => handleContinueMerging mergedFile
  | StartOver => []
  end.

(** The list after a sequence of events, from the initial [useState([])]. *)
Definition filesAfter (actions : list FileAction) : list File :=
  fold_left applyAction actions [].
End FileList.

(** ** Further definitions used in the statements *)

(** Name, then time: the order that the three comparators of the file
    decide, for any record with a name and a time. *)
Definition nameTimeLe {A : Type} (name : A -> string) (time : A -> Date)
    (a b : A) : Prop :=
  String.ltb (name a) (name b) = true \/
  (name a = name b /\ time a <= time b).

(** The group that [scanRow] gives to the punches of a row. *)
Definition groupOfRow {strings : StringMethods} (showCell : cell -> string) (r : row) : string :=
  match find (fun e => isGroupHeader (fst e)) r with
  | Some (_, g) => trim (String_ showCell g)
  | None => "Default"%string
  end.

(** The three turns of the export. *)
Inductive Turn : Type := Morning | Afternoon | Night.

(** The turn of a shift, by the hour of its start: 05:00 - 12:59,
    13:00 - 17:59, 18:00 - 04:59. *)
Definition turnOf (tz : Z) (shift : ProcessedShift) : Turn :=
  let startHour := getHours tz (startTime shift) in
  if (5 <=? startHour) && (startHour <=? 12) then Morning
  else if (13 <=? startHour) && (startHour <=? 17) then Afternoon
  else Night.

Definition isTurn (tz : Z) (turn : Turn) (shift : ProcessedShift) : bool :=
  match turn, turnOf tz shift with
  | Morning, Morning | Afternoon, Afternoon | Night, Night => true
  | _, _ => false
  end.



(** The draws that the calculation of a shift makes. *)
Definition drawsOf (punches : list Date) (shift : ProcessedShift) : nat :=
  match lunchType shift with
  | ARTIFICIAL => 2
  | NONE => if isShortShift punches then 0 else 1
  | _ => 0
  end.

(** Distance from the middle of a gap to the middle of the window, in
    milliseconds. *)
Definition middleDistance (windowStart windowEnd : Date) (g : Gap) : Q :=
  Qabs ((inject_Z (gstart g) + inject_Z (gend g)) / 2
        - (inject_Z windowStart + inject_Z windowEnd) / 2).

(** Every punch of the first list is earlier than every punch of the
    second. *)
Definition endsBefore {A : Type} (time : A -> Date) (s1 s2 : list A) : Prop :=
  forall a b, In a s1 -> In b s2 -> time a < time b.

(** One group comes before another in the order of the names. *)
Definition keyLt (g1 g2 : string * list RawRecord) : Prop :=
  String.ltb (fst g1) (fst g2) = true.

(** The shifts that are calculated, person by person and in order: the
    name and the punches of each. *)
Definition personSegments (config : ProcessingConfig)
    (groups : list (string * list RawRecord)) : list (string * list Date) :=
  flat_map (fun entry =>
              map (pair (fst entry))
                  (segments (fun d => d) (shiftThresholdHours config) 18
                            (map DataHora (snd entry)) []))
           groups.

(** One run of punches comes before another: an earlier name, or the same
    name and earlier punches. *)
Definition segmentBefore (e1 e2 : string * list Date) : Prop :=
  String.ltb (fst e1) (fst e2) = true \/
  (fst e1 = fst e2 /\ endsBefore (fun d => d) (snd e1) (snd e2)).

(** One shift is listed before another: its person comes first, or it is
    a shift of the same person that ends before the other starts. *)
Definition shiftBefore (a b : ProcessedShift) : Prop :=
  String.ltb (person a) (person b) = true \/
  (person a = person b /\ endTime a < startTime b).

(** The rows of one person of the daily-worker mode, before the final
    sort. *)
Definition rowsOfPerson {strings : StringMethods} (tz : Z) (showCell : cell -> string)
    (entry : string * list RawRecord) : list DailyWorkerRecord :=
  flat_map (fun punches => finalizeShift tz showCell (fst entry) punches [])
           (segments DataHora THRESHOLD_HOURS MAX_SHIFT_DURATION_HOURS
                     (jsSort compareChronological (snd entry)) []).

(** One row is listed before another: its name comes first, or it is a row
    of the same name whose departure is before the arrival of the other. *)
Definition rowBefore (a b : DailyWorkerRecord) : Prop :=
  String.ltb (nome a) (nome b) = true \/
  (nome a = nome b /\ saida a < chegada b).

(** ** Sample inputs *)

(** The two methods on strings of ASCII characters, for the sample
    inputs. *)
Definition lowerAscii (c : ascii) : ascii :=
  let n := N_of_ascii c in
  if ((65 <=? n) && (n <=? 90))%N then ascii_of_N (n + 32) else c.

Fixpoint asciiToLowerCase (s : string) : string :=
  match s with
  | EmptyString => EmptyString
  | String c s' => String (lowerAscii c) (asciiToLowerCase s')
  end.

Definition isWhiteSpace (c : ascii) : bool :=
  let n := N_of_ascii c in ((9 <=? n) && (n <=? 13) || (n =? 32))%N.

Fixpoint trimStart (s : string) : string :=
  match s with
  | EmptyString => EmptyString
  | String c s' => if isWhiteSpace c then trimStart s' else s
  end.

Fixpoint trimEnd (s : string) : string :=
  match s with
  | EmptyString => EmptyString
  | String c s' =>
      match trimEnd s' with
      | EmptyString => if isWhiteSpace c then EmptyString else String c EmptyString
      | t => String c t
      end
  end.

Definition asciiTrim (s : string) : string := trimEnd (trimStart s).

Definition asciiStrings : StringMethods :=
  {| toLowerCase := asciiToLowerCase; trim := asciiTrim |}.

(** Brasilia time. *)
Definition sampleTz : Z := -3 * msPerHour.

Definition sampleDraw : Random01 :=
  {| rvalue := 1 # 2; rvalue_range := eq_refl |}.

Definition sampleRandom : nat -> Random01 := fun _ => sampleDraw.

Definition sampleShowCell : cell -> string := fun _ => EmptyString.

Definition sampleParseDate : string -> option Date := fun _ => None.

(** A time of day on 2024-01-15, and on the day after. *)
Definition clock (hh mm : Z) : Date := mkDate sampleTz 2024 1 15 hh mm 0.

Definition nextDay (hh mm : Z) : Date := mkDate sampleTz 2024 1 16 hh mm 0.

Definition sampleRecord (d : Date) : RawRecord :=
  {| Pessoa := "Ana"%string; DataHora := d; Grupo := "Default"%string;
     OriginalRow := [] |}.

(** A punch of Ana on 2024-01-15, to the second. *)
Definition punchAt (hh mm ss : Z) : RawRecord :=
  sampleRecord (mkDate sampleTz 2024 1 15 hh mm ss).

Definition anaRow : row :=
  [ ("Nome", CString " Ana ");
    ("Data", CDate (clock 0 0));
    ("Entrada", CDate (clock 8 0));
    ("Saida almoco", CDate (clock 12 5));
    ("Volta almoco", CDate (clock 13 10));
    ("Saida", CDate (clock 17 0));
    ("Total horas", CDate (mkDate sampleTz 1899 12 30 7 55 0)) ]%string.

Definition brunoRow : row :=
  [ ("Funcionario", CString "Bruno");
    ("Entrada", CDate (clock 8 0));
    ("Saida", CDate (clock 16 0)) ]%string.

Definition sampleTable : list row := [anaRow; brunoRow].

(** A row with the same time in two columns, and a configuration whose
    minimum break duration is zero. *)
Definition repeatedPunchRow : row :=
  [ ("Nome", CString "Ana");
    ("Entrada", CDate (clock 8 0));
    ("Entrada 2", CDate (clock 8 0));
    ("Saida", CDate (clock 16 0)) ]%string.

Definition zeroMinimumConfig : ProcessingConfig :=
  {| shiftThresholdHours := 8;
     lunchMinDuration := 0;
     lunchMaxDuration := 75;
     defaultLunchDuration := 60 |}.

(** A configuration that accepts breaks of ten minutes. *)
Definition shortBreakConfig : ProcessingConfig :=
  {| shiftThresholdHours := 8;
     lunchMinDuration := 10;
     lunchMaxDuration := 75;
     defaultLunchDuration := 60 |}.

Definition gapBetween (a b : Date) : Gap :=
  {| gstart := a; gend := b;
     durationMinutes := (inject_Z (b - a) / 60000)%Q |}.

(** The shifts of the sample table. *)
Definition anaShift : ProcessedShift :=
  completeShift sampleTz "Ana" (clock 8 0) (clock 17 0)
    (Some (clock 12 5)) (Some (clock 13 10)) NORMAL.

Definition brunoShift : ProcessedShift :=
  completeShift sampleTz "Bruno" (clock 8 0) (clock 16 0)
    (Some (mkDate sampleTz 2024 1 15 11 58 30))
    (Some (mkDate sampleTz 2024 1 15 13 1 30)) ARTIFICIAL.

(** Three punches ten hours apart, under a threshold of twelve hours. *)
Definition longDayRecords : list RawRecord :=
  [sampleRecord (clock 8 0); sampleRecord (clock 18 0);
   sampleRecord (nextDay 4 0)].

Definition overnightConfig : ProcessingConfig :=
  {| shiftThresholdHours := 12;
     lunchMinDuration := 45;
     lunchMaxDuration := 75;
     defaultLunchDuration := 60 |}.



(** ** Properties of the local-time model *)

Lemma msOfDay_range tz d : 0 <= msOfDay tz d < msPerDay.
Proof. unfold msOfDay, msPerDay. apply Z.mod_pos_bound. lia. Qed.

Lemma getHours_range tz d : 0 <= getHours tz d < 24.
Proof.
  unfold getHours. pose proof (msOfDay_range tz d) as H.
  unfold msPerDay, msPerHour in *. split.
  - apply Z.div_pos; lia.
  - apply Z.div_lt_upper_bound; lia.
Qed.

Lemma localDay_setHours tz d h m :
  0 <= h * msPerHour + m * msPerMinute < msPerDay ->
  localDay tz (setHours tz d h m) = localDay tz d /\
  msOfDay tz (setHours tz d h m) = h * msPerHour + m * msPerMinute.
Proof.
  intros Hr. unfold localDay at 1, msOfDay, setHours, localMs.
  replace (localDay tz d * msPerDay + h * msPerHour + m * msPerMinute - tz + tz)
    with ((h * msPerHour + m * msPerMinute) + localDay tz d * msPerDay) by ring.
  split.
  - rewrite Z.div_add by (unfold msPerDay; lia).
    rewrite Z.div_small by exact Hr. ring.
  - rewrite Z.mod_add by (unfold msPerDay; lia).
    apply Z.mod_small. exact Hr.
Qed.

Lemma localDay_addDays tz d n :
  localDay tz (addDays d n) = localDay tz d + n /\
  msOfDay tz (addDays d n) = msOfDay tz d.
Proof.
  unfold localDay, msOfDay, addDays, localMs.
  replace (d + n * msPerDay + tz) with ((d + tz) + n * msPerDay) by ring.
  split.
  - apply Z.div_add. unfold msPerDay; lia.
  - apply Z.mod_add. unfold msPerDay; lia.
Qed.

Lemma setDateTime_atClock tz d h m :
  0 <= h * msPerHour + m * msPerMinute < msPerDay ->
  atClock tz (setDateTime tz d h m) (localDay tz d) h m.
Proof. intros Hr. unfold setDateTime, atClock. apply localDay_setHours, Hr. Qed.

(** C7. The meal-window resolver, by start hour: [18,24) gives 00:30-03:00
    on the next calendar day, [0,5) gives 00:30-03:00 on the same day,
    [5,13) gives 10:30-14:30 and [13,18) gives 17:30-20:00 on the same
    day. *)
Theorem getLunchWindow_by_start_hour (tz : Z) (shiftStart : Date) :
  let h := getHours tz shiftStart in
  let day := localDay tz shiftStart in
  let w := getLunchWindow tz shiftStart in
  (18 <= h < 24 -> atClock tz (fst w) (day + 1) 0 30 /\ atClock tz (snd w) (day + 1) 3 0) /\
  (0 <= h < 5 -> atClock tz (fst w) day 0 30 /\ atClock tz (snd w) day 3 0) /\
  (5 <= h < 13 -> atClock tz (fst w) day 10 30 /\ atClock tz (snd w) day 14 30) /\
  (13 <= h < 18 -> atClock tz (fst w) day 17 30 /\ atClock tz (snd w) day 20 0).
Proof.
  cbv zeta. unfold getLunchWindow.
  destruct (localDay_addDays tz shiftStart 1) as [Hd _].
  split; [| split; [| split]]; intros Hh;
    repeat match goal with
    | |- context [?a >=? ?b] => destruct (Z.geb_spec a b); try lia
    | |- context [?a <? ?b] => destruct (Z.ltb_spec a b); try lia
    end; cbn [andb fst snd]; try rewrite <- Hd;
    split; apply setDateTime_atClock; unfold msPerHour, msPerMinute, msPerDay; lia.
Qed.

(** ** Sorting *)

Lemma StronglySorted_weaken {A} (R R' : A -> A -> Prop) l :
  (forall a b, R a b -> R' a b) -> StronglySorted R l -> StronglySorted R' l.
Proof.
  intros HR. induction 1 as [|x l Hs IH Hall]; constructor.
  - exact IH.
  - eapply Forall_impl; [|exact Hall]. intros b. apply HR.
Qed.

Section SortFacts.
Context {A : Type} (compareFn : A -> A -> Q).

Lemma insertSorted_perm x l : Permutation (insertSorted compareFn x l) (x :: l).
Proof.
  induction l as [|y l IH]; cbn.
  - reflexivity.
  - destruct (Qle_bool (compareFn x y) 0).
    + reflexivity.
    + rewrite IH. apply perm_swap.
Qed.

Lemma jsSort_perm l : Permutation (jsSort compareFn l) l.
Proof.
  induction l as [|x l IH]; cbn.
  - constructor.
  - rewrite insertSorted_perm. now constructor.
Qed.

Lemma jsSort_In x l : In x (jsSort compareFn l) <-> In x l.
Proof.
  split; apply Permutation_in; [| symmetry]; apply jsSort_perm.
Qed.

Lemma jsSort_nil_inv l : jsSort compareFn l = [] -> l = [].
Proof.
  intros H. apply Permutation_nil. rewrite <- H. apply jsSort_perm.
Qed.

Hypothesis cmp_total : forall a b, cmpLe compareFn a b \/ cmpLe compareFn b a.
Hypothesis cmp_trans : forall a b c, cmpLe compareFn a b -> cmpLe compareFn b c -> cmpLe compareFn a c.

Lemma insertSorted_sorted x l :
  StronglySorted (cmpLe compareFn) l -> StronglySorted (cmpLe compareFn) (insertSorted compareFn x l).
Proof.
  induction 1 as [|y l Hs IH Hall]; cbn.
  - repeat constructor.
  - destruct (Qle_bool (compareFn x y) 0) eqn:E.
    + apply Qle_bool_iff in E. constructor.
      * now constructor.
      * constructor; [exact E|].
        eapply Forall_impl; [|exact Hall]. intros z Hz. now apply cmp_trans with y.
    + assert (Hyx : cmpLe compareFn y x).
      { destruct (cmp_total x y) as [H|H]; [|exact H].
        apply Qle_bool_iff in H. unfold cmpLe in *. congruence. }
      constructor; [exact IH|].
      eapply Permutation_Forall; [symmetry; apply insertSorted_perm|].
      now constructor.
Qed.

Lemma jsSort_sorted l : StronglySorted (cmpLe compareFn) (jsSort compareFn l).
Proof.
  induction l as [|x l IH]; cbn.
  - constructor.
  - now apply insertSorted_sorted.
Qed.

Lemma jsSort_sorted_id l : StronglySorted (cmpLe compareFn) l -> jsSort compareFn l = l.
Proof.
  induction 1 as [|x l Hs IH Hall]; [reflexivity|].
  unfold jsSort. cbn [fold_right]. fold (jsSort compareFn l). rewrite IH. destruct l as [|y l]; [reflexivity|]. cbn.
  inversion Hall as [|? ? Hxy _]; subst.
  apply Qle_bool_iff in Hxy. now rewrite Hxy.
Qed.
End SortFacts.

(** ** The order of the punch stream *)

Lemma string_ltb_lt a b : String.ltb a b = true <-> String_as_OT.lt a b.
Proof.
  unfold String.ltb. rewrite <- String_as_OT.cmp_lt. unfold String_as_OT.cmp.
  destruct (String.compare a b); split; congruence.
Qed.

Lemma string_trichotomy a b :
  String.ltb a b = false -> String.ltb b a = false -> a = b.
Proof.
  unfold String.ltb. rewrite (String.compare_antisym b a).
  destruct (String.compare a b) eqn:E; cbn; intros H1 H2; try discriminate.
  now apply String.compare_eq_iff.
Qed.

Lemma string_ltb_irrefl a : String.ltb a a = false.
Proof.
  destruct (String.ltb a a) eqn:E; [|reflexivity].
  apply string_ltb_lt in E. exfalso. exact (String_as_OT.lt_not_eq _ _ E eq_refl).
Qed.

Lemma inject_Z_nonpos z : (inject_Z z <= 0)%Q <-> z <= 0.
Proof. change 0%Q with (inject_Z 0). now rewrite <- Zle_Qle. Qed.

Lemma compareRecords_le a b : cmpLe compareRecords a b <-> recordLe a b.
Proof.
  unfold cmpLe, compareRecords, recordLe.
  destruct (String.ltb (Pessoa a) (Pessoa b)) eqn:E1.
  - split; [auto | intros _; discriminate].
  - destruct (String.ltb (Pessoa b) (Pessoa a)) eqn:E2.
    + split.
      * intros H. exfalso. revert H. unfold Qle; cbn. lia.
      * intros [H|[H _]]; [discriminate|].
        rewrite H, string_ltb_irrefl in E2. discriminate.
    + rewrite inject_Z_nonpos. pose proof (string_trichotomy _ _ E1 E2).
      split; [intros; right; split; [assumption|lia]|].
      intros [H'|[_ H']]; [discriminate|lia].
Qed.

Lemma recordLe_total a b : recordLe a b \/ recordLe b a.
Proof.
  unfold recordLe.
  destruct (String.ltb (Pessoa a) (Pessoa b)) eqn:E1; [auto|].
  destruct (String.ltb (Pessoa b) (Pessoa a)) eqn:E2; [auto|].
  pose proof (string_trichotomy _ _ E1 E2) as E.
  destruct (Z.le_ge_cases (DataHora a) (DataHora b)); [left|right]; right; auto.
Qed.

Lemma recordLe_trans a b c : recordLe a b -> recordLe b c -> recordLe a c.
Proof.
  unfold recordLe. intros [H1|[E1 H1]] [H2|[E2 H2]].
  - left. apply string_ltb_lt. apply string_ltb_lt in H1, H2.
    eapply String_as_OT.lt_trans; eassumption.
  - left. now rewrite <- E2.
  - left. now rewrite E1.
  - right. split; [congruence|lia].
Qed.

Lemma parseRawData_sorted {strings : StringMethods} tz showCell parseDate jsonData :
  StronglySorted recordLe (parseRawData tz showCell parseDate jsonData).
Proof.
  unfold parseRawData.
  eapply StronglySorted_weaken.
  - intros a b. apply compareRecords_le.
  - apply jsSort_sorted.
    + intros a b. rewrite !compareRecords_le. apply recordLe_total.
    + intros a b c. rewrite !compareRecords_le. apply recordLe_trans.
Qed.

(** ** Normalisation *)

Lemma scanCell_In {strings : StringMethods} tz parseDate r personKey groupKey personName group entry rec :
  In rec (scanCell tz parseDate r personKey groupKey personName group entry) ->
  cellDate parseDate (snd entry) = Some (DataHora rec) /\
  isMidnight tz (DataHora rec) = false /\
  isInvalidYear tz (DataHora rec) = false /\
  Pessoa rec = personName.
Proof.
  unfold scanCell. destruct entry as [key val]. cbn [snd].
  destruct (_ || _); [intros []|].
  destruct (isSummaryHeader key); [intros []|].
  destruct (cellDate parseDate val) as [d|]; [|intros []].
  destruct (isMidnight tz d) eqn:Em; [intros []|].
  destruct (isInvalidYear tz d) eqn:Ey; [intros []|].
  cbn. intros [<-|[]]. cbn. auto.
Qed.

Lemma scanRow_In {strings : StringMethods} tz showCell parseDate r rec :
  In rec (scanRow tz showCell parseDate r) ->
  exists entry, In entry r /\
    cellDate parseDate (snd entry) = Some (DataHora rec) /\
    isMidnight tz (DataHora rec) = false /\
    isInvalidYear tz (DataHora rec) = false.
Proof.
  unfold scanRow.
  destruct (find _ r) as [[personKey personCell]|]; [|intros []].
  destruct (String.eqb _ _); [intros []|].
  intros H. apply in_flat_map in H. destruct H as (entry & Hin & H).
  exists entry. apply scanCell_In in H. intuition.
Qed.

(** On a sheet whose [Date] cells are valid, every punch emitted by
    normalisation has a year of at least 2020 and a time of day other than
    00:00:00, and it is the date of a cell of the table; a candidate cell
    that fails one of the two filters yields no punch. *)
Theorem parseRawData_filters {strings : StringMethods} tz showCell parseDate jsonData :
  (forall rec, In rec (parseRawData tz showCell parseDate jsonData) ->
     2020 <= getFullYear tz (DataHora rec) /\
     ~ (getHours tz (DataHora rec) = 0 /\ getMinutes tz (DataHora rec) = 0
        /\ getSeconds tz (DataHora rec) = 0) /\
     exists r entry, In r jsonData /\ In entry r /\
       cellDate parseDate (snd entry) = Some (DataHora rec)) /\
  (forall r personKey groupKey personName group key val dateVal,
     cellDate parseDate val = Some dateVal ->
     (getHours tz dateVal = 0 /\ getMinutes tz dateVal = 0
      /\ getSeconds tz dateVal = 0) \/ getFullYear tz dateVal < 2020 ->
     scanCell tz parseDate r personKey groupKey personName group (key, val) = []).
Proof.
  split.
  - intros rec H. unfold parseRawData in H. apply jsSort_In in H.
    apply in_flat_map in H. destruct H as (r & Hr & H).
    apply scanRow_In in H. destruct H as (entry & He & Hc & Hm & Hy).
    split; [|split].
    + unfold isInvalidYear in Hy. lia.
    + unfold isMidnight in Hm. intros (H1 & H2 & H3).
      rewrite H1, H2, H3 in Hm. discriminate.
    + exists r, entry. auto.
  - intros r personKey groupKey personName group key val dateVal Hc Hf.
    unfold scanCell. destruct (_ || _); [reflexivity|].
    destruct (isSummaryHeader key); [reflexivity|]. rewrite Hc.
    destruct Hf as [(H1 & H2 & H3)|Hy].
    + unfold isMidnight. rewrite H1, H2, H3. reflexivity.
    + unfold isInvalidYear. destruct (Z.ltb_spec (getFullYear tz dateVal) 2020); [|lia].
      now rewrite andb_false_r.
Qed.

(** ** Normalisation of any [Date] object *)

Lemma find_anyRow (f : string -> bool) r :
  find (fun e => f (fst e)) (anyRow r)
  = option_map (fun e => (fst e, anyCell (snd e)))
               (find (fun e => f (fst e)) r).
Proof.
  induction r as [|[k v] r IH]; cbn; [reflexivity|].
  destruct (f k); [reflexivity|exact IH].
Qed.

(** On a sheet whose [Date] cells are valid the two readings agree. *)
Lemma records_of_valid_sheet {strings : StringMethods} tz showCell showAny parseDate jsonData :
  (forall v, showAny (anyCell v) = showCell v) ->
  AnyDate.records tz showAny parseDate (map anyRow jsonData)
  = map anyRecord (flat_map (scanRow tz showCell parseDate) jsonData).
Proof.
  intros Hshow.
  assert (Hstr : forall v, AnyDate.String_ showAny (anyCell v) = String_ showCell v).
  { intros v. destruct v as [d|str|q|b]; cbn;
      [apply (Hshow (CDate d))|reflexivity
      |apply (Hshow (CNumber q))|apply (Hshow (CBool b))]. }
  assert (Hcell : forall r personKey groupKey personName group entry,
            AnyDate.scanCell tz parseDate (anyRow r) personKey groupKey
              personName group (fst entry, anyCell (snd entry))
            = map anyRecord
                  (scanCell tz parseDate r personKey groupKey personName group entry)).
  { intros r personKey groupKey personName group [key val].
    unfold AnyDate.scanCell, scanCell. cbn [fst snd].
    destruct (_ || _); [reflexivity|].
    destruct (isSummaryHeader key); [reflexivity|].
    assert (Hdate : forall d,
              (if negb (AnyDate.isMidnight tz (AnyDate.ValidDate d))
                  && negb (AnyDate.isInvalidYear tz (AnyDate.ValidDate d))
               then [ {| AnyDate.Pessoa := personName;
                         AnyDate.DataHora := AnyDate.ValidDate d;
                         AnyDate.Grupo := group;
                         AnyDate.OriginalRow := anyRow r |} ]
               else [])
              = map anyRecord
                    (if negb (isMidnight tz d) && negb (isInvalidYear tz d)
                     then [ {| Pessoa := personName; DataHora := d;
                               Grupo := group; OriginalRow := r |} ]
                     else [])).
    { intros d.
      change (AnyDate.isMidnight tz (AnyDate.ValidDate d)) with (isMidnight tz d).
      change (AnyDate.isInvalidYear tz (AnyDate.ValidDate d))
        with (isInvalidYear tz d).
      destruct (_ && _); reflexivity. }
    destruct val as [d|str|q|b];
      cbn [anyCell AnyDate.cellDate cellDate]; try reflexivity.
    - apply Hdate.
    - destruct (8 <? String.length str)%nat; [|reflexivity].
      destruct (parseDate str) as [d|]; [|reflexivity].
      cbn [option_map]. apply Hdate. }
  unfold AnyDate.records. induction jsonData as [|r rest IH]; [reflexivity|].
  cbn [map flat_map]. rewrite map_app, IH. f_equal.
  unfold AnyDate.scanRow, scanRow. rewrite !find_anyRow.
  destruct (find (fun e => isPersonHeader (fst e)) r) as [[personKey personCell]|];
    [|reflexivity].
  cbn [option_map fst snd]. rewrite Hstr.
  destruct (String.eqb _ _); [reflexivity|].
  set (groupKey := option_map fst _).
  set (group := match option_map _ _ with Some _ => _ | None => _ end).
  assert (Hkey : groupKey
                 = option_map fst (find (fun e => isGroupHeader (fst e)) r)).
  { subst groupKey. destruct (find _ r) as [[? ?]|]; reflexivity. }
  assert (Hgroup : group
                   = match find (fun e => isGroupHeader (fst e)) r with
                     | Some (_, g) => trim (String_ showCell g)
                     | None => "Default"%string
                     end).
  { subst group. destruct (find _ r) as [[? ?]|]; cbn; [|reflexivity].
    now rewrite Hstr. }
  rewrite Hkey, Hgroup. clear - Hcell.
  set (personName := trim _). set (groupKey := option_map fst _).
  set (group := match find _ r with Some _ => _ | None => _ end).
  unfold anyRow at 2. rewrite flat_map_concat_map, map_map.
  rewrite flat_map_concat_map, concat_map, map_map. f_equal.
  apply map_ext. intros entry. apply Hcell.
Qed.

(** Every punch that the reading emits is an Invalid Date or a valid date
    that passes the two filters. *)
Lemma records_filters {strings : StringMethods} tz showCell parseDate jsonData rec :
  In rec (AnyDate.records tz showCell parseDate jsonData) ->
  AnyDate.DataHora rec = AnyDate.InvalidDate \/
  exists t, AnyDate.DataHora rec = AnyDate.ValidDate t /\
            2020 <= getFullYear tz t /\
            ~ (getHours tz t = 0 /\ getMinutes tz t = 0 /\ getSeconds tz t = 0).
Proof.
  unfold AnyDate.records. intros H. apply in_flat_map in H.
  destruct H as (r & _ & H). unfold AnyDate.scanRow in H.
  destruct (find _ r) as [[personKey personCell]|]; [|destruct H].
  destruct (String.eqb _ _); [destruct H|].
  apply in_flat_map in H. destruct H as ([key val] & _ & H).
  unfold AnyDate.scanCell in H.
  destruct (_ || _); [destruct H|].
  destruct (isSummaryHeader key); [destruct H|].
  destruct (AnyDate.cellDate parseDate val) as [[t|]|]; [| |destruct H].
  - destruct (AnyDate.isMidnight tz _) eqn:Em; [destruct H|].
    destruct (AnyDate.isInvalidYear tz _) eqn:Ey; [destruct H|].
    cbn in H. destruct H as [<-|[]]. right. exists t. cbn.
    split; [reflexivity|]. split.
    + unfold AnyDate.isInvalidYear in Ey. cbn in Ey. lia.
    + unfold AnyDate.isMidnight in Em. cbn in Em. intros (H1 & H2 & H3).
      rewrite H1, H2, H3 in Em. discriminate.
  - cbn in H. destruct H as [<-|[]]. left. reflexivity.
Qed.

(** C9, where the code departs from it.  A [Date] object is taken as it
    is, and on the Invalid Date both filters answer no, since every
    comparison with [NaN] is false: in a row that names a person, an
    Invalid Date in a column that is neither a person, group nor summary
    column is emitted as a punch, whose year is [NaN], not a year of at
    least 2020, and whose time of day is no time at all. *)
Theorem invalid_date_is_emitted {strings : StringMethods} tz showCell parseDate jsonData
    r personKey personCell key :
  In r jsonData ->
  find (fun e => isPersonHeader (fst e)) r = Some (personKey, personCell) ->
  trim (AnyDate.String_ showCell personCell) <> EmptyString ->
  In (key, AnyDate.CDate AnyDate.InvalidDate) r ->
  isPersonHeader key = false ->
  isGroupHeader key = false ->
  isSummaryHeader key = false ->
  exists rec,
    In rec (AnyDate.records tz showCell parseDate jsonData) /\
    AnyDate.Pessoa rec = trim (AnyDate.String_ showCell personCell) /\
    AnyDate.DataHora rec = AnyDate.InvalidDate /\
    AnyDate.OriginalRow rec = r /\
    AnyDate.accessor (getFullYear tz) (AnyDate.DataHora rec) = None /\
    AnyDate.accessor (getHours tz) (AnyDate.DataHora rec) = None /\
    AnyDate.isMidnight tz (AnyDate.DataHora rec) = false /\
    AnyDate.isInvalidYear tz (AnyDate.DataHora rec) = false.
Proof.
  intros Hr Hperson Hname Hentry Hp Hg Hsum.
  set (groupEntry := find (fun e => isGroupHeader (fst e)) r).
  set (group := match groupEntry with
                | Some (_, g) => trim (AnyDate.String_ showCell g)
                | None => "Default"%string
                end).
  exists {| AnyDate.Pessoa := trim (AnyDate.String_ showCell personCell);
            AnyDate.DataHora := AnyDate.InvalidDate;
            AnyDate.Grupo := group;
            AnyDate.OriginalRow := r |}.
  split; [|cbn; auto 10].
  unfold AnyDate.records. apply in_flat_map. exists r. split; [exact Hr|].
  unfold AnyDate.scanRow. rewrite Hperson.
  destruct (String.eqb _ _) eqn:E; [apply String.eqb_eq in E; contradiction|].
  apply in_flat_map. exists (key, AnyDate.CDate AnyDate.InvalidDate).
  split; [exact Hentry|]. unfold AnyDate.scanCell.
  assert (E1 : String.eqb key personKey = false).
  { apply String.eqb_neq. intros ->. apply find_some in Hperson.
    cbn in Hperson. destruct Hperson as [_ Hperson]. congruence. }
  assert (E2 : match option_map fst groupEntry with
               | Some g => String.eqb key g
               | None => false
               end = false).
  { subst groupEntry.
    destruct (find (fun e : string * AnyDate.cell => isGroupHeader (fst e)) r)
      as [[gk gc]|] eqn:Ef; [|reflexivity].
    cbn. apply String.eqb_neq. intros ->. apply find_some in Ef.
    cbn in Ef. destruct Ef as [_ Ef]. congruence. }
  fold groupEntry. rewrite E1, E2, Hsum. cbn. left. reflexivity.
Qed.

(** ** Grouping by person *)

Lemma StronglySorted_snoc {A} (R : A -> A -> Prop) l x :
  StronglySorted R l -> Forall (fun y => R y x) l -> StronglySorted R (l ++ [x]).
Proof.
  induction 1 as [|y l Hs IH Hall]; intros Hx; cbn.
  - repeat constructor.
  - inversion Hx; subst. constructor; [auto|].
    apply Forall_app. split; [assumption|]. repeat constructor. assumption.
Qed.

Lemma StronglySorted_app_inv {A} (R : A -> A -> Prop) l1 l2 :
  StronglySorted R (l1 ++ l2) ->
  StronglySorted R l1 /\ StronglySorted R l2 /\
  (forall x y, In x l1 -> In y l2 -> R x y).
Proof.
  induction l1 as [|a l1 IH]; cbn; intros H.
  - repeat split; [constructor | assumption | intros ? ? []].
  - inversion H as [|? ? Hs Hall]; subst.
    destruct (IH Hs) as (H1 & H2 & H3).
    apply Forall_app in Hall. destruct Hall as [Ha1 Ha2].
    repeat split; [now constructor | assumption |].
    intros x y [<-|Hx] Hy; [|now apply H3].
    rewrite Forall_forall in Ha2. now apply Ha2.
Qed.

Lemma StronglySorted_map {A B} (f : A -> B) (R : B -> B -> Prop) l :
  StronglySorted (fun a b => R (f a) (f b)) l -> StronglySorted R (map f l).
Proof.
  induction 1 as [|x l Hs IH Hall]; cbn; constructor; [assumption|].
  apply Forall_map. exact Hall.
Qed.

Lemma pushGroup_In r groups k l :
  In (k, l) (pushGroup r groups) ->
  In (k, l) groups \/
  (k = Pessoa r /\ (l = [r] \/ exists l0, In (k, l0) groups /\ l = l0 ++ [r])).
Proof.
  induction groups as [|[k0 l0] groups IH]; cbn.
  - intros [H|[]]. inversion H; subst. right. auto.
  - destruct (String.eqb_spec k0 (Pessoa r)) as [E|E]; cbn.
    + intros [H|H]; [|auto]. inversion H; subst. right. split; [reflexivity|].
      right. exists l0. auto.
    + intros [H|H]; [auto|]. destruct (IH H) as [H'|(Hk & [Hl|(l1 & Hin & Hl)])];
        [auto| right; auto |].
      right. split; [assumption|]. right. exists l1. auto.
Qed.

Lemma recordLe_same_person a b :
  recordLe a b -> Pessoa a = Pessoa b -> DataHora a <= DataHora b.
Proof.
  intros [H|[_ H]] E; [|exact H].
  rewrite E, string_ltb_irrefl in H. discriminate.
Qed.

Lemma groupsOf_fold rest : forall seen groups,
  StronglySorted recordLe (seen ++ rest) ->
  groupsOf seen groups ->
  groupsOf (seen ++ rest) (fold_left (fun g r => pushGroup r g) rest groups).
Proof.
  induction rest as [|r rest IH]; intros seen groups Hs Hg; cbn.
  - now rewrite app_nil_r.
  - replace (seen ++ r :: rest) with ((seen ++ [r]) ++ rest) in *
      by (rewrite <- app_assoc; reflexivity).
    apply IH; [assumption|].
    apply StronglySorted_app_inv in Hs. destruct Hs as (Hs & _ & _).
    apply StronglySorted_app_inv in Hs. destruct Hs as (_ & _ & Hle).
    intros k l Hin. apply pushGroup_In in Hin.
    destruct Hin as [Hin|(Hk & [Hl|(l0 & Hin & Hl)])].
    + destruct (Hg k l Hin) as (Hne & Hall & Hsorted).
      split; [assumption|]. split; [|assumption].
      eapply Forall_impl; [|exact Hall]. cbn. intros x [Hx1 Hx2].
      split; [assumption|]. apply in_or_app. auto.
    + subst. split; [discriminate|]. split.
      * repeat constructor. apply in_or_app. right. now left.
      * repeat constructor.
    + subst. destruct (Hg _ l0 Hin) as (Hne & Hall & Hsorted).
      split; [now destruct l0|]. split.
      * apply Forall_app. split.
        -- eapply Forall_impl; [|exact Hall]. cbn. intros x [Hx1 Hx2].
           split; [assumption|]. apply in_or_app. auto.
        -- repeat constructor. apply in_or_app. right. now left.
      * apply StronglySorted_snoc; [assumption|].
        eapply Forall_impl; [|exact Hall]. cbn. intros x [Hx1 Hx2].
        apply recordLe_same_person; [|assumption].
        apply Hle; [assumption | now left].
Qed.

Lemma groupByPerson_sorted records k l :
  StronglySorted recordLe records ->
  In (k, l) (groupByPerson records) ->
  l <> [] /\ Forall (fun r => Pessoa r = k /\ In r records) l /\
  timeSorted (map DataHora l).
Proof.
  intros Hs Hin.
  destruct (groupsOf_fold records [] [] Hs) with (k := k) (l := l)
    as (H1 & H2 & H3); [intros ? ? [] | exact Hin |].
  split; [assumption|]. split; [assumption|].
  apply StronglySorted_map. exact H3.
Qed.

(** ** Segmentation *)

Lemma last_snoc {A} (l : list A) (x d : A) : last (l ++ [x]) d = x.
Proof. apply last_last. Qed.

Section SegmentFacts.
Context {A : Type} (time : A -> Date) (thresholdHours maxHours : Q).

Lemma segments_concat items : forall current,
  List.concat (segments time thresholdHours maxHours items current) = current ++ items.
Proof.
  induction items as [|x rest IH]; intros current; cbn.
  - destruct current; cbn; now rewrite ?app_nil_r.
  - destruct current as [|first tl]; [apply IH|].
    destruct (staysInShift _ _ _ _ _).
    + rewrite IH, <- app_assoc. reflexivity.
    + cbn. rewrite IH. reflexivity.
Qed.

Lemma segments_nonempty items : forall current seg,
  In seg (segments time thresholdHours maxHours items current) -> seg <> [].
Proof.
  induction items as [|x rest IH]; intros current seg; cbn.
  - destruct current; [intros []|]. intros [<-|[]]. discriminate.
  - destruct current as [|first tl]; [apply IH|].
    destruct (staysInShift _ _ _ _ _); [apply IH|].
    intros [<-|H]; [discriminate|]. eapply IH, H.
Qed.

Lemma withinCap_one x : (0 <= maxHours)%Q -> withinCap time maxHours [x].
Proof.
  intros H. cbn. unfold hoursBetween. rewrite Z.sub_diag.
  assert (E : (inject_Z 0 / inject_Z msPerHour == 0)%Q) by reflexivity.
  rewrite E. exact H.
Qed.

Lemma segments_withinCap items : (0 <= maxHours)%Q -> forall current seg,
  withinCap time maxHours current ->
  In seg (segments time thresholdHours maxHours items current) ->
  withinCap time maxHours seg.
Proof.
  intros Hmax. induction items as [|x rest IH]; intros current seg Hc; cbn.
  - destruct current; [intros []|]. now intros [<-|[]].
  - destruct current as [|first tl].
    + apply IH. now apply withinCap_one.
    + destruct (staysInShift _ _ _ _ _) eqn:E.
      * apply IH. cbn [app withinCap].
        change (first :: tl ++ [x]) with ((first :: tl) ++ [x]).
        rewrite last_snoc. unfold staysInShift in E.
        apply andb_true_iff in E. destruct E as [_ E].
        now apply Qle_bool_iff in E.
      * intros [<-|H]; [exact Hc|]. eapply IH; [|exact H].
        now apply withinCap_one.
Qed.

(** A scan that ends with a single shift has kept every punch in it. *)
Lemma segments_single items current seg :
  segments time thresholdHours maxHours items current = [seg] -> seg = current ++ items.
Proof.
  intros H. rewrite <- segments_concat, H. cbn. now rewrite app_nil_r.
Qed.

Lemma segments_nil items current :
  segments time thresholdHours maxHours items current = [] -> current = [] /\ items = [].
Proof.
  intros H. pose proof (segments_concat items current) as C.
  rewrite H in C. cbn in C. symmetry in C. now apply app_eq_nil in C.
Qed.

Lemma segments_sorted (R : A -> A -> Prop) items current seg :
  StronglySorted R (current ++ items) ->
  In seg (segments time thresholdHours maxHours items current) -> StronglySorted R seg.
Proof.
  rewrite <- segments_concat. generalize (segments time thresholdHours maxHours items current) as l.
  induction l as [|s l IH]; cbn; [intros _ []|].
  intros Hs [<-|Hin].
  - now apply StronglySorted_app_inv in Hs.
  - apply IH; [|assumption]. now apply StronglySorted_app_inv in Hs.
Qed.

(** A first-to-last distance above the maximum forces a second shift. *)
Lemma segments_split_on_cap first rest :
  (0 <= maxHours)%Q ->
  (maxHours < hoursBetween (time (last rest first)) (time first))%Q ->
  (2 <= List.length (segments time thresholdHours maxHours (first :: rest) []))%nat.
Proof.
  intros Hmax Hspan.
  destruct (segments time thresholdHours maxHours (first :: rest) []) as [|s1 [|s2 l]] eqn:E; cbn; try lia.
  - apply segments_nil in E. destruct E as [_ E]. discriminate.
  - exfalso. pose proof (segments_single _ _ _ E) as Es. cbn in Es.
    assert (Hw : withinCap time maxHours s1).
    { apply (segments_withinCap (first :: rest) Hmax [] s1 I).
      rewrite E. now left. }
    subst s1. cbn [withinCap] in Hw.
    assert (El : last (first :: rest) first = last rest first).
    { destruct rest; [reflexivity|]. reflexivity. }
    rewrite El in Hw. apply (Qlt_not_le _ _ Hspan Hw).
Qed.
End SegmentFacts.

(** ** The loops and their segments *)

Lemma bind_assoc {A B C} (c : M A) (k : A -> M B) (k' : B -> M C) i :
  bind (bind c k) k' i = bind c (fun a => bind (k a) k') i.
Proof. unfold bind. destruct (c i) as [[a j]|]; reflexivity. Qed.

Lemma bind_ext {A B} (c : M A) (k k' : A -> M B) i :
  (forall a j, k a j = k' a j) -> bind c k i = bind c k' i.
Proof. intros H. unfold bind. destruct (c i) as [[a j]|]; [apply H | reflexivity]. Qed.

Lemma bind_ret_l {A B} (a : A) (k : A -> M B) i : bind (ret a) k i = k a i.
Proof. reflexivity. Qed.

Lemma bind_Some {A B} (c : M A) (k : A -> M B) i b j :
  bind c k i = Some (b, j) ->
  exists a i', c i = Some (a, i') /\ k a i' = Some (b, j).
Proof.
  unfold bind. destruct (c i) as [[a i']|]; [|discriminate]. intros H. eauto.
Qed.

Section LoopFacts.
Variables (tz : Z) (random : nat -> Random01) (showCell : cell -> string).
Variable config : ProcessingConfig.

Lemma shiftLoop_segments personName personRecords : forall current shifts i,
  bind (shiftLoop tz random config personName personRecords current shifts)
       (fun st => let (currentShiftPunches, shifts) := st in
                  if (0 <? List.length currentShiftPunches)%nat
                  then pushShift tz random config personName shifts currentShiftPunches
                  else ret shifts) i
  = forEachM (pushShift tz random config personName)
      (segments (fun d => d) (shiftThresholdHours config) 18
                (map DataHora personRecords) current) shifts i.
Proof.
  induction personRecords as [|record rest IH]; intros current shifts i.
  - cbn. destruct current as [|first tl]; cbn; [reflexivity|].
    unfold bind, ret. cbn.
    destruct (pushShift tz random config personName shifts (first :: tl) i) as [[? ?]|];
      reflexivity.
  - cbn [shiftLoop map segments]. destruct current as [|first tl]; [apply IH|].
    destruct (staysInShift _ _ _ _ _); [apply IH|].
    cbn [forEachM]. unfold pushShift at 2. rewrite !bind_assoc.
    apply bind_ext. intros shift j. rewrite bind_ret_l. apply IH.
Qed.

Lemma processPerson_segments personName personRecords shifts i :
  processPerson tz random config shifts (personName, personRecords) i
  = forEachM (pushShift tz random config personName)
      (segments (fun d => d) (shiftThresholdHours config) 18
                (map DataHora personRecords) []) shifts i.
Proof.
  unfold processPerson. destruct personRecords as [|record rest]; [reflexivity|].
  cbn [List.length Nat.eqb]. rewrite <- shiftLoop_segments.
  unfold bind. destruct (shiftLoop _ _ _ _ _ _ _ _) as [[[c sh] j]|]; reflexivity.
Qed.

(** One finalisation of the daily-worker mode. *)
Lemma dailyLoop_segments {strings : StringMethods} personName personRecords : forall current output,
  (let (currentShiftPunches, output) :=
     dailyLoop tz showCell personName personRecords current output in
   finalizeShift tz showCell personName currentShiftPunches output)
  = fold_left (fun out punches => finalizeShift tz showCell personName punches out)
      (segments DataHora THRESHOLD_HOURS MAX_SHIFT_DURATION_HOURS
                personRecords current) output.
Proof.
  induction personRecords as [|record rest IH]; intros current output.
  - cbn. destruct current; reflexivity.
  - cbn [dailyLoop segments]. destruct current as [|first tl]; [apply IH|].
    destruct (staysInShift _ _ _ _ _); [apply IH|].
    cbn [fold_left]. apply IH.
Qed.
End LoopFacts.

(** ** Where the shifts of the full-detail mode come from *)

Section Origin.
Variables (tz : Z) (random : nat -> Random01).
Variable config : ProcessingConfig.

Lemma artificialLunch_total start end_ windowStart windowEnd i :
  exists placed j,
    artificialLunch random start end_ windowStart windowEnd i = Some (placed, j).
Proof.
  unfold artificialLunch, bind, mathRandom, ret. cbv zeta.
  destruct (_ >=? _); eexists; eexists; reflexivity.
Qed.

(** On a shift with at least one punch the calculation returns. *)
Lemma calculateSingleShift_total person punches i :
  punches <> [] ->
  exists shift j,
    calculateSingleShift tz random person punches config i = Some (shift, j).
Proof.
  intros Hne. destruct punches as [|start rest]; [congruence|].
  unfold calculateSingleShift.
  destruct (_ || _); [unfold ret; eauto|].
  destruct (getLunchWindow tz start) as [windowStart windowEnd].
  destruct (selectStandardLunch _ _ _); [unfold ret; eauto|].
  unfold bind.
  destruct (artificialLunch_total start (last (start :: rest) start)
              windowStart windowEnd i) as (placed & j & E).
  rewrite E. destruct placed as [[ls le]|]; unfold ret; eauto.
Qed.

Lemma forEachM_pushShift personName segs : forall shifts i out j,
  forEachM (pushShift tz random config personName) segs shifts i = Some (out, j) ->
  forall shift, In shift out ->
    In shift shifts \/
    exists punches, In punches segs /\ calculatedFrom tz random config personName punches shift.
Proof.
  induction segs as [|seg segs IH]; intros shifts i out j H shift Hin.
  - cbn in H. inversion H; subst. auto.
  - cbn [forEachM] in H. apply bind_Some in H.
    destruct H as (shifts' & i' & H1 & H2).
    unfold pushShift in H1. apply bind_Some in H1.
    destruct H1 as (s & i'' & H1 & H1'). inversion H1'; subst.
    destruct (IH _ _ _ _ H2 shift Hin) as [H|(punches & Hp & Hc)].
    + apply in_app_or in H. destruct H as [H|[<-|[]]]; [auto|].
      right. exists seg. split; [now left|]. now exists i, i'.
    + right. exists punches. split; [now right | assumption].
Qed.

Lemma forEachM_pushShift_total personName segs : forall shifts i,
  (forall seg, In seg segs -> seg <> []) ->
  exists out j,
    forEachM (pushShift tz random config personName) segs shifts i = Some (out, j).
Proof.
  induction segs as [|seg segs IH]; intros shifts i Hne; cbn [forEachM].
  - unfold ret. eauto.
  - destruct (calculateSingleShift_total personName seg i) as (s & j & E);
      [apply Hne; now left|].
    destruct (IH (shifts ++ [s]) j) as (out & j' & E');
      [intros; apply Hne; now right|].
    exists out, j'. unfold bind, pushShift, bind. rewrite E. cbn. exact E'.
Qed.

Lemma forEachM_processPerson groups : forall shifts i out j,
  forEachM (processPerson tz random config) groups shifts i = Some (out, j) ->
  forall shift, In shift out -> In shift shifts \/ segmentOf tz random config groups shift.
Proof.
  induction groups as [|[personName personRecords] groups IH];
    intros shifts i out j H shift Hin.
  - cbn in H. inversion H; subst. auto.
  - cbn [forEachM] in H. apply bind_Some in H.
    destruct H as (shifts' & i' & H1 & H2).
    rewrite processPerson_segments in H1.
    destruct (IH _ _ _ _ H2 shift Hin) as [H|(n & r & p & Hg & Hp & Hc)].
    + destruct (forEachM_pushShift _ _ _ _ _ _ H1 shift H) as [H'|(p & Hp & Hc)];
        [auto|].
      right. exists personName, personRecords, p. split; [now left|auto].
    + right. exists n, r, p. split; [now right|auto].
Qed.

Lemma forEachM_processPerson_total groups : forall shifts i,
  exists out j,
    forEachM (processPerson tz random config) groups shifts i = Some (out, j).
Proof.
  induction groups as [|[personName personRecords] groups IH];
    intros shifts i; cbn [forEachM].
  - unfold ret. eauto.
  - destruct (forEachM_pushShift_total personName
                (segments (fun d => d) (shiftThresholdHours config) 18
                          (map DataHora personRecords) []) shifts i)
      as (out & j & E); [intros seg; apply segments_nonempty|].
    destruct (IH out j) as (out' & j' & E').
    exists out', j'. unfold bind. rewrite processPerson_segments, E. exact E'.
Qed.

Lemma processRecords_origin records i shifts j :
  processRecords tz random records config i = Some (shifts, j) ->
  forall shift, In shift shifts -> segmentOf tz random config (groupByPerson records) shift.
Proof.
  unfold processRecords. intros H shift Hin. apply bind_Some in H.
  destruct H as (out & i' & H1 & H2). inversion H2; subst.
  apply jsSort_In in Hin.
  destruct (forEachM_processPerson _ _ _ _ _ H1 shift Hin) as [[]|H]. exact H.
Qed.

(** The full-detail mode returns on every punch stream. *)
Lemma processRecords_total records i :
  exists shifts j, processRecords tz random records config i = Some (shifts, j).
Proof.
  unfold processRecords.
  destruct (forEachM_processPerson_total (groupByPerson records) [] i)
    as (out & j & E).
  unfold bind. rewrite E. unfold ret. eauto.
Qed.
End Origin.

(** ** Gaps *)

Lemma last_app_cons {A} (l1 l2 : list A) (x d : A) :
  last (l1 ++ x :: l2) d = last (x :: l2) d.
Proof.
  induction l1 as [|y l1 IH]; [reflexivity|].
  cbn [app]. destruct (l1 ++ x :: l2) eqn:E.
  - now destruct l1.
  - cbn [last]. exact IH.
Qed.

Lemma sorted_le_last x l d :
  StronglySorted Z.le (x :: l) -> x <= last (x :: l) d.
Proof.
  intros H. inversion H as [|? ? _ Hall]; subst.
  destruct l as [|y l]; [cbn; lia|].
  assert (Hin : In (last (y :: l) d) (y :: l)).
  { destruct (exists_last (l := y :: l)) as (l' & z & E); [discriminate|].
    rewrite E, last_snoc. apply in_or_app. right. now left. }
  rewrite Forall_forall in Hall. change (x <= last (y :: l) d). now apply Hall.
Qed.

Lemma findGaps_In punches g :
  In g (findGaps punches) ->
  (exists l1 l2, punches = l1 ++ gstart g :: gend g :: l2) /\
  durationMinutes g = (inject_Z (gend g - gstart g) / 60000)%Q.
Proof.
  induction punches as [|a punches IH]; [intros []|].
  destruct punches as [|b punches]; [intros []|].
  cbn [findGaps]. intros [<-|H].
  - cbn. split; [|reflexivity]. now exists [], punches.
  - destruct (IH H) as ((l1 & l2 & E) & Hd). split; [|exact Hd].
    exists (a :: l1), l2. cbn. now rewrite E.
Qed.

(** In a time-sorted shift every gap lies between the first and the last
    punch, and does not run backwards. *)
Lemma findGaps_bounds start rest g :
  timeSorted (start :: rest) ->
  In g (findGaps (start :: rest)) ->
  start <= gstart g /\ gstart g <= gend g /\
  gend g <= last (start :: rest) start.
Proof.
  intros Hs Hin. destruct (findGaps_In _ _ Hin) as ((l1 & l2 & E) & _).
  unfold timeSorted in Hs. rewrite E in *.
  destruct (StronglySorted_app_inv _ _ _ Hs) as (_ & Hs2 & H12).
  inversion Hs2 as [|? ? Hs3 Hall]; subst.
  inversion Hall as [|? ? Hab _]; subst.
  split; [|split; [exact Hab|]].
  - destruct l1 as [|x l1]; cbn in E; inversion E; subst; [lia|].
    apply H12; now left.
  - rewrite last_app_cons.
    change (last (gstart g :: gend g :: l2) start) with (last (gend g :: l2) start).
    now apply sorted_le_last.
Qed.

Lemma positive_minutes z : (0 < inject_Z z / 60000)%Q -> 0 < z.
Proof.
  unfold Qlt. cbn. lia.
Qed.

Lemma durationWithin_spec lo hi g :
  durationWithin lo hi g = true <-> qualifies lo hi g.
Proof.
  unfold durationWithin, qualifies.
  now rewrite andb_true_iff, !Qle_bool_iff.
Qed.

Lemma insideWindowB_spec ws we g :
  insideWindowB ws we g = true <-> inside (ws, we) g.
Proof.
  unfold insideWindowB, inside. cbn [fst snd].
  rewrite andb_true_iff, Z.geb_le, Z.leb_le. reflexivity.
Qed.


(** ** The standard lunch *)

Lemma selectStandardLunch_In ws we validGaps g :
  selectStandardLunch ws we validGaps = Some g -> In g validGaps.
Proof.
  unfold selectStandardLunch.
  destruct validGaps as [|g1 [|g2 l]]; [discriminate| |].
  - intros H. inversion H. now left.
  - destruct (filter _ _) as [|g' l'] eqn:E.
    + intros H. apply (jsSort_In (compareMidpoints ws we)).
      destruct (jsSort _ _); [discriminate|]. inversion H. now left.
    + intros H. inversion H; subst.
      assert (Hin : In g (filter (insideWindowB ws we) (g1 :: g2 :: l)))
        by (rewrite E; now left).
      now apply filter_In in Hin.
Qed.

Lemma selectStandardLunch_None ws we validGaps :
  selectStandardLunch ws we validGaps = None -> validGaps = [].
Proof.
  unfold selectStandardLunch.
  destruct validGaps as [|g1 [|g2 l]]; [reflexivity|discriminate|].
  destruct (filter _ _); [|discriminate].
  destruct (jsSort _ _) eqn:E; [|discriminate].
  apply jsSort_nil_inv in E. discriminate.
Qed.

(** ** Random draws *)

Lemma random_range (r : Random01) : (0 <= rvalue r /\ rvalue r < 1)%Q.
Proof.
  pose proof (rvalue_range r) as H. apply andb_true_iff in H.
  destruct H as [H1 H2]. apply Qle_bool_iff in H1. split; [exact H1|].
  apply Qnot_le_lt. intros C. apply Qle_bool_iff in C.
  rewrite C in H2. discriminate.
Qed.

Lemma Qfloor_nonneg x : (0 <= x)%Q -> 0 <= Qfloor x.
Proof. intros H. apply Qfloor_resp_le in H. exact H. Qed.

Lemma Qfloor_le_Z x z : (x <= inject_Z z)%Q -> Qfloor x <= z.
Proof. intros H. apply Qfloor_resp_le in H. now rewrite Qfloor_Z in H. Qed.

Lemma random_floor_6 (r : Random01) : 0 <= Qfloor (rvalue r * 6) <= 5.
Proof.
  destruct (random_range r) as [H0 H1]. split.
  - apply Qfloor_nonneg. lra.
  - pose proof (Qfloor_le (rvalue r * 6)) as H.
    assert (H6 : (inject_Z (Qfloor (rvalue r * 6)) < inject_Z 6)%Q).
    { change (inject_Z 6) with 6%Q. lra. }
    rewrite <- Zlt_Qlt in H6. lia.
Qed.

Lemma random_floor_scaled (r : Random01) (m : Z) :
  0 <= m -> 0 <= Qfloor (rvalue r * inject_Z m) <= m.
Proof.
  intros Hm. destruct (random_range r) as [H0 H1].
  assert (Hq : (0 <= inject_Z m)%Q).
  { change 0%Q with (inject_Z 0). now rewrite <- Zle_Qle. }
  split.
  - apply Qfloor_nonneg. nra.
  - apply Qfloor_le_Z. nra.
Qed.

(** ** One shift *)

Ltac date_lia := unfold Date in *; lia.

Lemma artificialMsOf_range r : 60 * 60000 <= artificialMsOf r <= 65 * 60000.
Proof. unfold artificialMsOf. pose proof (random_floor_6 r). lia. Qed.

Lemma isShortShift_cons start rest :
  isShortShift (start :: rest)
  = ((List.length (start :: rest) <? 2)%nat
     || (last (start :: rest) start - start <? 1000 * 60 * 60)).
Proof. reflexivity. Qed.

Section OneShift.
Variables (tz : Z) (random : nat -> Random01).
Variables (person : string) (config : ProcessingConfig).
Variables (start : Date) (rest : list Date).

Let punches := start :: rest.
Let end_ := last punches start.
Let window := getLunchWindow tz start.
Let validGaps :=
  filter (durationWithin (lunchMinDuration config) (lunchMaxDuration config))
         (findGaps punches).
Let validPeriodStart := Z.max (start + 15 * 60000) (fst window).
Let validPeriodEnd := Z.min (end_ - 15 * 60000) (snd window).

(** The three ways in which the calculation ends. *)
Lemma calculateSingleShift_inv i shift j :
  calculateSingleShift tz random person punches config i = Some (shift, j) ->
  (isShortShift punches = true /\
   shift = incompleteShift tz person start end_ /\ j = i)
  \/
  (isShortShift punches = false /\
   exists g, selectStandardLunch (fst window) (snd window) validGaps = Some g /\
     shift = completeShift tz person start end_
               (Some (gstart g)) (Some (gend g)) NORMAL /\ j = i)
  \/
  (isShortShift punches = false /\ validGaps = [] /\
   let artificialMs := artificialMsOf (random i) in
   (artificialMs <= validPeriodEnd - validPeriodStart /\
    exists offset,
      0 <= offset <= validPeriodEnd - validPeriodStart - artificialMs /\
      shift = completeShift tz person start end_
                (Some (validPeriodStart + offset))
                (Some (validPeriodStart + offset + artificialMs)) ARTIFICIAL /\
      j = S (S i))
   \/
   (validPeriodEnd - validPeriodStart < artificialMs /\
    shift = completeShift tz person start end_ None None NONE /\ j = S i)).
Proof.
  subst punches end_ window validGaps validPeriodStart validPeriodEnd.
  unfold calculateSingleShift. rewrite <- isShortShift_cons.
  destruct (isShortShift (start :: rest)) eqn:Eshort.
  - unfold ret. intros H. inversion H; subst. left. auto.
  - destruct (getLunchWindow tz start) as [windowStart windowEnd].
    cbn [fst snd].
    destruct (selectStandardLunch _ _ _) as [g|] eqn:Esel.
    + unfold ret. intros H. inversion H; subst. right. left.
      split; [reflexivity|]. exists g. auto.
    + unfold bind, artificialLunch, bind, mathRandom, ret. cbv zeta.
      fold (artificialMsOf (random i)).
      apply selectStandardLunch_None in Esel.
      destruct (Z.geb_spec
                  (Z.min (last (start :: rest) start - 15 * 60000) windowEnd
                   - Z.max (start + 15 * 60000) windowStart)
                  (artificialMsOf (random i))) as [Hfit|Hfit];
        intros H; inversion H; subst; right; right;
        (split; [reflexivity|]); (split; [exact Esel|]).
      * left. split; [lia|].
        eexists. split; [|split; reflexivity].
        apply random_floor_scaled. lia.
      * right. auto.
Qed.
End OneShift.


Lemma isShortShift_false punches :
  isShortShift punches = false <->
  (2 <= List.length punches)%nat /\ 60 * msPerMinute <= spanMs punches.
Proof.
  unfold isShortShift. rewrite orb_false_iff, Nat.ltb_ge, Z.ltb_ge.
  unfold msPerMinute. reflexivity.
Qed.


Lemma calculateSingleShift_endpoints tz random person config start rest i shift j :
  calculateSingleShift tz random person (start :: rest) config i = Some (shift, j) ->
  startTime shift = start /\ endTime shift = last (start :: rest) start.
Proof.
  intros E.
  destruct (calculateSingleShift_inv _ _ _ _ _ _ _ _ _ E)
    as [(_ & -> & _) | [(_ & g & _ & -> & _) | (_ & _ & Hart)]];
    [split; reflexivity .. |].
  cbv zeta in Hart.
  destruct Hart as [(_ & off & _ & -> & _) | (_ & -> & _)]; split; reflexivity.
Qed.

(** Every shift of [processRecords] is calculated from a non-empty run of
    punches. *)
Lemma processRecords_shift_punches tz random config records i shifts j shift :
  processRecords tz random records config i = Some (shifts, j) ->
  In shift shifts ->
  exists person start rest i' j',
    calculateSingleShift tz random person (start :: rest) config i'
      = Some (shift, j').
Proof.
  intros H Hin.
  destruct (processRecords_origin _ _ _ _ _ _ _ H shift Hin)
    as (personName & personRecords & punches & _ & Hp & i' & j' & E).
  pose proof (segments_nonempty _ _ _ _ _ _ Hp) as Hne.
  destruct punches as [|start rest]; [congruence|].
  exists personName, start, rest, i', j'. exact E.
Qed.


Lemma completeShift_workedMs tz person start end_ ls le lt :
  workedMs (completeShift tz person start end_ ls le lt)
  = Z.max 0 (match ls, le with
             | Some a, Some b => (a - start) + (end_ - b)
             | _, _ => end_ - start
             end).
Proof.
  unfold completeShift. cbn [workedMs].
  destruct (Z.ltb_spec (match ls, le with
                        | Some a, Some b => (a - start) + (end_ - b)
                        | _, _ => end_ - start
                        end) 0); lia.
Qed.

(** The break placed by the synthesis, on the calculation of one shift. *)
Lemma calculateSingleShift_artificial tz random person config punches i shift j :
  calculateSingleShift tz random person punches config i = Some (shift, j) ->
  lunchType shift = ARTIFICIAL ->
  exists ls le,
    lunchStart shift = Some ls /\ lunchEnd shift = Some le /\
    startTime shift + 15 * msPerMinute <= ls /\
    le <= endTime shift - 15 * msPerMinute /\
    fst (getLunchWindow tz (startTime shift)) <= ls /\
    le <= snd (getLunchWindow tz (startTime shift)) /\
    60 * msPerMinute <= le - ls <= 65 * msPerMinute.
Proof.
  intros E Ht.
  destruct punches as [|start rest]; [discriminate|].
  destruct (calculateSingleShift_inv _ _ _ _ _ _ _ _ _ E)
    as [(_ & -> & _) | [(_ & g & _ & -> & _) | (_ & _ & H)]];
    try discriminate.
  cbv zeta in H.
  destruct H as [(Hfit & off & Hoff & -> & _) | (_ & -> & _)];
    [|discriminate].
  pose proof (artificialMsOf_range (random i)) as Hr.
  eexists. eexists. split; [reflexivity|]. split; [reflexivity|].
  cbn [startTime endTime completeShift]. unfold msPerMinute. lia.
Qed.

(** C3. An ARTIFICIAL break lies within the intersection of [shift start
    + 15 minutes, shift end - 15 minutes] and the meal window resolved from
    the shift start, and lasts between 60 and 65 minutes: for every result
    of the calculation of one shift, and so for every shift of
    [processRecords]; when no gap qualifies and that intersection is shorter
    than the length drawn for the break, the calculation returns a shift
    with lunch type NONE and no lunch bounds. *)
Theorem artificial_break_contained tz random config :
  (forall person punches i shift j,
     calculateSingleShift tz random person punches config i = Some (shift, j) ->
     lunchType shift = ARTIFICIAL ->
     exists ls le,
       lunchStart shift = Some ls /\ lunchEnd shift = Some le /\
       startTime shift + 15 * msPerMinute <= ls /\
       le <= endTime shift - 15 * msPerMinute /\
       fst (getLunchWindow tz (startTime shift)) <= ls /\
       le <= snd (getLunchWindow tz (startTime shift)) /\
       60 * msPerMinute <= le - ls <= 65 * msPerMinute) /\
  (forall records i,
     exists shifts j,
       processRecords tz random records config i = Some (shifts, j) /\
       forall shift, In shift shifts ->
         lunchType shift = ARTIFICIAL ->
         exists ls le,
           lunchStart shift = Some ls /\ lunchEnd shift = Some le /\
           startTime shift + 15 * msPerMinute <= ls /\
           le <= endTime shift - 15 * msPerMinute /\
           fst (getLunchWindow tz (startTime shift)) <= ls /\
           le <= snd (getLunchWindow tz (startTime shift)) /\
           60 * msPerMinute <= le - ls <= 65 * msPerMinute) /\
  (forall person start rest i,
     let punches := start :: rest in
     let end_ := last punches start in
     let window := getLunchWindow tz start in
     isShortShift punches = false ->
     (forall g, In g (findGaps punches) ->
        ~ qualifies (lunchMinDuration config) (lunchMaxDuration config) g) ->
     Z.min (end_ - 15 * msPerMinute) (snd window)
       - Z.max (start + 15 * msPerMinute) (fst window)
       < artificialMsOf (random i) ->
     exists shift j,
       calculateSingleShift tz random person punches config i = Some (shift, j) /\
       lunchType shift = NONE /\
       lunchStart shift = None /\ lunchEnd shift = None /\
       workedMs shift = end_ - start).
Proof.
  split; [|split].
  - intros person punches i shift j. apply calculateSingleShift_artificial.
  - intros records i.
    destruct (processRecords_total tz random config records i)
      as (shifts & j & H).
    exists shifts, j. split; [exact H|]. intros shift Hin.
    destruct (processRecords_shift_punches _ _ _ _ _ _ _ _ H Hin)
      as (person & start & rest & i' & j' & E).
    exact (calculateSingleShift_artificial _ _ _ _ _ _ _ _ E).
  - intros person start rest i punches end_ window Hshort Hnone Hfit.
    destruct (calculateSingleShift_total tz random config person punches i)
      as (shift & j & E); [discriminate|].
    exists shift, j. split; [exact E|].
    destruct (calculateSingleShift_inv _ _ _ _ _ _ _ _ _ E)
      as [(Hs & _) | [(_ & g & Hsel & _) | (_ & _ & H)]].
    + subst punches. congruence.
    + exfalso. apply selectStandardLunch_In, filter_In in Hsel.
      destruct Hsel as [Hin Hq]. apply durationWithin_spec in Hq.
      exact (Hnone g Hin Hq).
    + cbv zeta in H. unfold msPerMinute in Hfit. subst punches end_ window.
      destruct H as [(Hfit' & _) | (_ & -> & _)]; [lia|].
      rewrite completeShift_workedMs. repeat split.
      apply isShortShift_false in Hshort. unfold spanMs, msPerMinute in Hshort. lia.
Qed.

(** ** The shifts of a decoded table *)

(** Every shift of the full-detail mode is calculated from a non-empty,
    time-sorted run of punches. *)
Lemma processTimesheet_shift_sorted {strings : StringMethods} tz random showCell parseDate jsonData config
    i shifts j shift :
  processTimesheet tz random showCell parseDate jsonData config i
    = Some (shifts, j) ->
  In shift shifts ->
  exists person start rest,
    timeSorted (start :: rest) /\
    calculatedFrom tz random config person (start :: rest) shift.
Proof.
  unfold processTimesheet. intros H Hin.
  destruct (processRecords_origin _ _ _ _ _ _ _ H shift Hin)
    as (personName & personRecords & punches & Hg & Hp & Hc).
  apply groupByPerson_sorted in Hg; [|apply parseRawData_sorted].
  destruct Hg as (_ & _ & Hsorted).
  pose proof (segments_nonempty _ _ _ _ _ _ Hp) as Hne.
  apply (segments_sorted _ _ _ Z.le) in Hp; [|exact Hsorted].
  destruct punches as [|start rest]; [congruence|].
  exists personName, start, rest. auto.
Qed.

Lemma processTimesheet_total {strings : StringMethods} tz random showCell parseDate jsonData config i :
  exists shifts j,
    processTimesheet tz random showCell parseDate jsonData config i
    = Some (shifts, j).
Proof. apply processRecords_total. Qed.

(** The standard lunch of a time-sorted shift is one of its gaps. *)
Lemma standardLunch_bounds tz config start rest g :
  timeSorted (start :: rest) ->
  selectStandardLunch (fst (getLunchWindow tz start)) (snd (getLunchWindow tz start))
    (filter (durationWithin (lunchMinDuration config) (lunchMaxDuration config))
            (findGaps (start :: rest))) = Some g ->
  start <= gstart g /\ gstart g <= gend g /\
  gend g <= last (start :: rest) start /\
  qualifies (lunchMinDuration config) (lunchMaxDuration config) g /\
  durationMinutes g = (inject_Z (gend g - gstart g) / 60000)%Q.
Proof.
  intros Hs Hsel. apply selectStandardLunch_In, filter_In in Hsel.
  destruct Hsel as [Hin Hq]. apply durationWithin_spec in Hq.
  destruct (findGaps_bounds _ _ _ Hs Hin) as (H1 & H2 & H3).
  destruct (findGaps_In _ _ Hin) as [_ Hd]. auto.
Qed.

(** C4. For every shift of the full-detail mode with a resolved break,
    worked time plus break length is the span of the shift; with no break
    the worked time is the span; and the worked time of a calculated shift
    is the value of the formula, clamped to zero when negative. *)
Theorem worked_time_conservation {strings : StringMethods} tz random showCell parseDate config :
  (forall jsonData i,
     exists shifts j,
       processTimesheet tz random showCell parseDate jsonData config i
         = Some (shifts, j) /\
       forall shift, In shift shifts ->
         (lunchType shift = NORMAL \/ lunchType shift = ARTIFICIAL ->
            exists ls le,
              lunchStart shift = Some ls /\ lunchEnd shift = Some le /\
              workedMs shift + (le - ls) = endTime shift - startTime shift) /\
         (lunchType shift = NONE ->
            workedMs shift = endTime shift - startTime shift) /\
         0 <= workedMs shift) /\
  (forall person punches i shift j,
     calculateSingleShift tz random person punches config i = Some (shift, j) ->
     isShortShift punches = false ->
     workedMs shift
     = Z.max 0 (match lunchStart shift, lunchEnd shift with
                | Some ls, Some le =>
                    (ls - startTime shift) + (endTime shift - le)
                | _, _ => endTime shift - startTime shift
                end)).
Proof.
  split.
  - intros jsonData i.
    destruct (processTimesheet_total tz random showCell parseDate jsonData
                config i) as (shifts & j & H).
    exists shifts, j. split; [exact H|]. intros shift Hin.
    destruct (processTimesheet_shift_sorted _ _ _ _ _ _ _ _ _ _ H Hin)
      as (person & start & rest & Hs & i' & j' & E).
    pose proof (sorted_le_last start rest start Hs) as Hspan.
    destruct (calculateSingleShift_inv _ _ _ _ _ _ _ _ _ E)
      as [(_ & -> & _) | [(_ & g & Hsel & -> & _) | (_ & _ & Hart)]].
    + cbn [lunchType incompleteShift workedMs startTime endTime].
      split; [intros [?|?]; discriminate|]. split; [reflexivity|date_lia].
    + destruct (standardLunch_bounds _ _ _ _ _ Hs Hsel) as (H1 & H2 & H3 & _).
      rewrite completeShift_workedMs.
      cbn [lunchType completeShift startTime endTime lunchStart lunchEnd].
      split; [|split; [discriminate|date_lia]].
      intros _. exists (gstart g), (gend g). repeat split. date_lia.
    + cbv zeta in Hart.
      destruct Hart as [(Hfit & off & Hoff & -> & _) | (_ & -> & _)];
        rewrite completeShift_workedMs;
        cbn [lunchType completeShift startTime endTime lunchStart lunchEnd].
      * pose proof (artificialMsOf_range (random i')) as Hr.
        split; [|split; [discriminate|date_lia]].
        intros _. eexists. eexists. repeat split. date_lia.
      * split; [intros [?|?]; discriminate|]. split; date_lia.
  - intros person punches i shift j E Hshort.
    destruct punches as [|start rest]; [discriminate|].
    destruct (calculateSingleShift_inv _ _ _ _ _ _ _ _ _ E)
      as [(Hs & _) | [(_ & g & _ & -> & _) | (_ & _ & Hart)]].
    + congruence.
    + apply completeShift_workedMs.
    + cbv zeta in Hart.
      destruct Hart as [(_ & off & _ & -> & _) | (_ & -> & _)];
        apply completeShift_workedMs.
Qed.

(** C2, as amended. For every shift returned by the full-detail mode,
    start <= end, and whenever the lunch type is not NONE,
    start <= lunchStart <= lunchEnd <= end; lunchStart < lunchEnd holds
    when the configured minimum break duration is positive. *)
Theorem shift_interval_invariant {strings : StringMethods} tz random showCell parseDate config jsonData
    i :
  exists shifts j,
    processTimesheet tz random showCell parseDate jsonData config i
      = Some (shifts, j) /\
    forall shift, In shift shifts ->
      startTime shift <= endTime shift /\
      (lunchType shift <> NONE ->
       exists ls le,
         lunchStart shift = Some ls /\ lunchEnd shift = Some le /\
         startTime shift <= ls /\ ls <= le /\ le <= endTime shift) /\
      ((0 < lunchMinDuration config)%Q -> intervalInvariant shift).
Proof.
  destruct (processTimesheet_total tz random showCell parseDate jsonData
              config i) as (shifts & j & H).
  exists shifts, j. split; [exact H|]. intros shift Hin.
  destruct (processTimesheet_shift_sorted _ _ _ _ _ _ _ _ _ _ H Hin)
    as (person & start & rest & Hs & i' & j' & E).
  pose proof (sorted_le_last start rest start Hs) as Hspan.
  unfold intervalInvariant.
  destruct (calculateSingleShift_inv _ _ _ _ _ _ _ _ _ E)
    as [(_ & -> & _) | [(_ & g & Hsel & -> & _) | (_ & _ & Hart)]].
  - cbn [lunchType incompleteShift startTime endTime].
    split; [date_lia|]. split; [congruence|]. intros _.
    split; [date_lia|congruence].
  - destruct (standardLunch_bounds _ _ _ _ _ Hs Hsel)
      as (H1 & H2 & H3 & [Hq _] & Hd).
    cbn [lunchType completeShift startTime endTime lunchStart lunchEnd].
    split; [date_lia|]. split.
    + intros _. exists (gstart g), (gend g). repeat split; date_lia.
    + intros Hmin. split; [date_lia|]. intros _.
      assert (Hpos : 0 < gend g - gstart g).
      { apply positive_minutes. rewrite <- Hd.
        eapply Qlt_le_trans; eassumption. }
      exists (gstart g), (gend g). repeat split; date_lia.
  - cbv zeta in Hart.
    destruct Hart as [(Hfit & off & Hoff & -> & _) | (_ & -> & _)];
      cbn [lunchType completeShift startTime endTime lunchStart lunchEnd].
    + pose proof (artificialMsOf_range (random i')) as Hr.
      split; [date_lia|]. split; [|intros _; split; [date_lia|]]; intros _;
        eexists; eexists; (split; [reflexivity|]); (split; [reflexivity|]);
        date_lia.
    + split; [date_lia|]. split; [congruence|]. intros _.
      split; [date_lia|congruence].
Qed.

(** ** Choice among several qualifying gaps *)

Lemma filter_cons_inv {A} (f : A -> bool) l x xs :
  filter f l = x :: xs ->
  exists before after,
    l = before ++ x :: after /\ f x = true /\
    forall y, In y before -> f y = false.
Proof.
  induction l as [|a l IH]; cbn; [discriminate|].
  destruct (f a) eqn:E.
  - intros H. inversion H; subst. exists [], l. repeat split; [assumption|].
    intros y [].
  - intros H. destruct (IH H) as (before & after & -> & Hx & Hb).
    exists (a :: before), after. repeat split; [assumption|].
    intros y [<-|Hy]; auto.
Qed.

Lemma filter_filter {A} (f h : A -> bool) l :
  filter f (filter h l) = filter (fun x => h x && f x) l.
Proof.
  induction l as [|a l IH]; cbn; [reflexivity|].
  destruct (h a); cbn; [destruct (f a)|]; now rewrite IH.
Qed.

Lemma findGaps_start_In punches g :
  In g (findGaps punches) -> In (gstart g) punches.
Proof.
  intros H. destruct (findGaps_In _ _ H) as ((l1 & l2 & ->) & _).
  apply in_or_app. right. now left.
Qed.

(** In a time-sorted shift the gaps come in chronological order. *)
Lemma findGaps_chronological punches :
  timeSorted punches ->
  StronglySorted (fun a b => gstart a <= gstart b) (findGaps punches).
Proof.
  induction punches as [|a punches IH]; intros Hs; [constructor|].
  destruct punches as [|b punches]; [constructor|].
  inversion Hs as [|? ? Hs' Hall]; subst.
  change (findGaps (a :: b :: punches))
    with ({| gstart := a; gend := b;
             durationMinutes := (inject_Z (b - a) / 60000)%Q |}
          :: findGaps (b :: punches)).
  constructor; [now apply IH|].
  apply Forall_forall. intros g Hg. cbn [gstart].
  apply findGaps_start_In in Hg. rewrite Forall_forall in Hall. now apply Hall.
Qed.

(** C10, as amended. In full-detail mode, on a shift with at least two
    punches and a span of at least one hour, when some qualifying gap is
    fully contained in the canonical window the first such gap is the NORMAL
    lunch, whatever the midpoints are; it is the chronologically earliest
    when the punches are time-sorted. *)
Theorem earliest_inside_gap_selected tz random person config start rest i g others :
  let punches := start :: rest in
  let window := getLunchWindow tz start in
  let validGaps :=
    filter (durationWithin (lunchMinDuration config) (lunchMaxDuration config))
           (findGaps punches) in
  isShortShift punches = false ->
  filter (insideWindowB (fst window) (snd window)) validGaps = g :: others ->
  (exists shift,
     calculateSingleShift tz random person punches config i = Some (shift, i) /\
     lunchType shift = NORMAL /\
     lunchStart shift = Some (gstart g) /\ lunchEnd shift = Some (gend g)) /\
  (exists before after,
     findGaps punches = before ++ g :: after /\
     forall g', In g' before ->
       ~ (qualifies (lunchMinDuration config) (lunchMaxDuration config) g'
          /\ inside window g')) /\
  (timeSorted punches ->
   forall g', In g' (findGaps punches) ->
     qualifies (lunchMinDuration config) (lunchMaxDuration config) g' ->
     inside window g' -> gstart g <= gstart g').
Proof.
  intros punches window validGaps Hshort Hfilter.
  assert (Hfirst : exists before after,
     findGaps punches = before ++ g :: after /\
     forall g', In g' before ->
       ~ (qualifies (lunchMinDuration config) (lunchMaxDuration config) g'
          /\ inside window g')).
  { subst validGaps. rewrite filter_filter in Hfilter.
    apply filter_cons_inv in Hfilter.
    destruct Hfilter as (before & after & E & _ & Hb).
    exists before, after. split; [exact E|].
    intros g' Hin [Hq Hi]. specialize (Hb g' Hin).
    apply durationWithin_spec in Hq.
    destruct window as [ws we]. apply insideWindowB_spec in Hi.
    cbn [fst snd] in Hb. rewrite Hq, Hi in Hb. discriminate. }
  split; [|split; [exact Hfirst|]].
  - destruct (calculateSingleShift_total tz random config person punches i)
      as (shift & j & E); [discriminate|].
    destruct (calculateSingleShift_inv _ _ _ _ _ _ _ _ _ E)
      as [(Hs & _) | [(_ & g' & Hsel & -> & ->) | (_ & Hnil & _)]].
    + subst punches. congruence.
    + assert (g' = g).
      { fold punches window validGaps in Hsel. revert Hsel Hfilter.
        unfold selectStandardLunch.
        destruct validGaps as [|g1 [|g2 l]]; [discriminate| |].
        - cbn [filter]. destruct (insideWindowB _ _ g1); [|discriminate].
          congruence.
        - intros Hsel Hfilter. rewrite Hfilter in Hsel. congruence. }
      subst g'. exists (completeShift tz person start (last punches start)
                          (Some (gstart g)) (Some (gend g)) NORMAL).
      split; [exact E|]. repeat split.
    + exfalso. fold punches validGaps in Hnil. rewrite Hnil in Hfilter.
      discriminate.
  - intros Hs g' Hin Hq Hi.
    destruct Hfirst as (before & after & E & Hb).
    pose proof (findGaps_chronological _ Hs) as Hc. rewrite E in *.
    apply StronglySorted_app_inv in Hc. destruct Hc as (_ & Hc & _).
    inversion Hc as [|? ? _ Hall]; subst.
    apply in_app_or in Hin. destruct Hin as [Hin|[<-|Hin]].
    + exfalso. exact (Hb g' Hin (conj Hq Hi)).
    + lia.
    + rewrite Forall_forall in Hall. now apply Hall.
Qed.

(** ** The break of the daily-worker mode *)



Lemma minutes_to_ms z : (inject_Z z / 60000 * 60 * 1000 == inject_Z z)%Q.
Proof. field. Qed.

(** The link between [standardLunchBounds] and the calculation. *)
Lemma standardLunchBounds_calculated tz random person config punches i shift j :
  calculateSingleShift tz random person punches config i = Some (shift, j) ->
  forall a b,
    standardLunchBounds tz config punches = Some (a, b) <->
    lunchType shift = NORMAL /\ lunchStart shift = Some a /\ lunchEnd shift = Some b.
Proof.
  intros E a b. destruct punches as [|start rest]; [discriminate|].
  unfold standardLunchBounds.
  destruct (calculateSingleShift_inv _ _ _ _ _ _ _ _ _ E)
    as [(Hs & -> & _) | [(Hs & g & Hsel & -> & _) | (Hs & Hnil & Hart)]];
    rewrite Hs.
  - cbn. split; [discriminate|]. intros (H & _). discriminate.
  - destruct (getLunchWindow tz start) as [ws we]. cbn [fst snd] in Hsel.
    rewrite Hsel. cbn. split.
    + intros H. inversion H. auto.
    + intros (_ & H1 & H2). congruence.
  - destruct (getLunchWindow tz start) as [ws we]. rewrite Hnil. cbn [selectStandardLunch option_map].
    split; [discriminate|]. cbv zeta in Hart.
    destruct Hart as [(_ & off & _ & -> & _) | (_ & -> & _)];
      intros (H & _); discriminate.
Qed.



(** ** The hard cap on the span of a shift *)

Lemma hours_le_cap z (n : Z) :
  (hoursBetween z 0%Z <= inject_Z n)%Q <-> z <= n * msPerHour.
Proof.
  unfold hoursBetween, msPerHour. rewrite Z.sub_0_r.
  unfold Qle. cbn. lia.
Qed.

Lemma hoursBetween_diff a b : hoursBetween a b = hoursBetween (a - b) 0.
Proof. unfold hoursBetween. now rewrite Z.sub_0_r. Qed.

Lemma withinCap_ms {A} (time : A -> Date) (n : Z) first rest :
  withinCap time (inject_Z n) (first :: rest) ->
  time (last (first :: rest) first) - time first <= n * msPerHour.
Proof.
  unfold withinCap. rewrite hoursBetween_diff, hours_le_cap. auto.
Qed.

Lemma last_map {A B} (f : A -> B) l d : last (map f l) (f d) = f (last l d).
Proof.
  induction l as [|x l IH]; [reflexivity|].
  destruct l; [reflexivity|]. exact IH.
Qed.

Lemma forEachM_pushShift_length tz random config personName segs :
  forall shifts i out j,
    forEachM (pushShift tz random config personName) segs shifts i = Some (out, j) ->
    List.length out = (List.length shifts + List.length segs)%nat.
Proof.
  induction segs as [|seg segs IH]; intros shifts i out j H.
  - cbn in H. inversion H; subst. cbn. lia.
  - cbn [forEachM] in H. apply bind_Some in H.
    destruct H as (shifts' & i' & H1 & H2).
    unfold pushShift in H1. apply bind_Some in H1.
    destruct H1 as (s & i'' & _ & H1'). inversion H1'; subst.
    rewrite (IH _ _ _ _ H2), length_app. cbn. lia.
Qed.

(** The record that [finalizeShift] adds for a shift. *)
Lemma finalizeShift_record {strings : StringMethods} tz showCell personName firstRecord others output :
  exists record,
    finalizeShift tz showCell personName (firstRecord :: others) output
      = output ++ [record] /\
    finalizeShift tz showCell personName (firstRecord :: others) [] = [record] /\
    chegada record = DataHora firstRecord /\
    saida record = DataHora (last (firstRecord :: others) firstRecord).
Proof.
  unfold finalizeShift. eexists. split; [reflexivity|].
  split; [reflexivity|]. split; reflexivity.
Qed.

Lemma fold_finalizeShift {strings : StringMethods} tz showCell personName segs : forall output,
  (forall seg, In seg segs -> seg <> []) ->
  let result :=
    fold_left (fun out punches => finalizeShift tz showCell personName punches out)
              segs output in
  List.length result = (List.length output + List.length segs)%nat /\
  forall record, In record result ->
    In record output \/
    exists seg, In seg segs /\ recordOf tz showCell personName seg record.
Proof.
  induction segs as [|seg segs IH]; intros output Hne; cbv zeta; cbn [fold_left].
  - cbn. split; [lia|auto].
  - destruct seg as [|firstRecord others];
      [exfalso; apply (Hne []); [now left|reflexivity]|].
    destruct (finalizeShift_record tz showCell personName firstRecord others output)
      as (r & E & E0 & _).
    rewrite E.
    destruct (IH (output ++ [r])) as [Hlen Hall]; [intros; apply Hne; now right|].
    cbv zeta in *. split.
    + rewrite Hlen, length_app. cbn. lia.
    + intros record Hin. destruct (Hall record Hin) as [H|(seg & Hseg & Hrec)].
      * apply in_app_or in H. destruct H as [H|[<-|[]]]; [auto|].
        right. exists (firstRecord :: others). split; [now left|].
        split; [discriminate|exact E0].
      * right. exists seg. split; [now right|assumption].
Qed.

Lemma dailyPerson_segments {strings : StringMethods} tz showCell output personName personRecords :
  dailyPerson tz showCell output (personName, personRecords)
  = fold_left (fun out punches => finalizeShift tz showCell personName punches out)
      (segments DataHora THRESHOLD_HOURS MAX_SHIFT_DURATION_HOURS
                (jsSort compareChronological personRecords) []) output.
Proof. unfold dailyPerson. apply dailyLoop_segments. Qed.

Lemma fold_dailyPerson {strings : StringMethods} tz showCell groups : forall output record,
  In record (fold_left (dailyPerson tz showCell) groups output) ->
  In record output \/ dailySegmentOf tz showCell groups record.
Proof.
  induction groups as [|[personName personRecords] groups IH];
    intros output record Hin; cbn [fold_left] in Hin; [auto|].
  destruct (IH _ _ Hin) as [H|(n & r & p & Hg & Hp & Hr)].
  - rewrite dailyPerson_segments in H.
    apply fold_finalizeShift in H; [|intros seg; apply segments_nonempty].
    destruct H as [H|(seg & Hseg & Hrec)]; [auto|].
    right. exists personName, personRecords, seg. split; [now left|auto].
  - right. exists n, r, p. split; [now right|auto].
Qed.

Lemma calculateDailyWorkers_origin {strings : StringMethods} tz showCell records record :
  In record (calculateDailyWorkers tz showCell records) ->
  dailySegmentOf tz showCell (groupByPerson records) record.
Proof.
  unfold calculateDailyWorkers. intros H. apply jsSort_In in H.
  apply fold_dailyPerson in H. destruct H as [[]|H]. exact H.
Qed.


Lemma compareChronological_le a b :
  cmpLe compareChronological a b <-> DataHora a <= DataHora b.
Proof.
  unfold cmpLe, compareChronological. rewrite inject_Z_nonpos. lia.
Qed.

Lemma jsSort_chronological personRecords :
  StronglySorted (fun a b => DataHora a <= DataHora b)
                 (jsSort compareChronological personRecords).
Proof.
  eapply StronglySorted_weaken.
  - intros a b. apply compareChronological_le.
  - apply jsSort_sorted.
    + intros a b. rewrite !compareChronological_le. lia.
    + intros a b c. rewrite !compareChronological_le. lia.
Qed.

Lemma last_In_cons {A} (x : A) l d : In (last (x :: l) d) (x :: l).
Proof.
  revert x. induction l as [|y l IH]; intros x; [now left|].
  right. apply IH.
Qed.

Lemma sorted_In_le_last {A} (time : A -> Date) l d a :
  StronglySorted (fun a b => time a <= time b) l ->
  In a l -> time a <= time (last l d).
Proof.
  intros Hs. induction Hs as [|x l Hs IH Hx]; [intros []|].
  destruct l as [|y l]; [intros [<-|[]]; cbn; lia|].
  change (last (x :: y :: l) d) with (last (y :: l) d).
  intros [<-|Ha]; [|now apply IH].
  rewrite Forall_forall in Hx. apply Hx, last_In_cons.
Qed.

Section DailyRows.
Variables (tz : Z) (showCell : cell -> string).

Lemma finalizeShift_app {strings : StringMethods} personName punches output :
  finalizeShift tz showCell personName punches output
  = output ++ finalizeShift tz showCell personName punches [].
Proof.
  destruct punches as [|firstRecord others]; [cbn; now rewrite app_nil_r|].
  reflexivity.
Qed.

Lemma finalizeShift_row {strings : StringMethods} personName firstRecord others row :
  In row (finalizeShift tz showCell personName (firstRecord :: others) []) ->
  nome row = personName /\ chegada row = DataHora firstRecord /\
  saida row = DataHora (last (firstRecord :: others) firstRecord).
Proof.
  unfold finalizeShift. cbn [app]. intros [<-|[]]. cbn. auto.
Qed.


Lemma fold_finalizeShift_rows {strings : StringMethods} personName segs : forall output,
  fold_left (fun out punches => finalizeShift tz showCell personName punches out)
            segs output
  = output ++ flat_map (fun punches =>
                          finalizeShift tz showCell personName punches []) segs.
Proof.
  induction segs as [|seg segs IH]; intros output; cbn [fold_left flat_map].
  - now rewrite app_nil_r.
  - rewrite IH, finalizeShift_app, <- app_assoc. reflexivity.
Qed.

Lemma fold_dailyPerson_rows {strings : StringMethods} groups : forall output,
  fold_left (dailyPerson tz showCell) groups output
  = output ++ flat_map (rowsOfPerson tz showCell) groups.
Proof.
  induction groups as [|[k l] groups IH]; intros output; cbn [fold_left flat_map].
  - now rewrite app_nil_r.
  - rewrite IH, dailyPerson_segments, fold_finalizeShift_rows, <- app_assoc.
    reflexivity.
Qed.

Lemma rowsOfPerson_In {strings : StringMethods} entry row :
  In row (rowsOfPerson tz showCell entry) ->
  exists firstRecord others,
    In (firstRecord :: others)
       (segments DataHora THRESHOLD_HOURS MAX_SHIFT_DURATION_HOURS
                 (jsSort compareChronological (snd entry)) []) /\
    nome row = fst entry /\ chegada row = DataHora firstRecord /\
    saida row = DataHora (last (firstRecord :: others) firstRecord).
Proof.
  unfold rowsOfPerson. intros H. apply in_flat_map in H.
  destruct H as (seg & Hseg & H).
  destruct seg as [|firstRecord others]; [contradiction|].
  exists firstRecord, others. split; [exact Hseg|].
  now apply finalizeShift_row.
Qed.

Lemma rows_length {strings : StringMethods} personName segs :
  (List.length (flat_map (fun punches =>
                            finalizeShift tz showCell personName punches [])
                         segs)
   <= List.length (List.concat segs))%nat.
Proof.
  induction segs as [|seg segs IH]; [cbn; lia|].
  cbn [flat_map List.concat]. rewrite !length_app.
  destruct seg as [|firstRecord others]; [cbn in *; lia|].
  destruct (finalizeShift_record tz showCell personName firstRecord others [])
    as (r & _ & -> & _). cbn [List.length]. lia.
Qed.

End DailyRows.

(** Every record is in the group of its person. *)
Lemma pushGroup_keeps r groups k l :
  In (k, l) groups ->
  exists l', In (k, l') (pushGroup r groups) /\ incl l l'.
Proof.
  induction groups as [|[k0 l0] groups IH]; [intros []|].
  cbn [pushGroup]. intros [[= -> ->]|Hin].
  - destruct (String.eqb k (Pessoa r)).
    + exists (l ++ [r]). split; [now left|]. intros x Hx. apply in_or_app. auto.
    + exists l. split; [now left|apply incl_refl].
  - destruct (IH Hin) as (l' & Hin' & Hincl).
    destruct (String.eqb k0 (Pessoa r)).
    + exists l. split; [now right|apply incl_refl].
    + exists l'. split; [now right|exact Hincl].
Qed.

Lemma pushGroup_adds r groups :
  exists l, In (Pessoa r, l) (pushGroup r groups) /\ In r l.
Proof.
  induction groups as [|[k0 l0] groups IH]; cbn [pushGroup].
  - exists [r]. split; now left.
  - destruct (String.eqb_spec k0 (Pessoa r)) as [->|E].
    + exists (l0 ++ [r]). split; [now left|]. apply in_or_app. right. now left.
    + destruct IH as (l & Hin & Hr). exists l. split; [now right|exact Hr].
Qed.

Lemma groupByPerson_complete records r :
  In r records ->
  exists l, In (Pessoa r, l) (groupByPerson records) /\ In r l.
Proof.
  unfold groupByPerson.
  assert (H : forall rest groups,
            (In r rest \/ exists l, In (Pessoa r, l) groups /\ In r l) ->
            exists l, In (Pessoa r, l)
                         (fold_left (fun g x => pushGroup x g) rest groups) /\
                      In r l).
  { induction rest as [|x rest IH]; intros groups Hr; cbn [fold_left].
    - destruct Hr as [[]|Hr]. exact Hr.
    - apply IH. destruct Hr as [[->|Hr]|(l & Hin & Hl)]; [right|now left|right].
      + apply pushGroup_adds.
      + destruct (pushGroup_keeps x _ _ _ Hin) as (l' & Hin' & Hincl).
        exists l'. split; [exact Hin'|now apply Hincl]. }
  intros Hr. apply H. now left.
Qed.

Lemma filter_all {A} (f : A -> bool) l :
  (forall x, In x l -> f x = true) -> filter f l = l.
Proof.
  induction l as [|x l IH]; [reflexivity|]. intros H. cbn.
  rewrite (H x (or_introl eq_refl)), IH; [reflexivity|].
  intros y Hy. apply H. now right.
Qed.

Lemma filter_none {A} (f : A -> bool) l :
  (forall x, In x l -> f x = false) -> filter f l = [].
Proof.
  induction l as [|x l IH]; [reflexivity|]. intros H. cbn.
  rewrite (H x (or_introl eq_refl)). apply IH.
  intros y Hy. apply H. now right.
Qed.







Lemma hours_gt_cap a b (n : Z) :
  (inject_Z n < hoursBetween a b)%Q <-> n * msPerHour < a - b.
Proof.
  unfold hoursBetween, msPerHour. unfold Qlt. cbn. lia.
Qed.

Lemma last_cons_self {A} (x : A) l : last (x :: l) x = last l x.
Proof. destruct l; reflexivity. Qed.

Lemma StronglySorted_map_inv {A B} (f : A -> B) (R : B -> B -> Prop) l :
  StronglySorted R (map f l) -> StronglySorted (fun a b => R (f a) (f b)) l.
Proof.
  induction l as [|x l IH]; cbn; intros H; [constructor|].
  inversion H as [|? ? Hs Hall]; subst. constructor; [now apply IH|].
  rewrite Forall_map in Hall. exact Hall.
Qed.

Lemma segment_span_le {A} (time : A -> Date) thresholdHours (n : Z) items seg :
  0 <= n ->
  In seg (segments time thresholdHours (inject_Z n) items []) ->
  exists first rest,
    seg = first :: rest /\
    time (last seg first) - time first <= n * msPerHour.
Proof.
  intros Hn Hin.
  assert (Hq : (0 <= inject_Z n)%Q).
  { change 0%Q with (inject_Z 0). now rewrite <- Zle_Qle. }
  pose proof (segments_nonempty _ _ _ _ _ _ Hin) as Hne.
  pose proof (segments_withinCap time thresholdHours _ items Hq [] seg I Hin) as Hw.
  destruct seg as [|first rest]; [congruence|].
  exists first, rest. split; [reflexivity|]. now apply withinCap_ms.
Qed.


(** ** The threshold of the segmentation *)




Ltac by_evaluation := vm_compute; first [reflexivity | discriminate].

(** ** The properties on the sample inputs *)

Section SampleProperties.
#[local] Existing Instance asciiStrings.

(** A start at 23:00 resolves to the window of the next day. *)
Lemma getLunchWindow_rollover_witness :
  atClock sampleTz (fst (getLunchWindow sampleTz (clock 23 0)))
          (localDay sampleTz (clock 23 0) + 1) 0 30 /\
  atClock sampleTz (snd (getLunchWindow sampleTz (clock 23 0)))
          (localDay sampleTz (clock 23 0) + 1) 3 0.
Proof.
  apply (proj1 (getLunchWindow_by_start_hour sampleTz (clock 23 0))).
  split; by_evaluation.
Defined.


(** The artificial lunch of Bruno (08:00 to 16:00) is inside 10:30-14:30
    and inside 08:15-15:45. *)
Lemma artificial_break_contained_witness :
  exists ls le,
    lunchStart brunoShift = Some ls /\ lunchEnd brunoShift = Some le /\
    startTime brunoShift + 15 * msPerMinute <= ls /\
    le <= endTime brunoShift - 15 * msPerMinute /\
    fst (getLunchWindow sampleTz (startTime brunoShift)) <= ls /\
    le <= snd (getLunchWindow sampleTz (startTime brunoShift)) /\
    60 * msPerMinute <= le - ls <= 65 * msPerMinute.
Proof.
  apply (proj1 (artificial_break_contained sampleTz sampleRandom DEFAULT_CONFIG)
           "Bruno"%string [clock 8 0; clock 16 0] 0%nat brunoShift 2%nat);
    by_evaluation.
Defined.

(** The worked time of Ana and her lunch add up to her span. *)
Lemma worked_time_conservation_witness :
  exists ls le,
    lunchStart anaShift = Some ls /\ lunchEnd anaShift = Some le /\
    workedMs anaShift + (le - ls) = endTime anaShift - startTime anaShift.
Proof.
  destruct (proj1 (worked_time_conservation sampleTz sampleRandom sampleShowCell
                     sampleParseDate DEFAULT_CONFIG) sampleTable 0%nat)
    as (shifts & j & E & Hall).
  vm_compute in E. injection E as <- <-.
  apply (Hall anaShift).
  - left. by_evaluation.
  - left. reflexivity.
Defined.

(** The shift of Ana under the baseline configuration. *)
Lemma shift_interval_invariant_witness : intervalInvariant anaShift.
Proof.
  destruct (shift_interval_invariant sampleTz sampleRandom sampleShowCell
              sampleParseDate DEFAULT_CONFIG sampleTable 0%nat)
    as (shifts & j & E & Hall).
  vm_compute in E. injection E as <- <-.
  apply (Hall anaShift).
  - left. by_evaluation.
  - reflexivity.
Defined.



(** The punch of Ana at 08:00 is kept; her reference date and a duration
    cell of 1899 are dropped. *)
Lemma parseRawData_filters_witness :
  (2020 <= getFullYear sampleTz (clock 8 0) /\
   ~ (getHours sampleTz (clock 8 0) = 0 /\ getMinutes sampleTz (clock 8 0) = 0
      /\ getSeconds sampleTz (clock 8 0) = 0) /\
   exists r entry, In r sampleTable /\ In entry r /\
     cellDate sampleParseDate (snd entry) = Some (clock 8 0)) /\
  scanCell sampleTz sampleParseDate anaRow "Nome" None "Ana" "Default"
    ("Data"%string, CDate (clock 0 0)) = [] /\
  scanCell sampleTz sampleParseDate anaRow "Nome" None "Ana" "Default"
    ("Tempo"%string, CDate (mkDate sampleTz 1899 12 30 7 55 0)) = [].
Proof.
  pose proof (parseRawData_filters sampleTz sampleShowCell sampleParseDate
                sampleTable) as [Hkept Hdropped].
  split; [|split].
  - apply (Hkept {| Pessoa := "Ana"; DataHora := clock 8 0;
                    Grupo := "Default"; OriginalRow := anaRow |}).
    vm_compute. left. reflexivity.
  - apply (Hdropped anaRow "Nome"%string None "Ana"%string "Default"%string
             "Data"%string (CDate (clock 0 0)) (clock 0 0) eq_refl).
    left. repeat split; by_evaluation.
  - apply (Hdropped anaRow "Nome"%string None "Ana"%string "Default"%string
             "Tempo"%string (CDate (mkDate sampleTz 1899 12 30 7 55 0))
             (mkDate sampleTz 1899 12 30 7 55 0) eq_refl).
    right. by_evaluation.
Defined.


(** Gaps 11:00-12:00 and 12:00-13:00, both inside 10:30-14:30: the first is
    the lunch. *)
Lemma earliest_inside_gap_selected_witness :
  exists shift,
    calculateSingleShift sampleTz sampleRandom "Ana"
      [clock 8 0; clock 11 0; clock 12 0; clock 13 0; clock 17 0]
      DEFAULT_CONFIG 0%nat = Some (shift, 0%nat) /\
    lunchType shift = NORMAL /\
    lunchStart shift = Some (clock 11 0) /\ lunchEnd shift = Some (clock 12 0).
Proof.
  refine (proj1 (earliest_inside_gap_selected sampleTz sampleRandom "Ana"
                   DEFAULT_CONFIG (clock 8 0)
                   [clock 11 0; clock 12 0; clock 13 0; clock 17 0] 0%nat
                   (gapBetween (clock 11 0) (clock 12 0))
                   [gapBetween (clock 12 0) (clock 13 0)] _ _));
    by_evaluation.
Defined.

(** ** Inputs that separate the code from the specification *)


(** C2. With a minimum break duration of zero, a repeated punch is a
    qualifying gap of length zero and becomes the lunch of the shift. *)
Lemma zero_length_lunch :
  exists shifts j shift,
    processTimesheet sampleTz sampleRandom sampleShowCell sampleParseDate
      [repeatedPunchRow] zeroMinimumConfig 0%nat = Some (shifts, j) /\
    In shift shifts /\
    lunchType shift = NORMAL /\
    lunchStart shift = Some (clock 8 0) /\ lunchEnd shift = Some (clock 8 0) /\
    ~ intervalInvariant shift.
Proof.
  eexists. eexists. eexists. split; [vm_compute; reflexivity|].
  split; [left; reflexivity|]. split; [reflexivity|].
  split; [by_evaluation|]. split; [by_evaluation|].
  intros [_ H]. destruct H as (ls & le & H1 & H2 & _ & Hlt & _); [discriminate|].
  cbn in H1, H2. inversion H1; inversion H2; subst. lia.
Qed.

(** C10. Under a configuration that accepts breaks of ten minutes, two
    qualifying gaps inside the window of a shift of thirty minutes: the
    shift is returned as too short, without a lunch. *)
Lemma short_shift_ignores_inside_gaps :
  let punches := [clock 11 0; clock 11 15; clock 11 30] in
  let window := getLunchWindow sampleTz (clock 11 0) in
  filter (insideWindowB (fst window) (snd window))
         (filter (durationWithin (lunchMinDuration shortBreakConfig)
                                 (lunchMaxDuration shortBreakConfig))
                 (findGaps punches))
    = [gapBetween (clock 11 0) (clock 11 15);
       gapBetween (clock 11 15) (clock 11 30)] /\
  exists shift,
    calculateSingleShift sampleTz sampleRandom "Ana" punches shortBreakConfig
                         0%nat = Some (shift, 0%nat) /\
    lunchType shift = NONE /\
    lunchStart shift = None /\ lunchEnd shift = None.
Proof.
  cbv zeta. split; [by_evaluation|].
  eexists. split; [vm_compute; reflexivity|]. repeat split.
Qed.

(** ** The calendar and the scenarios of the specification *)

Example civilFromDays_epoch : civilFromDays 0 = (1970, 1, 1).
Proof. reflexivity. Qed.

Example civilFromDays_2020 :
  civilFromDays 18262 = (2020, 1, 1) /\ civilFromDays 18261 = (2019, 12, 31).
Proof. split; reflexivity. Qed.

Example civilFromDays_leap_day : civilFromDays 19782 = (2024, 2, 29).
Proof. reflexivity. Qed.

Example civilFromDays_sheet_epoch :
  civilFromDays (daysFromCivil 1899 12 30) = (1899, 12, 30).
Proof. reflexivity. Qed.

(** The table of Ana (08:00, 12:05, 13:10, 17:00) and Bruno (08:00,
    16:00): the reference date and the duration column yield no punch, Ana
    gets the gap 12:05-13:10 as NORMAL lunch and 07:55:00 of work, Bruno an
    ARTIFICIAL lunch inside 10:30-14:30. *)
Example sample_table_shifts :
  processTimesheet sampleTz sampleRandom sampleShowCell sampleParseDate
    sampleTable DEFAULT_CONFIG 0%nat = Some ([anaShift; brunoShift], 2%nat) /\
  workedTimeStr anaShift = "07:55:00"%string /\
  lunchType brunoShift = ARTIFICIAL.
Proof. repeat split; by_evaluation. Qed.

(** Punches at 22:00 and, on the next day, 02:00 and 06:30: one shift in
    daily-worker mode, from 22:00 to 06:30, with the night window on the
    next day. *)
Example overnight_single_shift :
  map (fun r => (chegada r, saida r, horaTotal r))
      (calculateDailyWorkers sampleTz sampleShowCell
         [sampleRecord (clock 22 0); sampleRecord (nextDay 2 0);
          sampleRecord (nextDay 6 30)])
  = [(clock 22 0, nextDay 6 30, "08:30:00"%string)] /\
  getLunchWindow sampleTz (clock 22 0) = (nextDay 0 30, nextDay 3 0).
Proof. split; by_evaluation. Qed.

End SampleProperties.

(** ** The order of the results *)


Section NameThenTime.
Context {A : Type} (name : A -> string) (time : A -> Date).
Variable compareFn : A -> A -> Q.
Hypothesis compareFn_eq : forall a b,
  compareFn a b
  = if String.ltb (name a) (name b) then (-1)%Q
    else if String.ltb (name b) (name a) then 1%Q
    else inject_Z (time a - time b).

Lemma nameTime_compare_le a b :
  cmpLe compareFn a b <-> nameTimeLe name time a b.
Proof.
  unfold cmpLe, nameTimeLe. rewrite compareFn_eq.
  destruct (String.ltb (name a) (name b)) eqn:E1.
  - split; [auto | intros _; discriminate].
  - destruct (String.ltb (name b) (name a)) eqn:E2.
    + split.
      * intros H. exfalso. revert H. unfold Qle; cbn. lia.
      * intros [H|[H _]]; [discriminate|].
        rewrite H, string_ltb_irrefl in E2. discriminate.
    + rewrite inject_Z_nonpos. pose proof (string_trichotomy _ _ E1 E2).
      split; [intros; right; split; [assumption|lia]|].
      intros [H'|[_ H']]; [discriminate|lia].
Qed.

Lemma nameTimeLe_total a b :
  nameTimeLe name time a b \/ nameTimeLe name time b a.
Proof.
  unfold nameTimeLe.
  destruct (String.ltb (name a) (name b)) eqn:E1; [auto|].
  destruct (String.ltb (name b) (name a)) eqn:E2; [auto|].
  pose proof (string_trichotomy _ _ E1 E2) as E.
  destruct (Z.le_ge_cases (time a) (time b)); [left|right]; right; auto.
Qed.

Lemma nameTimeLe_trans a b c :
  nameTimeLe name time a b -> nameTimeLe name time b c ->
  nameTimeLe name time a c.
Proof.
  unfold nameTimeLe. intros [H1|[E1 H1]] [H2|[E2 H2]].
  - left. apply string_ltb_lt. apply string_ltb_lt in H1, H2.
    eapply String_as_OT.lt_trans; eassumption.
  - left. now rewrite <- E2.
  - left. now rewrite E1.
  - right. split; [congruence|lia].
Qed.

Lemma jsSort_nameTime_sorted l :
  StronglySorted (nameTimeLe name time) (jsSort compareFn l).
Proof.
  eapply StronglySorted_weaken.
  - intros a b. apply nameTime_compare_le.
  - apply jsSort_sorted.
    + intros a b. rewrite !nameTime_compare_le. apply nameTimeLe_total.
    + intros a b c. rewrite !nameTime_compare_le. apply nameTimeLe_trans.
Qed.

Lemma jsSort_nameTime_fixed l :
  StronglySorted (nameTimeLe name time) l -> jsSort compareFn l = l.
Proof.
  intros H. apply jsSort_sorted_id.
  eapply StronglySorted_weaken; [|exact H].
  intros a b. apply nameTime_compare_le.
Qed.
End NameThenTime.

(** X1. The punch stream of [parseRawData] is sorted by person, then by time,
    it holds the punches of the scan and no other, and sorting it again
    leaves it as it is. *)
Theorem punch_stream_sorted {strings : StringMethods} tz showCell parseDate jsonData :
  let stream := parseRawData tz showCell parseDate jsonData in
  StronglySorted (nameTimeLe Pessoa DataHora) stream /\
  Permutation stream (flat_map (scanRow tz showCell parseDate) jsonData) /\
  jsSort compareRecords stream = stream.
Proof.
  cbv zeta. unfold parseRawData.
  assert (Hs : StronglySorted (nameTimeLe Pessoa DataHora)
                 (jsSort compareRecords
                    (flat_map (scanRow tz showCell parseDate) jsonData)))
    by (apply jsSort_nameTime_sorted; reflexivity).
  split; [exact Hs|]. split; [apply jsSort_perm|].
  apply (jsSort_nameTime_fixed Pessoa DataHora); [reflexivity | exact Hs].
Qed.

(** X2. The shifts of [processRecords] come out sorted by person, then by start
    time. *)
Theorem processRecords_sorted tz random records config i :
  exists shifts j,
    processRecords tz random records config i = Some (shifts, j) /\
    StronglySorted (nameTimeLe person startTime) shifts.
Proof.
  destruct (processRecords_total tz random config records i)
    as (shifts & j & H).
  exists shifts, j. split; [exact H|].
  unfold processRecords in H. apply bind_Some in H.
  destruct H as (out & i' & _ & H). inversion H; subst.
  apply jsSort_nameTime_sorted. reflexivity.
Qed.

(** X3. The rows of [calculateDailyWorkers] come out sorted by name, then by
    arrival. *)
Theorem calculateDailyWorkers_sorted {strings : StringMethods} tz showCell records :
  StronglySorted (nameTimeLe nome chegada)
                 (calculateDailyWorkers tz showCell records).
Proof.
  unfold calculateDailyWorkers. apply jsSort_nameTime_sorted. reflexivity.
Qed.

(** ** Where a punch comes from *)

Lemma scanCell_provenance {strings : StringMethods} tz parseDate r personKey groupKey personName group
    entry rec :
  In rec (scanCell tz parseDate r personKey groupKey personName group entry) ->
  fst entry <> personKey /\
  (forall g, groupKey = Some g -> fst entry <> g) /\
  isSummaryHeader (fst entry) = false /\
  cellDate parseDate (snd entry) = Some (DataHora rec) /\
  Pessoa rec = personName /\ Grupo rec = group /\ OriginalRow rec = r.
Proof.
  unfold scanCell. destruct entry as [key val]. cbn [fst snd].
  destruct (String.eqb_spec key personKey) as [|Hp]; [intros []|].
  cbn [orb].
  destruct (match groupKey with Some g => String.eqb key g | None => false end)
    eqn:Eg; [intros []|].
  destruct (isSummaryHeader key); [intros []|].
  destruct (cellDate parseDate val) as [d|]; [|intros []].
  destruct (negb (isMidnight tz d) && negb (isInvalidYear tz d)); [|intros []].
  intros [<-|[]]. cbn. repeat split; try assumption.
  intros g ->. intros ->. rewrite String.eqb_refl in Eg. discriminate.
Qed.


Lemma scanRow_provenance {strings : StringMethods} tz showCell parseDate r rec :
  In rec (scanRow tz showCell parseDate r) ->
  exists personKey personCell key val,
    find (fun e => isPersonHeader (fst e)) r = Some (personKey, personCell) /\
    Pessoa rec = trim (String_ showCell personCell) /\
    Pessoa rec <> EmptyString /\
    Grupo rec = groupOfRow showCell r /\
    OriginalRow rec = r /\
    In (key, val) r /\
    key <> personKey /\
    (forall g c, find (fun e => isGroupHeader (fst e)) r = Some (g, c) ->
       key <> g) /\
    isSummaryHeader key = false /\
    cellDate parseDate val = Some (DataHora rec).
Proof.
  unfold scanRow, groupOfRow.
  destruct (find (fun e => isPersonHeader (fst e)) r)
    as [[personKey personCell]|]; [|intros []].
  destruct (String.eqb_spec (trim (String_ showCell personCell)) EmptyString)
    as [|Hname]; [intros []|].
  intros H. apply in_flat_map in H. destruct H as ([key val] & Hin & H).
  apply scanCell_provenance in H. cbn [fst snd] in H.
  destruct H as (Hp & Hg & Hs & Hc & Hn & Hgr & Hr).
  exists personKey, personCell, key, val.
  split; [reflexivity|]. split; [exact Hn|]. split; [now rewrite Hn|].
  split; [exact Hgr|]. split; [exact Hr|]. split; [exact Hin|].
  split; [exact Hp|]. split; [|auto].
  intros g c Ef. apply Hg. rewrite Ef. reflexivity.
Qed.

Lemma scanRow_without_person {strings : StringMethods} tz showCell parseDate r :
  (forall e, In e r -> isPersonHeader (fst e) = false) \/
  (exists personKey personCell,
     find (fun e => isPersonHeader (fst e)) r = Some (personKey, personCell) /\
     trim (String_ showCell personCell) = EmptyString) ->
  scanRow tz showCell parseDate r = [].
Proof.
  unfold scanRow. intros [Hnone|(personKey & personCell & -> & ->)].
  - destruct (find (fun e => isPersonHeader (fst e)) r) as [[k c]|] eqn:E;
      [|reflexivity].
    apply find_some in E. destruct E as [Hin Hk].
    rewrite (Hnone _ Hin) in Hk. discriminate.
  - reflexivity.
Qed.

(** X4. Every punch of [parseRawData] carries the trimmed, non-empty content of
    the first person column of a row of the table, that row itself, and the
    group of the row (its first group column, or Default); its time is read
    from a column of the row that is neither the person column, nor the
    group column, nor a summary column.  A row with no person column, or
    with a blank person, adds nothing to the stream.  Trimmed and blank are
    what [trim] of the platform makes of the cell, and the columns are
    told by the headers as [toLowerCase] of the platform returns them:
    the statement holds whatever the two return. *)
Theorem punch_provenance {strings : StringMethods} tz showCell parseDate :
  (forall jsonData rec,
     In rec (parseRawData tz showCell parseDate jsonData) ->
     exists r personKey personCell key val,
       In r jsonData /\ OriginalRow rec = r /\
       find (fun e => isPersonHeader (fst e)) r = Some (personKey, personCell) /\
       Pessoa rec = trim (String_ showCell personCell) /\
       Pessoa rec <> EmptyString /\
       Grupo rec = groupOfRow showCell r /\
       In (key, val) r /\ key <> personKey /\
       (forall g c, find (fun e => isGroupHeader (fst e)) r = Some (g, c) ->
          key <> g) /\
       isSummaryHeader key = false /\
       cellDate parseDate val = Some (DataHora rec)) /\
  (forall before r after,
     (forall e, In e r -> isPersonHeader (fst e) = false) \/
     (exists personKey personCell,
        find (fun e => isPersonHeader (fst e)) r = Some (personKey, personCell) /\
        trim (String_ showCell personCell) = EmptyString) ->
     parseRawData tz showCell parseDate (before ++ r :: after)
     = parseRawData tz showCell parseDate (before ++ after)).
Proof.
  split.
  - intros jsonData rec H. unfold parseRawData in H. apply jsSort_In in H.
    apply in_flat_map in H. destruct H as (r & Hr & H).
    apply scanRow_provenance in H.
    destruct H as (personKey & personCell & key & val & H1 & H2 & H3 & H4 & H5 & H).
    exists r, personKey, personCell, key, val.
    split; [exact Hr|]. split; [exact H5|]. split; [exact H1|].
    split; [exact H2|]. split; [exact H3|]. split; [exact H4|]. exact H.
  - intros before r after Hr. unfold parseRawData.
    rewrite !flat_map_app. cbn [flat_map].
    rewrite (scanRow_without_person tz showCell parseDate r Hr). reflexivity.
Qed.


(** ** Short shifts at the bottom *)

(** A comparator that only tells two classes apart, the second one after
    the first, makes the stable sort a stable partition. *)
Section TwoClasses.
Context {A : Type} (late : A -> bool).
Variable compareFn : A -> A -> Q.
Hypothesis compareFn_le :
  forall x y, Qle_bool (compareFn x y) 0 = negb (late x && negb (late y)).

Lemma insertSorted_early x l :
  late x = false -> insertSorted compareFn x l = x :: l.
Proof.
  intros Hx. destruct l as [|y l]; [reflexivity|].
  cbn [insertSorted]. rewrite compareFn_le, Hx. reflexivity.
Qed.

Lemma insertSorted_late x early lates :
  late x = true ->
  Forall (fun y => late y = false) early ->
  Forall (fun y => late y = true) lates ->
  insertSorted compareFn x (early ++ lates) = early ++ x :: lates.
Proof.
  intros Hx Hearly Hlates. induction Hearly as [|y early Hy _ IH].
  - destruct lates as [|y lates]; [reflexivity|].
    cbn [app insertSorted]. rewrite compareFn_le, Hx.
    inversion Hlates as [|? ? Hy _]. rewrite Hy. reflexivity.
  - cbn [app insertSorted]. rewrite compareFn_le, Hx, Hy. cbn. now rewrite IH.
Qed.

Lemma jsSort_two_classes l :
  jsSort compareFn l = filter (fun x => negb (late x)) l ++ filter late l.
Proof.
  induction l as [|x l IH]; [reflexivity|].
  unfold jsSort. cbn [fold_right]. fold (jsSort compareFn l). rewrite IH.
  cbn [filter]. destruct (late x) eqn:Hx; cbn [negb].
  - apply insertSorted_late; [exact Hx| |].
    + apply Forall_forall. intros y Hy. apply filter_In in Hy.
      now apply negb_true_iff.
    + apply Forall_forall. intros y Hy. now apply filter_In in Hy.
  - now apply insertSorted_early.
Qed.
End TwoClasses.

Lemma sortShortShiftsToBottom_le a b :
  Qle_bool (sortShortShiftsToBottom a b) 0
  = negb (isShortWorked a && negb (isShortWorked b)).
Proof.
  unfold sortShortShiftsToBottom.
  destruct (isShortWorked a), (isShortWorked b); reflexivity.
Qed.

(** X5. Sorting with [sortShortShiftsToBottom] moves the shifts of at most one
    worked hour behind all the others and changes nothing else: the result
    is the shifts above one hour in their original order, followed by the
    shifts of at most one hour in their original order.  This is the order
    of the rows of [exportSingleSheet]; a list with no such shift, or with
    only such shifts, is left as it is. *)
Theorem short_shifts_to_bottom data :
  exportSingleSheet data
  = filter (fun shift => negb (isShortWorked shift)) data
    ++ filter isShortWorked data /\
  (forallb (fun shift => negb (isShortWorked shift)) data = true ->
   exportSingleSheet data = data) /\
  (forallb isShortWorked data = true -> exportSingleSheet data = data).
Proof.
  assert (E : exportSingleSheet data
              = filter (fun shift => negb (isShortWorked shift)) data
                ++ filter isShortWorked data).
  { unfold exportSingleSheet.
    apply (jsSort_two_classes isShortWorked), sortShortShiftsToBottom_le. }
  split; [exact E|]. rewrite E. split; intros Hall.
  - rewrite forallb_forall in Hall.
    rewrite (filter_all _ data), (filter_none isShortWorked data).
    + apply app_nil_r.
    + intros shift Hin. apply negb_true_iff. auto.
    + exact Hall.
  - rewrite forallb_forall in Hall.
    rewrite (filter_all isShortWorked data),
      (filter_none (fun shift => negb (isShortWorked shift)) data).
    + reflexivity.
    + intros shift Hin. rewrite (Hall _ Hin). reflexivity.
    + exact Hall.
Qed.

(** ** The three turns *)


Lemma pushTurn_turnOf tz turns shift :
  pushTurn tz turns shift
  = {| morning := morning turns ++ filter (isTurn tz Morning) [shift];
       afternoon := afternoon turns ++ filter (isTurn tz Afternoon) [shift];
       night := night turns ++ filter (isTurn tz Night) [shift] |}.
Proof.
  unfold pushTurn, isTurn, turnOf. cbn [filter].
  replace (getHours tz (startTime shift) <=? 12)
    with (getHours tz (startTime shift) <? 13) by lia.
  replace (getHours tz (startTime shift) <=? 17)
    with (getHours tz (startTime shift) <? 18) by lia.
  replace (5 <=? getHours tz (startTime shift))
    with (getHours tz (startTime shift) >=? 5) by lia.
  replace (13 <=? getHours tz (startTime shift))
    with (getHours tz (startTime shift) >=? 13) by lia.
  destruct ((getHours tz (startTime shift) >=? 5)
            && (getHours tz (startTime shift) <? 13)).
  - now rewrite !app_nil_r.
  - destruct ((getHours tz (startTime shift) >=? 13)
              && (getHours tz (startTime shift) <? 18)); now rewrite !app_nil_r.
Qed.

Lemma fold_pushTurn tz data turns :
  fold_left (pushTurn tz) data turns
  = {| morning := morning turns ++ filter (isTurn tz Morning) data;
       afternoon := afternoon turns ++ filter (isTurn tz Afternoon) data;
       night := night turns ++ filter (isTurn tz Night) data |}.
Proof.
  revert turns. induction data as [|shift data IH]; intros turns.
  - cbn. rewrite !app_nil_r. now destruct turns.
  - cbn [fold_left]. rewrite IH, pushTurn_turnOf. cbn [morning afternoon night].
    rewrite <- !app_assoc.
    change (shift :: data) with ([shift] ++ data). now rewrite !filter_app.
Qed.

Lemma turns_perm tz data :
  Permutation (filter (isTurn tz Morning) data
               ++ filter (isTurn tz Afternoon) data
               ++ filter (isTurn tz Night) data) data.
Proof.
  induction data as [|shift data IH]; [apply Permutation_refl|].
  cbn [filter].
  assert (HM : isTurn tz Morning shift
               = match turnOf tz shift with Morning => true | _ => false end)
    by reflexivity.
  assert (HA : isTurn tz Afternoon shift
               = match turnOf tz shift with Afternoon => true | _ => false end)
    by reflexivity.
  assert (HN : isTurn tz Night shift
               = match turnOf tz shift with Night => true | _ => false end)
    by reflexivity.
  rewrite HM, HA, HN. destruct (turnOf tz shift).
  - cbn [app]. apply perm_skip, IH.
  - cbn [app]. symmetry. apply Permutation_cons_app. symmetry. exact IH.
  - rewrite app_assoc. symmetry. apply Permutation_cons_app.
    rewrite <- app_assoc. symmetry. exact IH.
Qed.

(** X6. The separation by turn of the export and of the turn view put every
    shift in exactly one of three lists, by the local hour of its start
    alone, and keep the order of the input inside each list: the lists are
    the shifts of the morning, of the afternoon and of the night, and
    together they are a rearrangement of the input.  The turn agrees with
    the branch of [getLunchWindow]: a shift is in the morning list exactly
    when its lunch window opens at 10:30 of the day of its start, and in
    the afternoon list exactly when it opens at 17:30 of that day. *)
Theorem turns_partition tz data :
  let turns := getCategorizedData tz data in
  morning turns = filter (isTurn tz Morning) data /\
  afternoon turns = filter (isTurn tz Afternoon) data /\
  night turns = filter (isTurn tz Night) data /\
  Permutation (morning turns ++ afternoon turns ++ night turns) data /\
  (forall shift,
     (isTurn tz Morning shift = true <->
      fst (getLunchWindow tz (startTime shift))
      = setDateTime tz (startTime shift) 10 30) /\
     (isTurn tz Afternoon shift = true <->
      fst (getLunchWindow tz (startTime shift))
      = setDateTime tz (startTime shift) 17 30)).
Proof.
  cbv zeta. unfold getCategorizedData. rewrite fold_pushTurn.
  cbn [morning afternoon night app].
  split; [reflexivity|]. split; [reflexivity|]. split; [reflexivity|].
  split; [apply turns_perm|].
  intros shift. unfold isTurn, turnOf, getLunchWindow, setDateTime, setHours, addDays.
  set (d := startTime shift).
  assert (Hday : localDay tz (d + 1 * msPerDay) = localDay tz d + 1).
  { unfold localDay, localMs.
    replace (d + 1 * msPerDay + tz) with (d + tz + 1 * msPerDay) by lia.
    now rewrite Z.div_add by (unfold msPerDay; lia). }
  unfold msPerDay, msPerHour, msPerMinute in *.
  destruct (Z.leb_spec 5 (getHours tz d)), (Z.leb_spec (getHours tz d) 12),
    (Z.leb_spec 13 (getHours tz d)), (Z.leb_spec (getHours tz d) 17),
    (Z.ltb_spec (getHours tz d) 13), (Z.ltb_spec (getHours tz d) 18),
    (Z.geb_spec (getHours tz d) 5), (Z.geb_spec (getHours tz d) 13),
    (Z.geb_spec (getHours tz d) 18);
    cbn [andb fst]; try lia;
    (split; split; intros Heq; try reflexivity; try discriminate;
     try rewrite Hday in Heq; lia).
Qed.

(** X7. The sheets of [exportShiftsByCategory] hold, for each turn, the shifts
    of that turn above one worked hour in the order of the input, then the
    shifts of that turn of at most one worked hour in the order of the
    input; no shift is lost or repeated over the three sheets. *)
Theorem exportShiftsByCategory_sheets tz data :
  let sheets := exportShiftsByCategory tz data in
  let sheetOf turn :=
    filter (fun shift => isTurn tz turn shift && negb (isShortWorked shift)) data
    ++ filter (fun shift => isTurn tz turn shift && isShortWorked shift) data in
  morning sheets = sheetOf Morning /\
  afternoon sheets = sheetOf Afternoon /\
  night sheets = sheetOf Night /\
  Permutation (morning sheets ++ afternoon sheets ++ night sheets) data.
Proof.
  cbv zeta.
  assert (Hsheet : forall turn,
            jsSort sortShortShiftsToBottom (filter (isTurn tz turn) data)
            = filter (fun shift => isTurn tz turn shift && negb (isShortWorked shift)) data
              ++ filter (fun shift => isTurn tz turn shift && isShortWorked shift) data).
  { intros turn.
    rewrite (jsSort_two_classes isShortWorked sortShortShiftsToBottom
               sortShortShiftsToBottom_le).
    now rewrite !filter_filter. }
  unfold exportShiftsByCategory. rewrite fold_pushTurn.
  cbn [morning afternoon night app].
  split; [apply Hsheet|]. split; [apply Hsheet|]. split; [apply Hsheet|].
  rewrite <- (turns_perm tz data) at 4.
  repeat apply Permutation_app; apply jsSort_perm.
Qed.

(** ** Cross-check of two files *)

Section IntersectionFacts.
Variable showCell : cell -> string.









End IntersectionFacts.


(** ** Merge of several files *)

Lemma push_rows (rows allRows : list row) :
  fold_left (fun allRows r => allRows ++ [r]) rows allRows = allRows ++ rows.
Proof.
  revert allRows. induction rows as [|r rows IH]; intros allRows; cbn.
  - now rewrite app_nil_r.
  - now rewrite IH, <- app_assoc.
Qed.

Lemma push_files (results : list (list row)) allRows :
  fold_left (fun allRows rows =>
               fold_left (fun allRows r => allRows ++ [r]) rows allRows)
            results allRows
  = allRows ++ List.concat results.
Proof.
  revert allRows. induction results as [|rows results IH]; intros allRows; cbn.
  - now rewrite app_nil_r.
  - now rewrite IH, push_rows, <- app_assoc.
Qed.

(** X9. [mergeFiles] fails exactly when every file is empty (in particular
    when there is no file); otherwise the merged sheet holds the rows of
    the files one file after the other, each file in its own order, and
    the reported count is the sum of the numbers of rows of the files. *)
Theorem mergeFiles_concatenates results :
  (mergeFiles results = None <-> forall rows, In rows results -> rows = []) /\
  (forall merged count,
     mergeFiles results = Some (merged, count) ->
     merged = List.concat results /\
     count = list_sum (map (@List.length row) results) /\
     (0 < count)%nat).
Proof.
  unfold mergeFiles. rewrite push_files. cbn [app].
  assert (Hlen : forall l : list (list row),
            List.length (List.concat l) = list_sum (map (@List.length row) l)).
  { induction l as [|x l IH]; [reflexivity|]. cbn. now rewrite length_app, IH. }
  assert (Hnil : forall l : list (list row),
            List.concat l = [] <-> forall rows, In rows l -> rows = []).
  { induction l as [|x l IH]; cbn.
    - split; [intros _ rows []|reflexivity].
    - split.
      + intros H. apply app_eq_nil in H. destruct H as [-> H].
        intros rows [<-|Hin]; [reflexivity|]. now apply IH.
      + intros H. rewrite (H x (or_introl eq_refl)). apply IH.
        intros rows Hin. apply H. now right. }
  destruct (Nat.eqb_spec (List.length (List.concat results)) 0) as [E|E]; split.
  - split; [intros _|reflexivity]. apply Hnil.
    now apply length_zero_iff_nil.
  - discriminate.
  - split; [discriminate|]. intros H. apply Hnil in H. rewrite H in E.
    now contradiction E.
  - intros merged count [= <- <-]. split; [reflexivity|].
    split; [apply Hlen|lia].
Qed.

(** ** The list of files to merge *)

Section FileListFacts.
Context {File : Type}.

Lemma removeAt_length index (l : list File) :
  List.length (removeAt index l)
  = if (index <? List.length l)%nat then pred (List.length l) else List.length l.
Proof.
  revert index. induction l as [|x l IH]; intros index;
    [now destruct index|].
  destruct index as [|n]; [reflexivity|]. cbn [removeAt List.length].
  rewrite IH. change (S n <? S (List.length l))%nat with (n <? List.length l)%nat.
  destruct (Nat.ltb_spec n (List.length l)); [|reflexivity].
  destruct l; [cbn in *; lia|reflexivity].
Qed.

Lemma handleFileSelect_length (prev newFiles : list File) :
  (List.length prev <= 5)%nat ->
  (List.length (handleFileSelect prev newFiles) <= 5)%nat.
Proof.
  intros H. unfold handleFileSelect. destruct newFiles as [|f newFiles]; [exact H|].
  destruct (Nat.ltb_spec 5 (List.length (prev ++ f :: newFiles))).
  - rewrite length_firstn. lia.
  - lia.
Qed.

Lemma applyAction_length (files : list File) a :
  (List.length files <= 5)%nat -> (List.length (applyAction files a) <= 5)%nat.
Proof.
  intros H. destruct a as [newFiles|index|mergedFile|]; cbn [applyAction].
  - now apply handleFileSelect_length.
  - unfold removeFile. rewrite removeAt_length.
    destruct (index <? List.length files)%nat; lia.
  - cbn. lia.
  - cbn. lia.
Qed.

End FileListFacts.

(** X10. Whatever files are selected, removed or carried over, in any order,
    the merge view never holds more than five files.  A selection keeps the
    files already listed, in place, and adds the new ones after them as
    long as there is room: the files beyond the fifth are dropped.
    Removing at an index outside the list changes nothing. *)
Theorem file_list_at_most_five {File : Type} (actions : list (@FileAction File)) :
  (List.length (filesAfter actions) <= 5)%nat /\
  (forall newFiles,
     handleFileSelect (filesAfter actions) newFiles
     = firstn 5 (filesAfter actions ++ newFiles)) /\
  (forall index,
     (List.length (filesAfter actions) <= index)%nat ->
     removeFile index (filesAfter actions) = filesAfter actions).
Proof.
  assert (Hlen : (List.length (@filesAfter File actions) <= 5)%nat).
  { unfold filesAfter.
    assert (H : forall files : list File,
              (List.length files <= 5)%nat ->
              (List.length (fold_left applyAction actions files) <= 5)%nat).
    { induction actions as [|a actions IH]; intros files Hfiles; [exact Hfiles|].
      cbn [fold_left]. apply IH. now apply applyAction_length. }
    apply H. cbn. lia. }
  split; [exact Hlen|]. split.
  - intros newFiles. unfold handleFileSelect.
    destruct newFiles as [|f newFiles].
    + rewrite app_nil_r. symmetry. now apply firstn_all2.
    + destruct (Nat.ltb_spec 5 (List.length (filesAfter actions ++ f :: newFiles)));
        [reflexivity|]. symmetry. now apply firstn_all2.
  - intros index. unfold removeFile. generalize (filesAfter actions).
    intros l. revert index. induction l as [|x l IH]; intros index H;
      [now destruct index|].
    destruct index as [|n]; [cbn in H; lia|]. cbn [removeAt].
    rewrite IH; [reflexivity|]. cbn in H. lia.
Qed.

(** ** The kind of lunch of a shift *)

(** X11. The calculation of one shift always returns, and the kind of lunch it
    reports follows from the punches: EXTENDED_CAPPED is never produced;
    the lunch bounds are null exactly when the kind is NONE; the kind is
    NORMAL exactly when the shift is not short and some gap between
    consecutive punches has a qualifying duration, and the lunch is then
    one of these gaps, from one punch to the next one; a lunch is made up
    (ARTIFICIAL) only when the shift is not short and no gap qualifies. *)
Theorem lunch_type_decision tz random person config start rest i :
  let punches := start :: rest in
  let qualifying :=
    filter (durationWithin (lunchMinDuration config) (lunchMaxDuration config))
           (findGaps punches) in
  exists shift j,
    calculateSingleShift tz random person punches config i = Some (shift, j) /\
    lunchType shift <> EXTENDED_CAPPED /\
    (lunchType shift = NONE <-> lunchStart shift = None) /\
    (lunchStart shift = None <-> lunchEnd shift = None) /\
    (lunchType shift = NORMAL <->
     isShortShift punches = false /\ qualifying <> []) /\
    (lunchType shift = NORMAL ->
     exists g before after,
       In g qualifying /\
       lunchStart shift = Some (gstart g) /\ lunchEnd shift = Some (gend g) /\
       punches = before ++ gstart g :: gend g :: after) /\
    (lunchType shift = ARTIFICIAL ->
     isShortShift punches = false /\ qualifying = []).
Proof.
  cbv zeta.
  destruct (calculateSingleShift_total tz random config person (start :: rest) i)
    as (shift & j & E); [discriminate|].
  exists shift, j. split; [exact E|].
  destruct (calculateSingleShift_inv _ _ _ _ _ _ _ _ _ E)
    as [(Hs & -> & _) | [(Hs & g & Hg & -> & _) | (Hs & Hnil & H)]].
  - cbn [incompleteShift lunchType lunchStart lunchEnd].
    split; [discriminate|]. split; [tauto|]. split; [tauto|].
    split; [split; [discriminate|intros [H _]; congruence]|].
    split; discriminate.
  - cbn [lunchType lunchStart lunchEnd completeShift].
    pose proof (selectStandardLunch_In _ _ _ _ Hg) as Hin.
    split; [discriminate|].
    split; [split; discriminate|]. split; [split; discriminate|].
    split; [split; [intros _; split; [exact Hs|]|reflexivity]|].
    { intros Enil. rewrite Enil in Hin. exact Hin. }
    split; [|discriminate]. intros _.
    destruct (findGaps_In (start :: rest) g) as ((l1 & l2 & Hp) & _).
    { apply filter_In in Hin. apply Hin. }
    exists g, l1, l2. auto.
  - cbv zeta in H.
    destruct H as [(_ & off & _ & -> & _) | (_ & -> & _)];
      cbn [lunchType lunchStart lunchEnd completeShift].
    + split; [discriminate|].
      split; [split; discriminate|]. split; [split; discriminate|].
      split; [split; [discriminate|intros [_ H]; contradiction]|].
      split; [discriminate|]. auto.
    + split; [discriminate|]. split; [tauto|]. split; [tauto|].
      split; [split; [discriminate|intros [_ H]; contradiction]|].
      split; discriminate.
Qed.

(** ** The random draws of a shift *)


(** X12. The calculation of a shift draws at most two random numbers: none if
    the shift is short or has a standard lunch, one if the made-up lunch
    does not fit, two if it is placed.  Chance decides neither the
    identifier, the person, the date nor the start and the end of the
    shift; a short shift and a shift with a standard lunch are the same
    whatever would be drawn; the kind of lunch depends on the first draw
    alone, and the shift on the two draws alone. *)
Theorem random_draws tz random1 random2 personName config start rest i1 i2 :
  let punches := start :: rest in
  exists shift1 j1 shift2 j2,
    calculateSingleShift tz random1 personName punches config i1 = Some (shift1, j1) /\
    calculateSingleShift tz random2 personName punches config i2 = Some (shift2, j2) /\
    j1 = (i1 + drawsOf punches shift1)%nat /\
    id shift1 = id shift2 /\ person shift1 = personName /\
    date shift1 = date shift2 /\
    startTime shift1 = startTime shift2 /\ endTime shift1 = endTime shift2 /\
    (isShortShift punches = true \/ lunchType shift1 = NORMAL -> shift1 = shift2) /\
    (rvalue (random1 i1) = rvalue (random2 i2) ->
     lunchType shift1 = lunchType shift2 /\
     (rvalue (random1 (S i1)) = rvalue (random2 (S i2)) -> shift1 = shift2)).
Proof.
  cbv zeta. unfold drawsOf, calculateSingleShift.
  rewrite <- isShortShift_cons.
  destruct (isShortShift (start :: rest)) eqn:Hs.
  - unfold ret. do 4 eexists. split; [reflexivity|]. split; [reflexivity|].
    cbn. rewrite Nat.add_0_r. repeat split; reflexivity.
  - destruct (getLunchWindow tz start) as [windowStart windowEnd].
    destruct (selectStandardLunch _ _ _) as [g|].
    + unfold ret. do 4 eexists. split; [reflexivity|]. split; [reflexivity|].
      cbn. rewrite Nat.add_0_r. repeat split; reflexivity.
    + unfold bind, artificialLunch, bind, mathRandom, ret. cbv zeta.
      destruct (_ >=? (60 + Qfloor (rvalue (random1 i1) * 6)) * 60 * 1000) eqn:E1;
        destruct (_ >=? (60 + Qfloor (rvalue (random2 i2) * 6)) * 60 * 1000) eqn:E2;
        do 4 eexists; (split; [reflexivity|]); (split; [reflexivity|]);
        cbn [lunchType completeShift id person date startTime endTime];
        (split; [lia|]); (split; [reflexivity|]); (split; [reflexivity|]);
        (split; [reflexivity|]); (split; [reflexivity|]); (split; [reflexivity|]);
        (split; [intros [H|H]; discriminate|]); intros Hr.
      * split; [reflexivity|]. intros Hr'. now rewrite Hr, Hr'.
      * rewrite Hr in E1. congruence.
      * rewrite Hr in E1. congruence.
      * split; reflexivity.
Qed.

(** ** The fallback of the lunch search *)

(** The head of a stable sort by a key is the first element of least
    key. *)
Lemma jsSort_head_first_minimum {A} (key : A -> Q) (compareFn : A -> A -> Q) l h :
  (forall x y, In x l -> In y l ->
     Qle_bool (compareFn x y) 0 = true <-> (key x <= key y)%Q) ->
  hd_error (jsSort compareFn l) = Some h ->
  exists before after,
    l = before ++ h :: after /\
    (forall y, In y before -> (key h < key y)%Q) /\
    (forall y, In y after -> (key h <= key y)%Q).
Proof.
  revert h. induction l as [|a l IH]; intros h Hkey; [discriminate|].
  unfold jsSort. cbn [fold_right]. fold (jsSort compareFn l).
  destruct (jsSort compareFn l) as [|h' t] eqn:E.
  - apply jsSort_nil_inv in E. subst. cbn. intros [= <-].
    exists [], []. split; [reflexivity|]. split; intros y [].
  - cbn [insertSorted].
    assert (Hh' : In h' l) by (apply (jsSort_In compareFn); rewrite E; now left).
    destruct (IH h') as (before & after & El & Hb & Ha);
      [intros x y Hx Hy; apply Hkey; now right|reflexivity|].
    destruct (Qle_bool (compareFn a h') 0) eqn:Ecmp; cbn [hd_error]; intros [= <-].
    + apply Hkey in Ecmp; [|now left|now right].
      exists [], l. split; [reflexivity|].
      split; [intros y []|]. intros y Hy. rewrite El in Hy. apply in_app_or in Hy.
      destruct Hy as [Hy|[<-|Hy]].
      * apply Qlt_le_weak. eapply Qle_lt_trans; [exact Ecmp|]. now apply Hb.
      * exact Ecmp.
      * eapply Qle_trans; [exact Ecmp|]. now apply Ha.
    + exists (a :: before), after. split; [now rewrite El|]. split; [|exact Ha].
      intros y [<-|Hy]; [|now apply Hb].
      apply Qnot_le_lt. intros Hle. apply Hkey in Hle; [congruence|now left|now right].
Qed.


Lemma compareMidpoints_key ws we punches a b :
  In a (findGaps punches) -> In b (findGaps punches) ->
  Qle_bool (compareMidpoints ws we a b) 0 = true
  <-> (middleDistance ws we a <= middleDistance ws we b)%Q.
Proof.
  intros Ha Hb. rewrite Qle_bool_iff.
  apply findGaps_In in Ha, Hb. destruct Ha as [_ Ha], Hb as [_ Hb].
  unfold compareMidpoints, middleDistance. cbv zeta. rewrite Ha, Hb.
  assert (Hmid : forall g : Gap,
            (inject_Z (gstart g) + inject_Z (gend g - gstart g) / 60000 * 60 * 1000 / 2
             == (inject_Z (gstart g) + inject_Z (gend g)) / 2)%Q).
  { intros g. unfold Zminus. rewrite inject_Z_plus, inject_Z_opp. field. }
  rewrite !Hmid. split; intros H; lra.
Qed.

(** X13. When two or more gaps qualify and none of them lies inside the meal
    window, the lunch of the shift is the qualifying gap whose middle is
    nearest to the middle of the window: every qualifying gap before it is
    strictly farther, every one after it at least as far. *)
Theorem nearest_middle_fallback tz random personName config start rest i :
  let punches := start :: rest in
  let window := getLunchWindow tz start in
  let qualifying :=
    filter (durationWithin (lunchMinDuration config) (lunchMaxDuration config))
           (findGaps punches) in
  isShortShift punches = false ->
  (2 <= List.length qualifying)%nat ->
  filter (insideWindowB (fst window) (snd window)) qualifying = [] ->
  exists g before after,
    qualifying = before ++ g :: after /\
    (forall g', In g' before ->
       (middleDistance (fst window) (snd window) g
        < middleDistance (fst window) (snd window) g')%Q) /\
    (forall g', In g' after ->
       (middleDistance (fst window) (snd window) g
        <= middleDistance (fst window) (snd window) g')%Q) /\
    calculateSingleShift tz random personName punches config i
    = Some (completeShift tz personName start (last punches start)
              (Some (gstart g)) (Some (gend g)) NORMAL, i).
Proof.
  cbv zeta. intros Hs Hlen Hinside.
  unfold calculateSingleShift. rewrite <- isShortShift_cons, Hs.
  destruct (getLunchWindow tz start) as [windowStart windowEnd].
  cbn [fst snd] in *.
  set (qualifying :=
         filter (durationWithin (lunchMinDuration config) (lunchMaxDuration config))
                (findGaps (start :: rest))) in *.
  assert (Hsel : selectStandardLunch windowStart windowEnd qualifying
                 = hd_error (jsSort (compareMidpoints windowStart windowEnd) qualifying)).
  { unfold selectStandardLunch.
    destruct qualifying as [|g1 [|g2 l]]; [cbn in Hlen; lia ..|].
    now rewrite Hinside. }
  rewrite Hsel.
  destruct (hd_error (jsSort (compareMidpoints windowStart windowEnd) qualifying))
    as [g|] eqn:Ehd.
  - destruct (jsSort_head_first_minimum (middleDistance windowStart windowEnd)
                (compareMidpoints windowStart windowEnd) qualifying g)
      as (before & after & El & Hb & Ha); [|exact Ehd|].
    + intros x y Hx Hy. apply compareMidpoints_key with (punches := start :: rest).
      * apply filter_In in Hx. apply Hx.
      * apply filter_In in Hy. apply Hy.
    + exists g, before, after. auto.
  - destruct (jsSort (compareMidpoints windowStart windowEnd) qualifying) eqn:E;
      [|discriminate].
    apply jsSort_nil_inv in E. rewrite E in Hlen. cbn in Hlen. lia.
Qed.


(** ** The shifts of a person do not overlap *)

Lemma StronglySorted_app {A} (R : A -> A -> Prop) l1 l2 :
  StronglySorted R l1 -> StronglySorted R l2 ->
  (forall x y, In x l1 -> In y l2 -> R x y) ->
  StronglySorted R (l1 ++ l2).
Proof.
  intros H1 H2 H12. induction H1 as [|x l1 H1 IH Hx]; [exact H2|].
  cbn. constructor.
  - apply IH. intros a b Ha Hb. apply H12; [now right|exact Hb].
  - apply Forall_app. split; [exact Hx|].
    apply Forall_forall. intros y Hy. apply H12; [now left|exact Hy].
Qed.

Lemma StronglySorted_flat_map {A B} (Rg : A -> A -> Prop) (R : B -> B -> Prop)
    (f : A -> list B) groups :
  StronglySorted Rg groups ->
  (forall g, In g groups -> StronglySorted R (f g)) ->
  (forall g1 g2 x y, In g1 groups -> In g2 groups ->
     Rg g1 g2 -> In x (f g1) -> In y (f g2) -> R x y) ->
  StronglySorted R (flat_map f groups).
Proof.
  intros Hs. induction Hs as [|g groups Hs IH Hg]; intros Hin Hcross;
    [constructor|].
  cbn [flat_map]. apply StronglySorted_app.
  - apply Hin. now left.
  - apply IH.
    + intros g' Hg'. apply Hin. now right.
    + intros g1 g2 x y H1 H2. apply Hcross; now right.
  - intros x y Hx Hy. apply in_flat_map in Hy. destruct Hy as (g' & Hg' & Hy).
    rewrite Forall_forall in Hg.
    apply (Hcross g g'); [now left|now right|now apply Hg|exact Hx|exact Hy].
Qed.

Lemma Forall2_In_l {A B} (P : A -> B -> Prop) l l' x :
  Forall2 P l l' -> In x l -> exists x', In x' l' /\ P x x'.
Proof.
  intros H. induction H as [|a a' l l' Ha H IH]; [intros []|].
  intros [<-|Hx]; [exists a'; split; [now left|exact Ha]|].
  destruct (IH Hx) as (x' & Hx' & Px). exists x'. split; [now right|exact Px].
Qed.

Lemma Forall2_In_r {A B} (P : A -> B -> Prop) l l' x' :
  Forall2 P l l' -> In x' l' -> exists x, In x l /\ P x x'.
Proof.
  intros H. induction H as [|a a' l l' Ha H IH]; [intros []|].
  intros [<-|Hx]; [exists a; split; [now left|exact Ha]|].
  destruct (IH Hx) as (x & Hx' & Px). exists x. split; [now right|exact Px].
Qed.

Lemma Forall2_strengthen_l {A B} (P : A -> B -> Prop) (Q : A -> Prop) l l' :
  Forall2 P l l' -> (forall x, In x l -> Q x) ->
  Forall2 (fun x y => Q x /\ P x y) l l'.
Proof.
  intros H. induction H as [|x y l l' Hxy H IH]; intros HQ; constructor.
  - split; [apply HQ; now left|exact Hxy].
  - apply IH. intros x' Hx'. apply HQ. now right.
Qed.

Lemma Forall2_StronglySorted {A B} (P : A -> B -> Prop) (R : A -> A -> Prop)
    (R' : B -> B -> Prop) l l' :
  Forall2 P l l' ->
  (forall x y x' y', In x l -> In y l -> P x x' -> P y y' -> R x y -> R' x' y') ->
  StronglySorted R l -> StronglySorted R' l'.
Proof.
  intros H. induction H as [|x x' l l' Hx H IH]; intros Himp Hs; [constructor|].
  inversion Hs as [|? ? Hs' Hall]; subst. constructor.
  - apply IH; [|exact Hs'].
    intros a b a' b' Ha Hb. apply Himp; now right.
  - rewrite Forall_forall in Hall. apply Forall_forall. intros y' Hy'.
    destruct (Forall2_In_r _ _ _ _ H Hy') as (y & Hy & Py).
    apply (Himp x y); [now left|now right|exact Hx|exact Py|now apply Hall].
Qed.


(** A punch that is refused by a shift is later than the last punch of
    the shift. *)
Lemma staysInShift_false_later thresholdHours maxHours first lastPunch punch :
  (0 <= thresholdHours)%Q ->
  (hoursBetween lastPunch first <= maxHours)%Q ->
  staysInShift thresholdHours maxHours first lastPunch punch = false ->
  lastPunch < punch.
Proof.
  intros HT Hcap H. unfold staysInShift in H. apply andb_false_iff in H.
  destruct H as [H|H].
  - assert (Hlt : (thresholdHours < hoursBetween punch lastPunch)%Q).
    { apply Qnot_le_lt. intros Hle. apply Qle_bool_iff in Hle. congruence. }
    assert (H0 : (0 < hoursBetween punch lastPunch)%Q)
      by (eapply Qle_lt_trans; eassumption).
    revert H0. unfold hoursBetween, msPerHour, Qlt. cbn. date_lia.
  - assert (Hlt : (maxHours < hoursBetween punch first)%Q).
    { apply Qnot_le_lt. intros Hle. apply Qle_bool_iff in Hle. congruence. }
    assert (H0 : (hoursBetween lastPunch first < hoursBetween punch first)%Q)
      by (eapply Qle_lt_trans; eassumption).
    revert H0. unfold hoursBetween, msPerHour, Qlt. cbn. date_lia.
Qed.


Section SegmentOrder.
Context {A : Type} (time : A -> Date) (thresholdHours maxHours : Q).
Hypothesis threshold_nonneg : (0 <= thresholdHours)%Q.
Hypothesis max_nonneg : (0 <= maxHours)%Q.

Lemma segments_disjoint items : forall current,
  StronglySorted (fun a b => time a <= time b) (current ++ items) ->
  withinCap time maxHours current ->
  StronglySorted (endsBefore time)
                 (segments time thresholdHours maxHours items current).
Proof.
  induction items as [|x rest IH]; intros current Hs Hcap.
  - cbn. destruct current; repeat constructor.
  - cbn [segments]. destruct current as [|first tl].
    + apply IH; [exact Hs|]. now apply withinCap_one.
    + destruct (staysInShift _ _ _ _ _) eqn:E.
      * apply IH.
        -- now rewrite <- app_assoc.
        -- cbn [app withinCap].
           change (first :: tl ++ [x]) with ((first :: tl) ++ [x]).
           rewrite last_snoc. unfold staysInShift in E.
           apply andb_true_iff in E. destruct E as [_ E].
           now apply Qle_bool_iff in E.
      * pose proof (staysInShift_false_later _ _ _ _ _ threshold_nonneg Hcap E)
          as Hlater.
        destruct (StronglySorted_app_inv _ _ _ Hs) as (Hcur & Hrest & _).
        constructor.
        -- apply IH; [exact Hrest|]. now apply withinCap_one.
        -- apply Forall_forall. intros seg Hseg a b Ha Hb.
           assert (Hb' : In b (x :: rest)).
           { change (x :: rest) with ([x] ++ rest).
             rewrite <- (segments_concat time thresholdHours maxHours rest [x]).
             apply in_concat. now exists seg. }
           assert (Hxb : time x <= time b).
           { destruct Hb' as [<-|Hb']; [lia|].
             inversion Hrest as [|? ? _ Hall]; subst.
             rewrite Forall_forall in Hall. now apply Hall. }
           assert (Hal : time a <= time (last (first :: tl) first))
             by now apply sorted_In_le_last.
           date_lia.
Qed.
End SegmentOrder.


Lemma pushGroup_keys_sorted r groups :
  StronglySorted keyLt groups ->
  (forall g, In g groups ->
     String.ltb (fst g) (Pessoa r) = true \/ fst g = Pessoa r) ->
  StronglySorted keyLt (pushGroup r groups).
Proof.
  intros Hs. induction Hs as [|[k l] groups Hs IH Hk]; intros Hle.
  - cbn. repeat constructor.
  - cbn [pushGroup]. destruct (String.eqb_spec k (Pessoa r)) as [E|E].
    + constructor; [exact Hs|exact Hk].
    + constructor.
      * apply IH. intros g Hg. apply Hle. now right.
      * apply Forall_forall. intros [k' l'] Hin. unfold keyLt. cbn [fst].
        apply pushGroup_In in Hin. destruct Hin as [Hin|[-> _]].
        -- rewrite Forall_forall in Hk. apply (Hk _ Hin).
        -- destruct (Hle (k, l) (or_introl eq_refl)) as [H|H]; [exact H|].
           cbn in H. contradiction.
Qed.

Lemma groupKeys_fold rest : forall seen groups,
  StronglySorted recordLe (seen ++ rest) ->
  groupsOf seen groups ->
  StronglySorted keyLt groups ->
  StronglySorted keyLt (fold_left (fun g r => pushGroup r g) rest groups).
Proof.
  induction rest as [|r rest IH]; intros seen groups Hs Hg Hk; [exact Hk|].
  cbn [fold_left].
  assert (Hs' : StronglySorted recordLe ((seen ++ [r]) ++ rest))
    by now rewrite <- app_assoc.
  apply (IH (seen ++ [r])); [exact Hs'| |].
  - apply (groupsOf_fold [r] seen groups); [|exact Hg].
    now apply StronglySorted_app_inv in Hs'.
  - apply pushGroup_keys_sorted; [exact Hk|].
    intros [k l] Hin. cbn [fst]. destruct (Hg k l Hin) as (Hne & Hall & _).
    destruct l as [|x l]; [congruence|].
    inversion Hall as [|? ? [Hx Hseen] _]; subst.
    destruct (StronglySorted_app_inv _ _ _ Hs) as (_ & _ & Hcross).
    destruct (Hcross x r Hseen (or_introl eq_refl)) as [H|[H _]]; auto.
Qed.

Lemma groupByPerson_keys_sorted records :
  StronglySorted recordLe records ->
  StronglySorted keyLt (groupByPerson records).
Proof.
  intros Hs. apply (groupKeys_fold records [] []); [exact Hs| |constructor].
  intros k l [].
Qed.

Section OneShiftPerSegment.
Variables (tz : Z) (random : nat -> Random01) (config : ProcessingConfig).

Lemma forEachM_pushShift_Forall2 personName segs : forall shifts i out j,
  forEachM (pushShift tz random config personName) segs shifts i = Some (out, j) ->
  exists new,
    out = shifts ++ new /\
    Forall2 (calculatedFrom tz random config personName) segs new.
Proof.
  induction segs as [|seg segs IH]; intros shifts i out j H.
  - cbn in H. inversion H; subst. exists []. split; [now rewrite app_nil_r|constructor].
  - cbn [forEachM] in H. apply bind_Some in H.
    destruct H as (shifts' & i' & H1 & H2).
    unfold pushShift in H1. apply bind_Some in H1.
    destruct H1 as (s & i'' & H1 & H1'). inversion H1'; subst.
    destruct (IH _ _ _ _ H2) as (new & -> & Hall).
    exists (s :: new). split; [now rewrite <- app_assoc|].
    constructor; [now exists i, i'|exact Hall].
Qed.

Lemma forEachM_processPerson_Forall2 groups : forall shifts i out j,
  forEachM (processPerson tz random config) groups shifts i = Some (out, j) ->
  exists new,
    out = shifts ++ new /\
    Forall2 (fun entry shift =>
               calculatedFrom tz random config (fst entry) (snd entry) shift)
            (personSegments config groups) new.
Proof.
  induction groups as [|[personName personRecords] groups IH];
    intros shifts i out j H.
  - cbn in H. inversion H; subst. exists []. split; [now rewrite app_nil_r|constructor].
  - cbn [forEachM] in H. apply bind_Some in H.
    destruct H as (shifts' & i' & H1 & H2).
    rewrite processPerson_segments in H1.
    destruct (forEachM_pushShift_Forall2 _ _ _ _ _ _ H1) as (new1 & -> & Hall1).
    destruct (IH _ _ _ _ H2) as (new2 & -> & Hall2).
    exists (new1 ++ new2). split; [now rewrite app_assoc|].
    cbn [personSegments flat_map fst snd]. apply Forall2_app; [|exact Hall2].
    clear - Hall1. induction Hall1; cbn; constructor; assumption.
Qed.

Lemma calculatedFrom_endpoints personName start rest shift :
  calculatedFrom tz random config personName (start :: rest) shift ->
  person shift = personName /\ startTime shift = start /\
  endTime shift = last (start :: rest) start.
Proof.
  intros (i & j & E).
  destruct (calculateSingleShift_endpoints _ _ _ _ _ _ _ _ _ E) as [Hs He].
  split; [|split; assumption].
  destruct (calculateSingleShift_inv _ _ _ _ _ _ _ _ _ E)
    as [(_ & -> & _) | [(_ & g & _ & -> & _) | (_ & _ & Hart)]];
    [reflexivity .. |].
  cbv zeta in Hart.
  destruct Hart as [(_ & off & _ & -> & _) | (_ & -> & _)]; reflexivity.
Qed.

End OneShiftPerSegment.


Lemma personSegments_In config groups e :
  In e (personSegments config groups) ->
  exists personRecords,
    In (fst e, personRecords) groups /\
    In (snd e) (segments (fun d => d) (shiftThresholdHours config) 18
                         (map DataHora personRecords) []).
Proof.
  unfold personSegments. intros H. apply in_flat_map in H.
  destruct H as ([k l] & Hg & H). apply in_map_iff in H.
  destruct H as (seg & <- & Hseg). exists l. auto.
Qed.

Lemma personSegments_ordered config records :
  (0 <= shiftThresholdHours config)%Q ->
  StronglySorted recordLe records ->
  StronglySorted segmentBefore (personSegments config (groupByPerson records)).
Proof.
  intros HT Hs. unfold personSegments.
  apply StronglySorted_flat_map with (Rg := keyLt).
  - now apply groupByPerson_keys_sorted.
  - intros [k l] Hg. cbn [fst snd]. apply StronglySorted_map.
    destruct (groupByPerson_sorted records k l Hs Hg) as (_ & _ & Hsorted).
    eapply StronglySorted_weaken;
      [|apply (segments_disjoint (fun d : Date => d) (shiftThresholdHours config) 18
                 HT ltac:(discriminate) (map DataHora l) [] Hsorted I)].
    intros s1 s2 H. right. split; [reflexivity|exact H].
  - intros [k1 l1] [k2 l2] x y _ _ Hlt Hx Hy. cbn [fst snd] in *.
    apply in_map_iff in Hx, Hy.
    destruct Hx as (s1 & <- & _), Hy as (s2 & <- & _). left. exact Hlt.
Qed.


Lemma processTimesheet_structure {strings : StringMethods} tz random showCell parseDate jsonData config i
    shifts j :
  processTimesheet tz random showCell parseDate jsonData config i
  = Some (shifts, j) ->
  exists out,
    shifts = jsSort compareShifts out /\
    Forall2 (fun entry shift =>
               snd entry <> [] /\
               calculatedFrom tz random config (fst entry) (snd entry) shift)
            (personSegments config
               (groupByPerson (parseRawData tz showCell parseDate jsonData)))
            out.
Proof.
  unfold processTimesheet, processRecords. intros H. apply bind_Some in H.
  destruct H as (out & i' & H1 & H2). inversion H2; subst.
  destruct (forEachM_processPerson_Forall2 _ _ _ _ _ _ _ _ H1)
    as (new & -> & Hall).
  exists new. split; [reflexivity|].
  assert (Hne : forall e,
            In e (personSegments config
                    (groupByPerson (parseRawData tz showCell parseDate jsonData))) ->
            snd e <> []).
  { intros e He. apply personSegments_In in He. destruct He as (l & _ & Hseg).
    eapply segments_nonempty, Hseg. }
  now apply Forall2_strengthen_l.
Qed.

(** X14. On a decoded table, and with a threshold that is not negative, the
    shifts of a person never overlap and never touch: in the result every
    shift is followed only by shifts of later persons and by shifts of the
    same person that start after it has ended. *)
Theorem shifts_do_not_overlap {strings : StringMethods} tz random showCell parseDate jsonData config i :
  (0 <= shiftThresholdHours config)%Q ->
  exists shifts j,
    processTimesheet tz random showCell parseDate jsonData config i
    = Some (shifts, j) /\
    StronglySorted shiftBefore shifts.
Proof.
  intros HT.
  destruct (processTimesheet_total tz random showCell parseDate jsonData config i)
    as (shifts & j & H).
  exists shifts, j. split; [exact H|].
  destruct (processTimesheet_structure _ _ _ _ _ _ _ _ _ H) as (out & -> & Hall).
  assert (Hout : StronglySorted
                   (fun a b => shiftBefore a b /\ nameTimeLe person startTime a b)
                   out).
  { eapply Forall2_StronglySorted; [exact Hall| |].
    2: { apply personSegments_ordered; [exact HT|apply parseRawData_sorted]. }
    intros [k1 s1] [k2 s2] a b _ _ [Hne1 Ha] [Hne2 Hb] Hbefore.
    cbn [fst snd] in *.
    destruct s1 as [|start1 rest1]; [congruence|].
    destruct s2 as [|start2 rest2]; [congruence|].
    apply calculatedFrom_endpoints in Ha, Hb.
    destruct Ha as (Pa & Sa & Ea), Hb as (Pb & Sb & Eb).
    unfold shiftBefore, nameTimeLe. rewrite Pa, Pb, Sa, Sb, Ea.
    unfold segmentBefore in Hbefore. cbn [fst snd] in Hbefore.
    destruct Hbefore as [Hlt|[-> Hends]]; [split; now left|].
    pose proof (Hends _ start2 (last_In_cons start1 rest1 start1)
                  (or_introl eq_refl)) as H1.
    pose proof (Hends start1 start2 (or_introl eq_refl) (or_introl eq_refl)) as H2.
    cbn beta in H1, H2. split; right; (split; [reflexivity|]); date_lia. }
  rewrite (jsSort_nameTime_fixed person startTime compareShifts).
  - eapply StronglySorted_weaken; [|exact Hout]. now intros a b [Hab _].
  - reflexivity.
  - eapply StronglySorted_weaken; [|exact Hout]. now intros a b [_ Hab].
Qed.


(** ** No punch is lost *)

Lemma pushGroup_size r groups :
  List.length (flat_map snd (pushGroup r groups))
  = S (List.length (flat_map snd groups)).
Proof.
  induction groups as [|[k l] groups IH]; [reflexivity|].
  cbn [pushGroup]. destruct (String.eqb k (Pessoa r)); cbn [flat_map snd].
  - rewrite !length_app. cbn. lia.
  - rewrite !length_app, IH. lia.
Qed.

Lemma groupByPerson_size records :
  List.length (flat_map snd (groupByPerson records)) = List.length records.
Proof.
  unfold groupByPerson.
  assert (H : forall rest groups,
            List.length (flat_map snd (fold_left (fun g r => pushGroup r g) rest groups))
            = (List.length (flat_map snd groups) + List.length rest)%nat).
  { induction rest as [|r rest IH]; intros groups; cbn [fold_left List.length].
    - lia.
    - rewrite IH, pushGroup_size. lia. }
  rewrite H. reflexivity.
Qed.

Lemma length_concat_nonempty {A} (segs : list (list A)) :
  (forall seg, In seg segs -> seg <> []) ->
  (List.length segs <= List.length (List.concat segs))%nat.
Proof.
  induction segs as [|seg segs IH]; intros Hne; [cbn; lia|].
  cbn [List.concat List.length]. rewrite length_app.
  assert (seg <> []) by (apply Hne; now left).
  assert (List.length segs <= List.length (List.concat segs))%nat
    by (apply IH; intros s Hs; apply Hne; now right).
  destruct seg; [congruence|]. cbn. lia.
Qed.

Lemma personSegments_length config groups :
  (List.length (personSegments config groups)
   <= List.length (flat_map snd groups))%nat.
Proof.
  induction groups as [|[k l] groups IH]; [cbn; lia|].
  cbn [personSegments flat_map fst snd].
  rewrite !length_app, length_map. fold (personSegments config groups).
  pose proof (length_concat_nonempty
                (segments (fun d => d) (shiftThresholdHours config) 18
                          (map DataHora l) [])
                (fun seg => segments_nonempty _ _ _ _ _ seg)) as H.
  rewrite segments_concat in H. cbn [app] in H. rewrite length_map in H. lia.
Qed.

(** X15. On a decoded table every punch of the stream lies in a shift of its
    person, between the start and the end of the shift; the start and the
    end of every shift are punches of its person; and there are no more
    shifts than punches. *)
Theorem every_punch_in_a_shift {strings : StringMethods} tz random showCell parseDate jsonData config i :
  let stream := parseRawData tz showCell parseDate jsonData in
  exists shifts j,
    processTimesheet tz random showCell parseDate jsonData config i
    = Some (shifts, j) /\
    (forall rec, In rec stream ->
       exists shift,
         In shift shifts /\ person shift = Pessoa rec /\
         startTime shift <= DataHora rec <= endTime shift) /\
    (forall shift, In shift shifts ->
       exists first final,
         In first stream /\ In final stream /\
         Pessoa first = person shift /\ Pessoa final = person shift /\
         DataHora first = startTime shift /\ DataHora final = endTime shift) /\
    (List.length shifts <= List.length stream)%nat.
Proof.
  cbv zeta.
  destruct (processTimesheet_total tz random showCell parseDate jsonData config i)
    as (shifts & j & H).
  exists shifts, j. split; [exact H|].
  destruct (processTimesheet_structure _ _ _ _ _ _ _ _ _ H) as (out & -> & Hall).
  pose proof (parseRawData_sorted tz showCell parseDate jsonData) as Hs.
  set (stream := parseRawData tz showCell parseDate jsonData) in *.
  split; [|split].
  - intros rec Hrec.
    destruct (groupByPerson_complete stream rec Hrec) as (l & Hg & Hl).
    destruct (groupByPerson_sorted stream _ l Hs Hg) as (_ & _ & Hsorted).
    assert (Hcat : In (DataHora rec)
                      (List.concat (segments (fun d => d) (shiftThresholdHours config)
                                             18 (map DataHora l) [])))
      by (rewrite segments_concat; now apply in_map).
    apply in_concat in Hcat. destruct Hcat as (seg & Hseg & Hin).
    assert (Hentry : In (Pessoa rec, seg) (personSegments config (groupByPerson stream))).
    { unfold personSegments. apply in_flat_map. exists (Pessoa rec, l).
      split; [exact Hg|]. now apply in_map. }
    destruct (Forall2_In_l _ _ _ _ Hall Hentry) as (shift & Hshift & _ & Hcalc).
    cbn [fst snd] in Hcalc.
    pose proof (segments_sorted (fun d => d) (shiftThresholdHours config) 18
                  Z.le (map DataHora l) [] seg Hsorted Hseg) as Hsegsorted.
    destruct seg as [|start rest]; [contradiction|].
    apply calculatedFrom_endpoints in Hcalc. destruct Hcalc as (Pa & Sa & Ea).
    exists shift. split; [now apply jsSort_In|]. split; [exact Pa|].
    rewrite Sa, Ea. split.
    + destruct Hin as [<-|Hin]; [date_lia|].
      inversion Hsegsorted as [|? ? _ Hfirst]; subst.
      rewrite Forall_forall in Hfirst. now apply Hfirst.
    + apply (sorted_In_le_last (fun d : Date => d)); assumption.
  - intros shift Hshift. apply jsSort_In in Hshift.
    destruct (Forall2_In_r _ _ _ _ Hall Hshift) as ([k seg] & Hentry & Hne & Hcalc).
    cbn [fst snd] in *.
    apply personSegments_In in Hentry. destruct Hentry as (l & Hg & Hseg).
    cbn [fst snd] in *.
    destruct (groupByPerson_sorted stream _ l Hs Hg) as (_ & Hpersons & _).
    rewrite Forall_forall in Hpersons.
    destruct seg as [|start rest]; [congruence|].
    apply calculatedFrom_endpoints in Hcalc. destruct Hcalc as (Pa & Sa & Ea).
    assert (Hsub : forall d, In d (start :: rest) ->
              exists r, In r stream /\ Pessoa r = k /\ DataHora r = d).
    { intros d Hd.
      assert (Hcat : In d (List.concat (segments (fun d => d)
                                          (shiftThresholdHours config) 18
                                          (map DataHora l) [])))
        by (apply in_concat; now exists (start :: rest)).
      rewrite segments_concat in Hcat. cbn [app] in Hcat.
      apply in_map_iff in Hcat. destruct Hcat as (r & <- & Hr).
      destruct (Hpersons r Hr) as [Hp Hin]. now exists r. }
    destruct (Hsub start (or_introl eq_refl)) as (first & F1 & F2 & F3).
    destruct (Hsub _ (last_In_cons start rest start)) as (final & L1 & L2 & L3).
    exists first, final. rewrite Pa, Sa, Ea. auto 10.
  - rewrite (Permutation_length (jsSort_perm compareShifts out)).
    rewrite <- (Forall2_length Hall), <- (groupByPerson_size stream).
    apply personSegments_length.
Qed.

(** ** The rows of the daily-worker mode *)




(** X17. On a decoded table the rows of the daily-worker mode of one person
    never overlap: every row is followed only by rows of later names and by
    rows of the same name that arrive after it has left.  Every punch of
    the stream lies in a row of its person, between arrival and departure;
    arrival and departure of every row are punches of its person; and
    there are no more rows than punches. *)
Theorem daily_rows_cover_the_punches {strings : StringMethods} tz showCell parseDate jsonData :
  let stream := parseRawData tz showCell parseDate jsonData in
  let rows := processDailyWorkers tz showCell parseDate jsonData in
  StronglySorted rowBefore rows /\
  (forall rec, In rec stream ->
     exists row,
       In row rows /\ nome row = Pessoa rec /\
       chegada row <= DataHora rec <= saida row) /\
  (forall row, In row rows ->
     exists first final,
       In first stream /\ In final stream /\
       Pessoa first = nome row /\ Pessoa final = nome row /\
       DataHora first = chegada row /\ DataHora final = saida row) /\
  (List.length rows <= List.length stream)%nat.
Proof.
  cbv zeta. unfold processDailyWorkers, calculateDailyWorkers.
  pose proof (parseRawData_sorted tz showCell parseDate jsonData) as Hs.
  set (stream := parseRawData tz showCell parseDate jsonData) in *.
  rewrite fold_dailyPerson_rows. cbn [app].
  set (out := flat_map (rowsOfPerson tz showCell) (groupByPerson stream)).
  assert (Hdisjoint : forall k l,
            In (k, l) (groupByPerson stream) ->
            StronglySorted (endsBefore DataHora)
              (segments DataHora THRESHOLD_HOURS MAX_SHIFT_DURATION_HOURS
                        (jsSort compareChronological l) [])).
  { intros k l _. apply segments_disjoint; try discriminate; [|exact I].
    apply jsSort_chronological. }
  assert (Hsegsorted : forall l seg,
            In seg (segments DataHora THRESHOLD_HOURS MAX_SHIFT_DURATION_HOURS
                             (jsSort compareChronological l) []) ->
            StronglySorted (fun a b => DataHora a <= DataHora b) seg).
  { intros l seg Hseg. eapply segments_sorted; [|exact Hseg].
    apply jsSort_chronological. }
  assert (Hout : StronglySorted
                   (fun a b => rowBefore a b /\ nameTimeLe nome chegada a b) out).
  { apply StronglySorted_flat_map with (Rg := keyLt).
    - now apply groupByPerson_keys_sorted.
    - intros [k l] Hg. unfold rowsOfPerson. cbn [fst snd].
      apply StronglySorted_flat_map with (Rg := endsBefore DataHora).
      + now apply (Hdisjoint k l).
      + intros [|firstRecord others] _; [constructor|].
        destruct (finalizeShift_record tz showCell k firstRecord others [])
          as (r & _ & -> & _). repeat constructor.
      + intros [|f1 o1] [|f2 o2] x y Hs1 _ Hends Hx Hy; try contradiction.
        apply finalizeShift_row in Hx, Hy.
        destruct Hx as (Nx & Cx & Sx), Hy as (Ny & Cy & Sy).
        unfold rowBefore, nameTimeLe. rewrite Nx, Ny, Cx, Cy, Sx.
        pose proof (Hends _ f2 (last_In_cons f1 o1 f1) (or_introl eq_refl)) as H1.
        pose proof (Hends f1 f2 (or_introl eq_refl) (or_introl eq_refl)) as H2.
        split; right; (split; [reflexivity|]); date_lia.
    - intros g1 g2 x y _ _ Hlt Hx Hy.
      apply rowsOfPerson_In in Hx, Hy.
      destruct Hx as (? & ? & _ & Nx & _), Hy as (? & ? & _ & Ny & _).
      unfold rowBefore, nameTimeLe. rewrite Nx, Ny. split; now left. }
  assert (Hfixed : jsSort compareDaily out = out).
  { apply (jsSort_nameTime_fixed nome chegada); [reflexivity|].
    eapply StronglySorted_weaken; [|exact Hout]. now intros a b [_ Hab]. }
  rewrite Hfixed. split; [|split; [|split]].
  - eapply StronglySorted_weaken; [|exact Hout]. now intros a b [Hab _].
  - intros rec Hrec.
    destruct (groupByPerson_complete stream rec Hrec) as (l & Hg & Hl).
    assert (Hcat : In rec (List.concat
                             (segments DataHora THRESHOLD_HOURS
                                MAX_SHIFT_DURATION_HOURS
                                (jsSort compareChronological l) [])))
      by (rewrite segments_concat; now apply jsSort_In).
    apply in_concat in Hcat. destruct Hcat as (seg & Hseg & Hin).
    pose proof (Hsegsorted l seg Hseg) as Hsorted.
    destruct seg as [|firstRecord others]; [contradiction|].
    destruct (finalizeShift_record tz showCell (Pessoa rec) firstRecord others [])
      as (row & _ & Erow & _).
    assert (Hrow : In row (finalizeShift tz showCell (Pessoa rec)
                             (firstRecord :: others) []))
      by (rewrite Erow; now left).
    exists row. split.
    + apply in_flat_map. exists (Pessoa rec, l). split; [exact Hg|].
      unfold rowsOfPerson. apply in_flat_map.
      exists (firstRecord :: others). cbn [fst snd]. auto.
    + apply finalizeShift_row in Hrow. destruct Hrow as (Nr & Cr & Sr).
      rewrite Nr, Cr, Sr. split; [reflexivity|]. split.
      * destruct Hin as [<-|Hin]; [date_lia|].
        inversion Hsorted as [|? ? _ Hfirst]; subst.
        rewrite Forall_forall in Hfirst. now apply Hfirst.
      * now apply (sorted_In_le_last DataHora).
  - intros row Hrow. apply in_flat_map in Hrow.
    destruct Hrow as ([k l] & Hg & Hrow). apply rowsOfPerson_In in Hrow.
    cbn [fst snd] in Hrow.
    destruct Hrow as (firstRecord & others & Hseg & Nr & Cr & Sr).
    destruct (groupByPerson_sorted stream k l Hs Hg) as (_ & Hpersons & _).
    rewrite Forall_forall in Hpersons.
    assert (Hsub : forall r, In r (firstRecord :: others) ->
              In r stream /\ Pessoa r = k).
    { intros r Hr.
      assert (Hcat : In r (List.concat
                             (segments DataHora THRESHOLD_HOURS
                                MAX_SHIFT_DURATION_HOURS
                                (jsSort compareChronological l) [])))
        by (apply in_concat; now exists (firstRecord :: others)).
      rewrite segments_concat in Hcat. cbn [app] in Hcat.
      apply jsSort_In in Hcat. destruct (Hpersons r Hcat). auto. }
    destruct (Hsub firstRecord (or_introl eq_refl)) as [F1 F2].
    destruct (Hsub _ (last_In_cons firstRecord others firstRecord)) as [L1 L2].
    exists firstRecord, (last (firstRecord :: others) firstRecord).
    rewrite Nr, Cr, Sr. auto 10.
  - rewrite <- (groupByPerson_size stream). unfold out.
    generalize (groupByPerson stream) as groups.
    induction groups as [|[k l] groups IH]; [cbn; lia|].
    cbn [flat_map snd]. rewrite !length_app.
    assert (Hk : (List.length (rowsOfPerson tz showCell (k, l)) <= List.length l)%nat).
    { unfold rowsOfPerson. cbn [fst snd].
      etransitivity; [apply rows_length|].
      rewrite segments_concat. cbn [app].
      now rewrite (Permutation_length (jsSort_perm compareChronological l)). }
    lia.
Qed.

(** ** Where a made-up lunch is possible *)

(** X18. A made-up lunch needs room: a shift that gets one lasts at least an
    hour and a half, starts at least 75 minutes before the end of its meal
    window and ends at least 75 minutes after the beginning of the window.
    So a shift that starts between 01:45 and 05:00 never gets a made-up
    lunch: its window, 00:30 to 03:00 of the same day, is too near its
    end. *)
Theorem artificial_lunch_reach tz random personName config start rest i shift j :
  calculateSingleShift tz random personName (start :: rest) config i
  = Some (shift, j) ->
  lunchType shift = ARTIFICIAL ->
  let window := getLunchWindow tz start in
  90 * msPerMinute <= endTime shift - startTime shift /\
  start + 75 * msPerMinute <= snd window /\
  fst window + 75 * msPerMinute <= endTime shift /\
  (getHours tz start < 5 -> msOfDay tz start <= 105 * msPerMinute).
Proof.
  intros E Hart. cbv zeta.
  destruct (calculateSingleShift_artificial _ _ _ _ _ _ _ _ E Hart)
    as (ls & le & _ & _ & H1 & H2 & H3 & H4 & H5).
  destruct (calculateSingleShift_endpoints _ _ _ _ _ _ _ _ _ E) as [Hs He].
  rewrite Hs in *. unfold msPerMinute in *.
  split; [lia|]. split; [lia|]. split; [lia|].
  intros Hh. unfold getLunchWindow in H4.
  replace (getHours tz start >=? 5) with false in H4 by lia.
  replace (getHours tz start >=? 18) with false in H4 by lia.
  cbn [andb snd] in H4.
  replace ((getHours tz start >=? 13) && (getHours tz start <? 18)) with false in H4
    by (destruct (getHours tz start >=? 13) eqn:E13; [lia|reflexivity]).
  cbn [snd] in H4. unfold setDateTime, setHours, localDay, msOfDay, localMs in *.
  unfold msPerDay, msPerHour, msPerMinute in *.
  pose proof (Z.div_mod (start + tz) 86400000 ltac:(lia)). lia.
Qed.


(** ** The attributes of a daily-worker row *)




(** ** Consecutive shifts cannot be merged *)

Lemma last_cons_default {A} (x : A) l d d' : last (x :: l) d = last (x :: l) d'.
Proof.
  revert x. induction l as [|y l IH]; intros x; [reflexivity|].
  change (last (x :: y :: l) d) with (last (y :: l) d).
  change (last (x :: y :: l) d') with (last (y :: l) d'). apply IH.
Qed.

Section SegmentAdjacency.
Context {A : Type} (time : A -> Date) (thresholdHours maxHours : Q).

Lemma segments_head items : forall first tl,
  exists suffix rest,
    segments time thresholdHours maxHours items (first :: tl)
    = ((first :: tl) ++ suffix) :: rest.
Proof.
  induction items as [|x items IH]; intros first tl.
  - exists [], []. cbn. now rewrite app_nil_r.
  - cbn [segments]. destruct (staysInShift _ _ _ _ _).
    + destruct (IH first (tl ++ [x])) as (suffix & rest & E).
      exists (x :: suffix), rest.
      change ((first :: tl) ++ [x]) with (first :: tl ++ [x]).
      rewrite E. cbn. now rewrite <- app_assoc.
    + exists [], (segments time thresholdHours maxHours items [x]).
      now rewrite app_nil_r.
Qed.

Lemma segments_adjacent items : forall current before s1 s2 after d,
  segments time thresholdHours maxHours items current
  = before ++ s1 :: s2 :: after ->
  staysInShift thresholdHours maxHours
    (time (hd d s1)) (time (last s1 d)) (time (hd d s2)) = false.
Proof.
  induction items as [|x items IH]; intros current before s1 s2 after d E.
  - cbn in E. destruct current; destruct before as [|? [|? ?]]; discriminate.
  - cbn [segments] in E. destruct current as [|first tl]; [now apply (IH _ _ _ _ _ d E)|].
    destruct (staysInShift _ _ _ _ _) eqn:Estay; [now apply (IH _ _ _ _ _ d E)|].
    destruct before as [|s0 before].
    + cbn [app] in E. injection E as E1 E2. subst s1.
      destruct (segments_head items x []) as (suffix & rest & Eh).
      rewrite Eh in E2. injection E2 as E2 _. subst s2.
      cbn [hd app]. rewrite (last_cons_default first tl d first). exact Estay.
    + cbn [app] in E. injection E as _ E. now apply (IH _ _ _ _ _ d E).
Qed.
End SegmentAdjacency.

Lemma staysInShift_false thresholdHours maxHours first lastPunch punch :
  staysInShift thresholdHours maxHours first lastPunch punch = false <->
  (thresholdHours < hoursBetween punch lastPunch)%Q \/
  (maxHours < hoursBetween punch first)%Q.
Proof.
  unfold staysInShift. rewrite andb_false_iff.
  assert (H : forall x y, Qle_bool x y = false <-> (y < x)%Q).
  { intros x y. split.
    - intros E. apply Qnot_le_lt. intros Hle. apply Qle_bool_iff in Hle. congruence.
    - intros Hlt. destruct (Qle_bool x y) eqn:E; [|reflexivity].
      apply Qle_bool_iff in E. exfalso. exact (Qlt_not_le _ _ Hlt E). }
  now rewrite !H.
Qed.

Lemma rows_Forall2 {strings : StringMethods} tz showCell personName segs :
  (forall seg, In seg segs -> seg <> []) ->
  Forall2 (fun seg row => finalizeShift tz showCell personName seg [] = [row])
          segs
          (flat_map (fun punches => finalizeShift tz showCell personName punches [])
                    segs).
Proof.
  induction segs as [|seg segs IH]; intros Hne; [constructor|].
  cbn [flat_map]. destruct seg as [|firstRecord others];
    [exfalso; apply (Hne []); [now left|reflexivity]|].
  destruct (finalizeShift_record tz showCell personName firstRecord others [])
    as (r & _ & E & _).
  rewrite E. cbn [app]. constructor; [exact E|].
  apply IH. intros s Hs. apply Hne. now right.
Qed.

(** X20. Two consecutive shifts of a person could not have been one: the
    later one starts more than the threshold after the end of the earlier
    one, or more than the maximum span (18 hours in full-detail mode, 16
    hours in daily-worker mode, where the threshold is 12 hours) after its
    start.  This holds for the shifts that the loop over the punches of
    one person produces, whatever the punches and the configuration. *)
Theorem consecutive_shifts_cannot_merge {strings : StringMethods} tz random showCell config :
  (forall personName personRecords i,
     exists shifts j,
       processPerson tz random config [] (personName, personRecords) i
       = Some (shifts, j) /\
       forall before a b after,
         shifts = before ++ a :: b :: after ->
         (shiftThresholdHours config < hoursBetween (startTime b) (endTime a))%Q \/
         (18 < hoursBetween (startTime b) (startTime a))%Q) /\
  (forall personName personRecords before a b after,
     dailyPerson tz showCell [] (personName, personRecords)
     = before ++ a :: b :: after ->
     (12 < hoursBetween (chegada b) (saida a))%Q \/
     (16 < hoursBetween (chegada b) (chegada a))%Q).
Proof.
  split.
  - intros personName personRecords i.
    set (segs := segments (fun d : Date => d) (shiftThresholdHours config) 18
                          (map DataHora personRecords) []).
    assert (Hne : forall seg, In seg segs -> seg <> [])
      by (intros seg; apply segments_nonempty).
    destruct (forEachM_pushShift_total tz random config personName segs [] i Hne)
      as (shifts & j & E).
    exists shifts, j. rewrite processPerson_segments. split; [exact E|].
    destruct (forEachM_pushShift_Forall2 _ _ _ _ _ _ _ _ _ E) as (new & -> & Hall).
    cbn [app]. intros before a b after ->.
    apply Forall2_app_inv_r in Hall.
    destruct Hall as (sbefore & srest & _ & Hrest & Esegs).
    inversion Hrest as [|s1 ? srest1 ? Ha Hrest1]; subst.
    inversion Hrest1 as [|s2 ? safter ? Hb _]; subst.
    pose proof (segments_adjacent (fun d : Date => d) _ _ _ _ _ _ _ _ 0 Esegs)
      as Hadj.
    assert (H1 : s1 <> []) by (apply Hne; rewrite Esegs; apply in_or_app; right; now left).
    assert (H2 : s2 <> [])
      by (apply Hne; rewrite Esegs; apply in_or_app; right; right; now left).
    destruct s1 as [|start1 rest1]; [congruence|].
    destruct s2 as [|start2 rest2]; [congruence|].
    apply calculatedFrom_endpoints in Ha, Hb.
    destruct Ha as (_ & Sa & Ea), Hb as (_ & Sb & _).
    rewrite Sa, Ea, Sb. apply staysInShift_false.
    cbn [hd] in Hadj. now rewrite (last_cons_default start1 rest1 start1 0).
  - intros personName personRecords before a b after E.
    rewrite dailyPerson_segments, fold_finalizeShift_rows in E. cbn [app] in E.
    set (segs := segments DataHora THRESHOLD_HOURS MAX_SHIFT_DURATION_HOURS
                          (jsSort compareChronological personRecords) []) in *.
    assert (Hne : forall seg, In seg segs -> seg <> [])
      by (intros seg; apply segments_nonempty).
    pose proof (rows_Forall2 tz showCell personName segs Hne) as Hall.
    rewrite E in Hall. apply Forall2_app_inv_r in Hall.
    destruct Hall as (sbefore & srest & _ & Hrest & Esegs).
    inversion Hrest as [|s1 ? srest1 ? Ha Hrest1]; subst.
    inversion Hrest1 as [|s2 ? safter ? Hb _]; subst.
    destruct s1 as [|f1 o1];
      [exfalso; apply (Hne []); [rewrite Esegs; apply in_or_app; right; now left
                                |reflexivity]|].
    destruct s2 as [|f2 o2];
      [exfalso; apply (Hne []);
         [rewrite Esegs; apply in_or_app; right; right; now left|reflexivity]|].
    pose proof (segments_adjacent DataHora _ _ _ _ _ _ _ _ f1 Esegs) as Hadj.
    cbn [hd] in Hadj.
    assert (Ia : In a (finalizeShift tz showCell personName (f1 :: o1) []))
      by (rewrite Ha; now left).
    assert (Ib : In b (finalizeShift tz showCell personName (f2 :: o2) []))
      by (rewrite Hb; now left).
    apply finalizeShift_row in Ia, Ib.
    destruct Ia as (_ & Ca & Sa), Ib as (_ & Cb & _).
    rewrite Ca, Sa, Cb. now apply staysInShift_false.
Qed.

(** ** The hard cap on the entry points *)

Lemma two_distinct_members {A} (l : list A) x y :
  In x l -> In y l -> x <> y -> (2 <= List.length l)%nat.
Proof.
  destruct l as [|a [|b l]]; cbn; [tauto| |lia].
  intros [<-|[]] [<-|[]] H. congruence.
Qed.

Lemma filter_two_distinct {A} (f : A -> bool) l x y :
  In x l -> In y l -> x <> y -> f x = true -> f y = true ->
  (2 <= List.length (filter f l))%nat.
Proof.
  intros Hx Hy Hxy Fx Fy.
  apply (two_distinct_members _ x y); [| |exact Hxy]; apply filter_In; auto.
Qed.

(** The members of a group, whatever the order of the records. *)
Lemma groupByPerson_members records k l r :
  In (k, l) (groupByPerson records) -> In r l -> Pessoa r = k /\ In r records.
Proof.
  unfold groupByPerson.
  assert (H : forall rest seen groups,
            (forall k l r, In (k, l) groups -> In r l ->
                           Pessoa r = k /\ In r seen) ->
            forall k l r,
              In (k, l) (fold_left (fun g x => pushGroup x g) rest groups) ->
              In r l -> Pessoa r = k /\ In r (seen ++ rest)).
  { induction rest as [|x rest IH]; intros seen groups Hg k0 l0 r0; cbn [fold_left].
    - rewrite app_nil_r. apply Hg.
    - replace (seen ++ x :: rest) with ((seen ++ [x]) ++ rest)
        by (rewrite <- app_assoc; reflexivity).
      apply IH. intros k1 l1 r1 Hin Hr. apply pushGroup_In in Hin.
      destruct Hin as [Hin|(-> & [->|(l2 & Hin & ->)])].
      + destruct (Hg _ _ _ Hin Hr) as [Hp Hs]. split; [exact Hp|].
        apply in_or_app. now left.
      + destruct Hr as [<-|[]]. split; [reflexivity|].
        apply in_or_app. right. now left.
      + apply in_app_or in Hr. destruct Hr as [Hr|[<-|[]]].
        * destruct (Hg _ _ _ Hin Hr) as [Hp Hs]. split; [exact Hp|].
          apply in_or_app. now left.
        * split; [reflexivity|]. apply in_or_app. right. now left. }
  intros Hin Hr. apply (H records [] [] (fun _ _ _ F => match F with end) k l r Hin Hr).
Qed.

(** In the full-detail mode every punch of a sorted stream lies in a shift
    of its person that spans at most 18 hours. *)
Lemma processRecords_covers tz random config records i shifts j rec :
  StronglySorted recordLe records ->
  processRecords tz random records config i = Some (shifts, j) ->
  In rec records ->
  exists shift,
    In shift shifts /\ person shift = Pessoa rec /\
    startTime shift <= DataHora rec <= endTime shift /\
    endTime shift - startTime shift <= 18 * msPerHour.
Proof.
  intros Hs H Hrec. unfold processRecords in H. apply bind_Some in H.
  destruct H as (out & i' & H1 & H2). inversion H2; subst. clear H2.
  destruct (forEachM_processPerson_Forall2 _ _ _ _ _ _ _ _ H1)
    as (new & -> & Hall). cbn [app].
  destruct (groupByPerson_complete records rec Hrec) as (l & Hg & Hl).
  destruct (groupByPerson_sorted records _ l Hs Hg) as (_ & _ & Hsorted).
  assert (Hcat : In (DataHora rec)
                    (List.concat (segments (fun d => d) (shiftThresholdHours config)
                                           18 (map DataHora l) [])))
    by (rewrite segments_concat; now apply in_map).
  apply in_concat in Hcat. destruct Hcat as (seg & Hseg & Hin).
  assert (Hentry : In (Pessoa rec, seg) (personSegments config (groupByPerson records))).
  { unfold personSegments. apply in_flat_map. exists (Pessoa rec, l).
    split; [exact Hg|]. now apply in_map. }
  destruct (Forall2_In_l _ _ _ _ Hall Hentry) as (shift & Hshift & Hcalc).
  cbn [fst snd] in Hcalc.
  pose proof (segments_sorted (fun d => d) (shiftThresholdHours config) 18
                Z.le (map DataHora l) [] seg Hsorted Hseg) as Hsegsorted.
  change 18%Q with (inject_Z 18) in Hseg.
  destruct (segment_span_le (fun d : Date => d) _ 18 _ _ ltac:(lia) Hseg)
    as (start & rest & -> & Hspan).
  apply calculatedFrom_endpoints in Hcalc. destruct Hcalc as (Pa & Sa & Ea).
  exists shift. split; [now apply jsSort_In|]. split; [exact Pa|].
  rewrite Sa, Ea. split; [|exact Hspan]. split.
  - destruct Hin as [<-|Hin]; [date_lia|].
    inversion Hsegsorted as [|? ? _ Hfirst]; subst.
    rewrite Forall_forall in Hfirst. now apply Hfirst.
  - apply (sorted_In_le_last (fun d : Date => d)); assumption.
Qed.

(** In the daily-worker mode every punch lies in a row of its person that
    spans at most 16 hours, whatever the order of the stream. *)
Lemma calculateDailyWorkers_covers {strings : StringMethods} tz showCell records rec :
  In rec records ->
  exists row,
    In row (calculateDailyWorkers tz showCell records) /\
    nome row = Pessoa rec /\
    chegada row <= DataHora rec <= saida row /\
    saida row - chegada row <= 16 * msPerHour.
Proof.
  intros Hrec. unfold calculateDailyWorkers.
  destruct (groupByPerson_complete records rec Hrec) as (l & Hg & Hl).
  assert (Hcat : In rec (List.concat
                           (segments DataHora THRESHOLD_HOURS
                              MAX_SHIFT_DURATION_HOURS
                              (jsSort compareChronological l) [])))
    by (rewrite segments_concat; now apply jsSort_In).
  apply in_concat in Hcat. destruct Hcat as (seg & Hseg & Hin).
  assert (Hsorted : StronglySorted (fun a b => DataHora a <= DataHora b) seg).
  { eapply segments_sorted; [|exact Hseg]. apply jsSort_chronological. }
  pose proof Hseg as Hseg'.
  unfold MAX_SHIFT_DURATION_HOURS in Hseg'. change 16%Q with (inject_Z 16) in Hseg'.
  destruct (segment_span_le DataHora _ 16 _ _ ltac:(lia) Hseg')
    as (firstRecord & others & -> & Hspan).
  destruct (finalizeShift_record tz showCell (Pessoa rec) firstRecord others [])
    as (row & _ & Erow & _).
  assert (Hrow : In row (finalizeShift tz showCell (Pessoa rec)
                           (firstRecord :: others) []))
    by (rewrite Erow; now left).
  exists row. split.
  - apply jsSort_In. rewrite fold_dailyPerson_rows. cbn [app].
    apply in_flat_map. exists (Pessoa rec, l). split; [exact Hg|].
    unfold rowsOfPerson. apply in_flat_map.
    exists (firstRecord :: others). cbn [fst snd]. auto.
  - apply finalizeShift_row in Hrow. destruct Hrow as (Nr & Cr & Sr).
    rewrite Nr, Cr, Sr. split; [reflexivity|]. split; [|exact Hspan]. split.
    + destruct Hin as [<-|Hin]; [date_lia|].
      inversion Hsorted as [|? ? _ Hfirst]; subst.
      rewrite Forall_forall in Hfirst. now apply Hfirst.
    + now apply (sorted_In_le_last DataHora).
Qed.

(** C5. In both modes every produced shift spans at most the hard cap (18
    hours in full-detail mode, whatever the configuration; 16 hours in
    daily-worker mode), and the time-sorted punches of a person whose
    first-to-last span exceeds the cap are split into at least two shifts,
    without any assumption on the individual gaps: by the loop over the
    punches of one person, and so by the two modes themselves.  When two
    punches of a person in the stream are more than the cap apart,
    [processRecords] (on a sorted stream, as [parseRawData] returns it, and
    so the whole pipeline on any table) and [calculateDailyWorkers] (on any
    stream) return at least two shifts of that person, one that holds the
    earlier punch and a later one that holds the other. *)
Theorem hard_cap_splits {strings : StringMethods} tz random showCell :
  (forall config records i,
     exists shifts j,
       processRecords tz random records config i = Some (shifts, j) /\
       forall shift, In shift shifts ->
         endTime shift - startTime shift <= 18 * msPerHour) /\
  (forall config personName firstRecord others i,
     let personRecords := firstRecord :: others in
     timeSorted (map DataHora personRecords) ->
     18 * msPerHour
       < DataHora (last personRecords firstRecord) - DataHora firstRecord ->
     exists shifts j,
       processPerson tz random config [] (personName, personRecords) i
         = Some (shifts, j) /\
       (2 <= List.length shifts)%nat) /\
  (forall records record,
     In record (calculateDailyWorkers tz showCell records) ->
     saida record - chegada record <= 16 * msPerHour) /\
  (forall personName firstRecord others,
     let personRecords := firstRecord :: others in
     timeSorted (map DataHora personRecords) ->
     16 * msPerHour
       < DataHora (last personRecords firstRecord) - DataHora firstRecord ->
     (2 <= List.length
             (dailyPerson tz showCell [] (personName, personRecords)))%nat) /\
  (forall config records i a b,
     StronglySorted recordLe records ->
     In a records -> In b records -> Pessoa a = Pessoa b ->
     18 * msPerHour < DataHora b - DataHora a ->
     exists shifts j,
       processRecords tz random records config i = Some (shifts, j) /\
       (exists first second,
          In first shifts /\ In second shifts /\
          person first = Pessoa a /\ person second = Pessoa a /\
          startTime first <= DataHora a <= endTime first /\
          startTime second <= DataHora b <= endTime second /\
          endTime first < endTime second) /\
       (2 <= List.length
               (filter (fun shift => String.eqb (person shift) (Pessoa a))
                       shifts))%nat) /\
  (forall parseDate config jsonData i a b,
     let stream := parseRawData tz showCell parseDate jsonData in
     In a stream -> In b stream -> Pessoa a = Pessoa b ->
     18 * msPerHour < DataHora b - DataHora a ->
     exists shifts j,
       processTimesheet tz random showCell parseDate jsonData config i
       = Some (shifts, j) /\
       (2 <= List.length
               (filter (fun shift => String.eqb (person shift) (Pessoa a))
                       shifts))%nat) /\
  (forall records a b,
     In a records -> In b records -> Pessoa a = Pessoa b ->
     16 * msPerHour < DataHora b - DataHora a ->
     let rows := calculateDailyWorkers tz showCell records in
     (exists first second,
        In first rows /\ In second rows /\
        nome first = Pessoa a /\ nome second = Pessoa a /\
        chegada first <= DataHora a <= saida first /\
        chegada second <= DataHora b <= saida second /\
        saida first < saida second) /\
     (2 <= List.length
             (filter (fun row => String.eqb (nome row) (Pessoa a)) rows))%nat).
Proof.
  assert (Hfull : forall config records i a b,
            StronglySorted recordLe records ->
            In a records -> In b records -> Pessoa a = Pessoa b ->
            18 * msPerHour < DataHora b - DataHora a ->
            exists shifts j,
              processRecords tz random records config i = Some (shifts, j) /\
              (exists first second,
                 In first shifts /\ In second shifts /\
                 person first = Pessoa a /\ person second = Pessoa a /\
                 startTime first <= DataHora a <= endTime first /\
                 startTime second <= DataHora b <= endTime second /\
                 endTime first < endTime second) /\
              (2 <= List.length
                      (filter (fun shift => String.eqb (person shift) (Pessoa a))
                              shifts))%nat).
  { intros config records i a b Hs Ha Hb Hab Hspan.
    destruct (processRecords_total tz random config records i)
      as (shifts & j & H).
    exists shifts, j. split; [exact H|].
    destruct (processRecords_covers _ _ _ _ _ _ _ a Hs H Ha)
      as (s1 & I1 & P1 & C1 & S1).
    destruct (processRecords_covers _ _ _ _ _ _ _ b Hs H Hb)
      as (s2 & I2 & P2 & C2 & S2).
    rewrite <- Hab in P2.
    assert (Hlt : endTime s1 < endTime s2) by date_lia.
    split.
    - exists s1, s2. auto 10.
    - apply (filter_two_distinct _ _ s1 s2); try assumption.
      + intros ->. lia.
      + rewrite P1. apply String.eqb_refl.
      + rewrite P2. apply String.eqb_refl. }
  split; [|split; [|split; [|split; [|split; [exact Hfull|split]]]]].
  - intros config records i.
    destruct (processRecords_total tz random config records i)
      as (shifts & j & H).
    exists shifts, j. split; [exact H|]. intros shift Hin.
    destruct (processRecords_origin _ _ _ _ _ _ _ H shift Hin)
      as (personName & personRecords & punches & _ & Hp & i' & j' & E).
    change 18%Q with (inject_Z 18) in Hp.
    apply segment_span_le in Hp; [|lia].
    destruct Hp as (start & rest & -> & Hspan).
    apply calculateSingleShift_endpoints in E. destruct E as [-> ->].
    exact Hspan.
  - intros config personName firstRecord others i personRecords _ Hspan.
    pose proof (processPerson_segments tz random config personName
                  personRecords [] i) as Eseg.
    destruct (forEachM_pushShift_total tz random config personName
                (segments (fun d => d) (shiftThresholdHours config) 18
                          (map DataHora personRecords) []) [] i)
      as (shifts & j & E); [intros seg; apply segments_nonempty|].
    exists shifts, j. split; [now rewrite Eseg|].
    rewrite (forEachM_pushShift_length _ _ _ _ _ _ _ _ _ E). cbn [List.length plus].
    subst personRecords. cbn [map].
    apply segments_split_on_cap; [discriminate|].
    rewrite last_map. change 18%Q with (inject_Z 18). apply hours_gt_cap.
    now rewrite <- last_cons_self.
  - intros records record Hin.
    destruct (calculateDailyWorkers_origin _ _ _ _ Hin)
      as (personName & personRecords & punches & _ & Hp & Hrec).
    unfold MAX_SHIFT_DURATION_HOURS in Hp. change 16%Q with (inject_Z 16) in Hp.
    apply segment_span_le in Hp; [|lia].
    destruct Hp as (first & rest & -> & Hspan).
    destruct Hrec as [_ Hrec].
    destruct (finalizeShift_record tz showCell personName first rest [])
      as (r & _ & E0 & Hc & Hs).
    rewrite E0 in Hrec. inversion Hrec; subst r. rewrite Hc, Hs. exact Hspan.
  - intros personName firstRecord others personRecords Hs Hspan.
    rewrite dailyPerson_segments.
    rewrite jsSort_sorted_id.
    + destruct (fold_finalizeShift tz showCell personName
                  (segments DataHora THRESHOLD_HOURS MAX_SHIFT_DURATION_HOURS
                            personRecords []) [])
        as [Hlen _]; [intros seg; apply segments_nonempty|].
      cbv zeta in Hlen. rewrite Hlen. cbn [List.length plus].
      apply segments_split_on_cap; [discriminate|].
      unfold MAX_SHIFT_DURATION_HOURS. change 16%Q with (inject_Z 16).
      apply hours_gt_cap. now rewrite <- last_cons_self.
    + apply StronglySorted_map_inv in Hs.
      eapply StronglySorted_weaken; [|exact Hs].
      intros a b. apply compareChronological_le.
  - intros parseDate config jsonData i a b stream Ha Hb Hab Hspan.
    destruct (Hfull config stream i a b) as (shifts & j & H & _ & Hlen);
      try assumption; [apply parseRawData_sorted|].
    exists shifts, j. split; [exact H|exact Hlen].
  - intros records a b Ha Hb Hab Hspan. cbv zeta.
    destruct (calculateDailyWorkers_covers tz showCell records a Ha)
      as (r1 & I1 & N1 & C1 & S1).
    destruct (calculateDailyWorkers_covers tz showCell records b Hb)
      as (r2 & I2 & N2 & C2 & S2).
    rewrite <- Hab in N2.
    assert (Hlt : saida r1 < saida r2) by date_lia.
    split.
    + exists r1, r2. auto 10.
    + apply (filter_two_distinct _ _ r1 r2); try assumption.
      * intros ->. lia.
      * rewrite N1. apply String.eqb_refl.
      * rewrite N2. apply String.eqb_refl.
Qed.

(** ** The further properties on the sample inputs *)

Section FurtherSampleProperties.
#[local] Existing Instance asciiStrings.

(** One hour and 18 seconds are 1.005 hours, but the double nearest to
    that lies below it: the hours are rounded to 1, and the shift counts
    among the short ones. *)
Example worked_hours_round_the_double :
  let shift := completeShift sampleTz "Ana" (clock 8 0)
                 (mkDate sampleTz 2024 1 15 9 0 18) None None NONE in
  workedMs shift = 3618000 /\ Qeq (workedHours shift) 1
  /\ isShortWorked shift = true.
Proof. cbv zeta. repeat split; by_evaluation. Qed.

(** The break is subtracted as minutes times 60 times 1000, in doubles: a
    break of 64 minutes and 8 seconds is subtracted as a little more than
    3848000 milliseconds, so 20 minutes of work are shown as 00:19:59. *)
Example daily_break_rounds_below :
  map (fun record =>
         (PrimFloat.ltb (durationMs record) (Number (20 * msPerMinute)),
          horaTotal record))
      (calculateDailyWorkers sampleTz sampleShowCell
         [punchAt 11 0 0; punchAt 12 4 8; punchAt 12 24 8])
  = [(true, "00:19:59"%string)].
Proof. by_evaluation. Qed.

(** When the break is the whole shift the net duration is below zero, and
    is shown as 00:00:00. *)
Example daily_net_duration_below_zero :
  map (fun record => (PrimFloat.ltb (durationMs record) 0, horaTotal record))
      (calculateDailyWorkers sampleTz sampleShowCell
         [punchAt 11 0 0; punchAt 12 4 8])
  = [(true, "00:00:00"%string)].
Proof. by_evaluation. Qed.

(** The sheet [[{ Nome: "Ana", Entrada: new Date(NaN) }]]: the Invalid Date
    of the second column is emitted as a punch of Ana. *)
Lemma invalid_date_is_emitted_witness :
  exists rec,
    In rec (AnyDate.records sampleTz (fun _ => "Invalid Date"%string)
              sampleParseDate
              [[("Nome"%string, AnyDate.CString "Ana");
                ("Entrada"%string, AnyDate.CDate AnyDate.InvalidDate)]]) /\
    AnyDate.Pessoa rec = "Ana"%string /\
    AnyDate.DataHora rec = AnyDate.InvalidDate /\
    AnyDate.accessor (getFullYear sampleTz) (AnyDate.DataHora rec) = None.
Proof.
  destruct (invalid_date_is_emitted sampleTz (fun _ => "Invalid Date"%string)
              sampleParseDate
              [[("Nome"%string, AnyDate.CString "Ana");
                ("Entrada"%string, AnyDate.CDate AnyDate.InvalidDate)]]
              [("Nome"%string, AnyDate.CString "Ana");
               ("Entrada"%string, AnyDate.CDate AnyDate.InvalidDate)]
              "Nome"%string (AnyDate.CString "Ana") "Entrada"%string)
    as (rec & Hin & Hp & Hd & _ & Hy & _);
    [now left|reflexivity|discriminate|right; now left
    |reflexivity|reflexivity|reflexivity|].
  exists rec. split; [exact Hin|]. split; [exact Hp|]. split; [exact Hd|exact Hy].
Defined.

(** Twenty hours of punches ten hours apart are split in both modes: by the
    loop over the punches of Ana, and by the two modes on her stream. *)
Lemma hard_cap_splits_witness :
  (exists shifts j,
     processPerson sampleTz sampleRandom overnightConfig []
       ("Ana"%string, longDayRecords) 0%nat = Some (shifts, j) /\
     (2 <= List.length shifts)%nat) /\
  (2 <= List.length
          (dailyPerson sampleTz sampleShowCell []
             ("Ana"%string, longDayRecords)))%nat /\
  (exists shifts j,
     processRecords sampleTz sampleRandom longDayRecords overnightConfig 0%nat
     = Some (shifts, j) /\
     (2 <= List.length
             (filter (fun shift => String.eqb (person shift) "Ana") shifts))%nat) /\
  (2 <= List.length
          (filter (fun row => String.eqb (nome row) "Ana")
                  (calculateDailyWorkers sampleTz sampleShowCell
                     longDayRecords)))%nat.
Proof.
  assert (Hs : timeSorted (map DataHora longDayRecords)).
  { unfold timeSorted. repeat constructor; by_evaluation. }
  assert (Hsorted : StronglySorted recordLe longDayRecords).
  { unfold longDayRecords.
    repeat (apply SSorted_cons || apply SSorted_nil
            || apply Forall_cons || apply Forall_nil);
      right; split; try reflexivity; by_evaluation. }
  pose proof (hard_cap_splits sampleTz sampleRandom sampleShowCell)
    as (_ & Hperson & _ & Hdaily & Hfull & _ & Hrows).
  split; [|split; [|split]].
  - apply (Hperson overnightConfig "Ana"%string (sampleRecord (clock 8 0))
             [sampleRecord (clock 18 0); sampleRecord (nextDay 4 0)] 0%nat Hs).
    by_evaluation.
  - apply (Hdaily "Ana"%string (sampleRecord (clock 8 0))
             [sampleRecord (clock 18 0); sampleRecord (nextDay 4 0)] Hs).
    by_evaluation.
  - destruct (Hfull overnightConfig longDayRecords 0%nat
                (sampleRecord (clock 8 0)) (sampleRecord (nextDay 4 0)))
      as (shifts & j & H & _ & Hlen);
      [exact Hsorted|now left|right; right; now left|reflexivity|by_evaluation|].
    exists shifts, j. split; [exact H|exact Hlen].
  - apply (Hrows longDayRecords (sampleRecord (clock 8 0))
             (sampleRecord (nextDay 4 0)));
      [now left|right; right; now left|reflexivity|by_evaluation].
Defined.

(** The reference date of the sample row and its duration column give no
    punch: a row made of them alone is dropped with its table. *)
Lemma punch_provenance_witness :
  parseRawData sampleTz sampleShowCell sampleParseDate
    ([anaRow] ++ [("Data"%string, CDate (clock 9 0))] :: [brunoRow])
  = parseRawData sampleTz sampleShowCell sampleParseDate ([anaRow] ++ [brunoRow]).
Proof.
  apply (proj2 (punch_provenance sampleTz sampleShowCell sampleParseDate)).
  left. intros e [<-|[]]. reflexivity.
Defined.

(** Breaks 05:00-06:00 and 08:00-09:00 of a shift that starts at 05:00:
    both are outside the window 10:30-14:30, the later one is nearer. *)
Lemma nearest_middle_fallback_witness :
  exists g before after,
    filter (durationWithin 45 75)
           (findGaps [clock 5 0; clock 6 0; clock 8 0; clock 9 0; clock 15 0])
    = before ++ g :: after /\
    (forall g', In g' before ->
       (middleDistance (fst (getLunchWindow sampleTz (clock 5 0)))
                       (snd (getLunchWindow sampleTz (clock 5 0))) g
        < middleDistance (fst (getLunchWindow sampleTz (clock 5 0)))
                         (snd (getLunchWindow sampleTz (clock 5 0))) g')%Q) /\
    (forall g', In g' after ->
       (middleDistance (fst (getLunchWindow sampleTz (clock 5 0)))
                       (snd (getLunchWindow sampleTz (clock 5 0))) g
        <= middleDistance (fst (getLunchWindow sampleTz (clock 5 0)))
                          (snd (getLunchWindow sampleTz (clock 5 0))) g')%Q) /\
    calculateSingleShift sampleTz sampleRandom "Ana"
      [clock 5 0; clock 6 0; clock 8 0; clock 9 0; clock 15 0] DEFAULT_CONFIG 0%nat
    = Some (completeShift sampleTz "Ana" (clock 5 0)
              (last [clock 5 0; clock 6 0; clock 8 0; clock 9 0; clock 15 0]
                    (clock 5 0))
              (Some (gstart g)) (Some (gend g)) NORMAL, 0%nat).
Proof.
  apply (nearest_middle_fallback sampleTz sampleRandom "Ana" DEFAULT_CONFIG
           (clock 5 0) [clock 6 0; clock 8 0; clock 9 0; clock 15 0] 0%nat);
    by_evaluation.
Defined.

(** The sample table under the baseline configuration. *)
Lemma shifts_do_not_overlap_witness :
  exists shifts j,
    processTimesheet sampleTz sampleRandom sampleShowCell sampleParseDate
      sampleTable DEFAULT_CONFIG 0%nat = Some (shifts, j) /\
    StronglySorted shiftBefore shifts.
Proof.
  apply (shifts_do_not_overlap sampleTz sampleRandom sampleShowCell
           sampleParseDate sampleTable DEFAULT_CONFIG 0%nat).
  by_evaluation.
Defined.


(** The shift of Bruno in the sample table, 08:00 to 16:00 without a
    break. *)
Lemma artificial_lunch_reach_witness :
  90 * msPerMinute <= endTime brunoShift - startTime brunoShift /\
  clock 8 0 + 75 * msPerMinute <= snd (getLunchWindow sampleTz (clock 8 0)) /\
  fst (getLunchWindow sampleTz (clock 8 0)) + 75 * msPerMinute
  <= endTime brunoShift /\
  (getHours sampleTz (clock 8 0) < 5 ->
   msOfDay sampleTz (clock 8 0) <= 105 * msPerMinute).
Proof.
  apply (artificial_lunch_reach sampleTz sampleRandom "Bruno" DEFAULT_CONFIG
           (clock 8 0) [clock 16 0] 0%nat brunoShift 2%nat);
    by_evaluation.
Defined.


End FurtherSampleProperties.
